(** * png2pdf: the Streamlit image-to-PDF converter ([app.py])

    A shallow embedding of [app.py] and proofs about it.

    - [Py]: the Python values the script computes with: exceptions, binary64
      floats (as the Standard Library's IEEE 754 specification [SpecFloat] at
      precision 53 and maximal exponent 1024), [int]/[float] conversions,
      the builtins [min], [max], [str.split] and list indexing.
    - [PIL]: the part of Pillow the script calls ([Image.open], [convert],
      [resize], [save] as PDF).  The codecs are an interface ([PIL.Codec]);
      the wrappers around them follow Pillow's Python layer: [Image.open]
      reads a header and leaves the pixels in the file, the methods that
      need pixels load them and may fail then, and [save_all] writes every
      frame of every image.
    - [St]: Streamlit widgets as a log of calls, and the world the script
      runs in: the heap of image objects, the module-level registry and the
      rendered widgets, threaded by a state-and-exception monad.
    - [App]: the script itself, statement by statement. *)

From Stdlib Require Import ZArith List String Ascii Bool Lia.
From Stdlib Require Import Floats.SpecFloat Floats.PrimFloat Floats.FloatOps.
From stdpp Require Import base option list gmap strings.

Local Open Scope Z_scope.

(* ================================================================== *)
(** * Python values *)
(* ================================================================== *)

Module Py.

(** Exceptions the script can meet.  [OSError] stands for the errors Pillow
    raises on data it cannot read or write ([UnidentifiedImageError] is one
    of its subclasses); [SyntaxError] is what an image plugin raises on a
    header that is not its own; [SystemError] stands for a state the
    interpreter never reaches (a reference to no object). *)
Inductive exn : Type :=
| OverflowError (msg : string)
| ValueError (msg : string)
| IndexError (msg : string)
| KeyError (key : string)
| SyntaxError (msg : string)
| OSError (msg : string)
| SystemError (msg : string).

(** [str(e)]: the message; a [KeyError] prints the [repr] of its key. *)
Definition str (e : exn) : string :=
  match e with
  | OverflowError m | ValueError m | IndexError m | SyntaxError m | OSError m
  | SystemError m => m
  | KeyError k => "'" +:+ k +:+ "'"
  end.

(** An expression either raises or has a value. *)
Definition result (A : Type) : Type := (exn + A)%type.

Definition and_then {A B} (r : result A) (k : A -> result B) : result B :=
  match r with
  | inl e => inl e
  | inr a => k a
  end.

(** ** binary64 floats *)

Definition prec : Z := 53.
Definition emax : Z := 1024.

Abbreviation float := spec_float (only parsing).

(** The type invariant of a Python float: normalised mantissa and exponent
    in range. *)
Definition is_float64 (x : float) : Prop :=
  SpecFloat.valid_binary prec emax x = true.

Definition float_mul : float -> float -> float := SFmul prec emax.
Definition float_div : float -> float -> float := SFdiv prec emax.
Definition float_lt : float -> float -> bool := SFltb.
Definition float_le : float -> float -> bool := SFleb.
Definition float_eq : float -> float -> bool := SFeqb.
Definition float_ge (x y : float) : bool := SFleb y x.

(** The float literals of the script, read by the kernel's binary64 parser. *)
Definition lit_1_0 : float := Eval vm_compute in Prim2SF 1.0%float.
Definition lit_0_5 : float := Eval vm_compute in Prim2SF 0.5%float.
Definition lit_0_25 : float := Eval vm_compute in Prim2SF 0.25%float.
(** [0.05] is not a binary64 value; the nearest one is [0x1.999999999999ap-5]. *)
Definition lit_0_05 : float := Eval vm_compute in Prim2SF 0x1.999999999999ap-5%float.
Definition float_zero : float := S754_zero false.
Definition float_nan : float := S754_nan.

(** [float(n)] for an [int]: correctly rounded (ties to even);
    [OverflowError] when the rounded value is out of range. *)
Definition float_of_int (n : Z) : result float :=
  match binary_normalize prec emax n 0 false with
  | S754_infinity _ => inl (OverflowError "int too large to convert to float")
  | f => inr f
  end.

(** [int(x)] for a [float]: truncation towards zero, exact. *)
Definition int_of_float (x : float) : result Z :=
  match x with
  | S754_zero _ => inr 0
  | S754_finite s m e => inr (cond_Zopp s (Z.shiftl (Zpos m) e))
  | S754_infinity _ => inl (OverflowError "cannot convert float infinity to integer")
  | S754_nan => inl (ValueError "cannot convert float NaN to integer")
  end.

(** [n * x] with [n : int] and [x : float]: [n] is converted first. *)
Definition int_mul_float (n : Z) (x : float) : result float :=
  and_then (float_of_int n) (fun f => inr (float_mul f x)).

(** [x / n] with [x : float] and [n : int]. *)
Definition float_div_int (x : float) (n : Z) : result float :=
  and_then (float_of_int n) (fun f => inr (float_div x f)).

(** ** The builtins [min] and [max] on two arguments

    Both keep the first argument unless the second compares strictly
    better ([b < a] for [min], [b > a] for [max]). *)
Definition min_float (a b : float) : float := if float_lt b a then b else a.
Definition max_float (a b : float) : float := if float_lt a b then b else a.
Definition max_int (a b : Z) : Z := if a <? b then b else a.

(** ** [f"{x:.2f}"]: a float in fixed notation with two decimals

    The conversion is correctly rounded: the exact value of the float is
    rounded to the nearest hundredth, a tie to the even one. *)

Definition digit (n : Z) : ascii := ascii_of_N (48 + Z.to_N n).

Fixpoint digits_from (fuel : nat) (n : Z) (acc : string) : string :=
  match fuel with
  | O => acc
  | S fuel' =>
      let acc' := String (digit (n mod 10)) acc in
      if n <? 10 then acc' else digits_from fuel' (n / 10) acc'
  end.

(** [str(n)] for an [int] that is not negative: a number has no more
    decimal digits than binary ones. *)
Definition decimal (n : Z) : string := digits_from (S (Z.to_nat (Z.log2 n))) n "".

(** The integer nearest to [n / d], a tie going to the even one. *)
Definition nearest_even (n d : Z) : Z :=
  let q := n / d in
  match 2 * (n mod d) ?= d with
  | Lt => q
  | Eq => if Z.even q then q else q + 1
  | Gt => q + 1
  end.

(** The hundredths in the value [m * 2^e], once rounded. *)
Definition hundredths (m : positive) (e : Z) : Z :=
  match e with
  | Zneg k => nearest_even (Zpos m * 100) (Z.pow_pos 2 k)
  | _ => Zpos m * 2 ^ e * 100
  end.

Definition format_2f (x : float) : string :=
  match x with
  | S754_nan => "nan"
  | S754_infinity s => if s then "-inf" else "inf"
  | S754_zero s => if s then "-0.00" else "0.00"
  | S754_finite s m e =>
      let h := hundredths m e in
      (if s then "-" else "") +:+ decimal (h / 100) +:+ "."
      +:+ String (digit (h mod 100 / 10)) (String (digit (h mod 10)) "")
  end.

(** ** [str.split()] with no argument: the runs of non-blank characters *)

Definition is_space (c : ascii) : bool :=
  let n := nat_of_ascii c in
  (Nat.eqb n 32 || (Nat.leb 9 n && Nat.leb n 13) || (Nat.leb 28 n && Nat.leb n 31))%bool.

Fixpoint split_from (s : string) (cur : option string) : list string :=
  match s with
  | EmptyString => match cur with Some w => [w] | None => [] end
  | String c s' =>
      if is_space c then
        match cur with
        | Some w => w :: split_from s' None
        | None => split_from s' None
        end
      else split_from s' (Some (default "" cur +:+ String c ""))
  end.

Definition split (s : string) : list string := split_from s None.

(** ** List indexing [l[i]] and the slice [l[1:]] *)

Definition index {A} (l : list A) (i : nat) : result A :=
  match l !! i with
  | Some x => inr x
  | None => inl (IndexError "list index out of range")
  end.

Definition slice_from_1 {A} (l : list A) : list A := drop 1 l.

(** ** [dict]

    A [dict] whose order is observed is the list of its items in insertion
    order; [d[k]] raises [KeyError] on a missing key. *)
Fixpoint getitem {V} (d : list (string * V)) (k : string) : result V :=
  match d with
  | [] => inl (KeyError k)
  | (k', v) :: d' => if String.eqb k' k then inr v else getitem d' k
  end.

Definition keys {V} (d : list (string * V)) : list string := map fst d.

(** A [dict] only read by key is a finite map. *)
Definition getitem_map {V} (d : gmap string V) (k : string) : result V :=
  match d !! k with
  | Some v => inr v
  | None => inl (KeyError k)
  end.

End Py.

Notation "'let?' x ':=' r 'in' k" := (Py.and_then r (fun x => k))
  (at level 10, x name, r at level 100, k at level 200).

(* ================================================================== *)
(** * Pillow *)
(* ================================================================== *)

Module PIL.

Abbreviation bytes := (list Byte.byte) (only parsing).

(** One frame of an image file: the size and the mode its header gives, and
    what reading its pixel data yields: the pixels, or the error raised
    when the data cannot be read to the end. *)
Record Frame : Type := {
  fr_size : Z * Z;
  fr_mode : string;
  fr_data : Py.result bytes
}.

(** An image object, positioned on one of its frames: [im.size] and
    [im.mode] are those of that frame and [im_data] is what [im.load()]
    gives for it.  [Image.open] reads the header only, so the error of a
    file whose pixel data is cut short waits in [im_data] until a method
    loads the pixels.  [im_before] and [im_after] are the frames of the file
    on either side of the current one; an image made in memory has none. *)
Record Image : Type := {
  im_size : Z * Z;
  im_mode : string;
  im_data : Py.result bytes;
  im_before : list Frame;
  im_after : list Frame
}.

Definition width (im : Image) : Z := fst (im_size im).
Definition height (im : Image) : Z := snd (im_size im).

(** No empty side. *)
Definition positive_size (im : Image) : Prop := 1 <= width im /\ 1 <= height im.

(** The frame an image is positioned on, and all its frames in file order
    ([im.n_frames] is their number). *)
Definition current (im : Image) : Frame :=
  {| fr_size := im_size im; fr_mode := im_mode im; fr_data := im_data im |}.

Definition frames (im : Image) : list Frame := im_before im ++ current im :: im_after im.

(** The image of frames [fs] once [im.seek(k)] has positioned it on [f],
    its frame number [k]. *)
Definition at_frame (fs : list Frame) (k : nat) (f : Frame) : Image :=
  {| im_size := fr_size f; im_mode := fr_mode f; im_data := fr_data f;
     im_before := take k fs; im_after := drop (S k) fs |}.

(** A new image in memory: one frame, its pixels loaded. *)
Definition in_memory (size : Z * Z) (mode : string) (data : bytes) : Image :=
  {| im_size := size; im_mode := mode; im_data := inr data;
     im_before := []; im_after := [] |}.

Inductive Resampling := NEAREST | BOX | BILINEAR | HAMMING | BICUBIC | LANCZOS.

(** The codecs and kernels below Pillow's Python layer. *)
Class Codec : Type := {
  (** the plugin behind [Image.open(fp)]: it reads the header and gives the
      image object positioned on the first frame, pixels not yet read *)
  decode : bytes -> Py.result Image;
  (** the pixel conversion behind [im.convert(mode)], on loaded pixels *)
  convert_data : Image -> string -> Py.result bytes;
  (** the resampling kernel behind [im.resize(size, filter)], on loaded
      pixels *)
  resample : Image -> Z * Z -> Resampling -> bytes;
  (** the encoder of one page's image stream in [PdfImagePlugin], on the
      image positioned on the frame of the page *)
  encode_page : Image -> Z -> Py.result bytes
}.

(** [Image.open(fp)].  The plugin's [SyntaxError], [IndexError] or
    [KeyError] means the file is not its own, and [ImageFile.__init__] turns
    down a header with an empty side; [Image.open] then reports that it
    cannot identify the file, naming it by [repr(fp)].  Any other error of
    the plugin passes through.  No pixel is read. *)
Definition open `{Codec} (fp : bytes) (fp_repr : string) : Py.result Image :=
  let unidentified := Py.OSError ("cannot identify image file " +:+ fp_repr) in
  match decode fp with
  | inl (Py.SyntaxError _) | inl (Py.IndexError _) | inl (Py.KeyError _) =>
      inl unidentified
  | inl e => inl e
  | inr im =>
      if ((width im <? 1) || (height im <? 1))%bool then inl unidentified else inr im
  end.

(** [im.convert(mode)]: the pixels are loaded, then converted; the result
    is a new image in memory, of the same size, in [mode]. *)
Definition convert `{Codec} (im : Image) (mode : string) : Py.result Image :=
  let? _ := im_data im in
  let? d := convert_data im mode in
  inr (in_memory (im_size im) mode d).

(** [im.resize(size, filter)]: the pixels are loaded, then resampled; the
    result is a new image in memory of the requested size.  The kernel
    refuses a size with a dimension below one. *)
Definition resize `{Codec} (im : Image) (size : Z * Z) (filter : Resampling)
  : Py.result Image :=
  let? _ := im_data im in
  if ((fst size <? 1) || (snd size <? 1))%bool
  then inl (Py.ValueError "height and width must be > 0")
  else inr (in_memory size (im_mode im) (resample im size filter)).

(** ** The PDF writer

    The buffer [io.BytesIO] receives the objects of the file as they are
    written: the header, one page object per frame, then the
    cross-reference table and trailer. *)
Inductive pdf_object : Type :=
| PdfHeader
| PdfPage (page_size : Z * Z) (resolution : Z) (stream : bytes)
| PdfTrailer (count : nat).

Abbreviation BytesIO := (list pdf_object) (only parsing).

(** The pages of one image under [save_all=True]: [ImageSequence.Iterator]
    seeks frame 0, 1, ... until the file has no more, and every frame gets a
    page of its own size once its pixels are loaded and encoded.  [todo] are
    the frames from number [k] on; the image returned is the object as the
    loop leaves it: on the last frame, or on the frame that failed. *)
Fixpoint write_frames `{Codec} (fs : list Frame) (k : nat) (todo : list Frame)
    (im : Image) (resolution : Z) (fp : BytesIO) : Py.result unit * BytesIO * Image :=
  match todo with
  | [] => (inr tt, fp, im)
  | f :: rest =>
      let im_k := at_frame fs k f in
      match (let? _ := fr_data f in encode_page im_k resolution) with
      | inl e => (inl e, fp, im_k)
      | inr stream =>
          write_frames fs (S k) rest im_k resolution
            (fp ++ [PdfPage (fr_size f) resolution stream])
      end
  end.

(** The pages of a list of images, in list order.  The images returned are
    those the loop reached, as it leaves them. *)
Fixpoint write_pages `{Codec} (ims : list Image) (resolution : Z) (fp : BytesIO)
  : Py.result unit * BytesIO * list Image :=
  match ims with
  | [] => (inr tt, fp, [])
  | im :: rest =>
      match write_frames (frames im) 0 (frames im) im resolution fp with
      | (inl e, fp', im') => (inl e, fp', [im'])
      | (inr _, fp', im') =>
          let '(r, fp'', rest') := write_pages rest resolution fp' in
          (r, fp'', im' :: rest')
      end
  end.

(** The pages a document of these images has: one per frame. *)
Definition n_pages (ims : list Image) : nat := length (concat (map frames ims)).

(** [im.save(fp, format="PDF", save_all=True, append_images=..., resolution=...)].
    [Image.save] first loads the pixels of [im]; the plugin then writes the
    header, the pages of [im] and of the appended images, and the trailer.
    What was written before an exception stays in [fp]. *)
Definition save `{Codec} (im : Image) (fp : BytesIO) (append_images : list Image)
    (resolution : Z) : Py.result unit * BytesIO * list Image :=
  let ims := im :: append_images in
  match im_data im with
  | inl e => (inl e, fp, [])
  | inr _ =>
      match write_pages ims resolution (fp ++ [PdfHeader]) with
      | (inl e, fp', seeked) => (inl e, fp', seeked)
      | (inr _, fp', seeked) => (inr tt, fp' ++ [PdfTrailer (n_pages ims)], seeked)
      end
  end.

(** The pages of a buffer, in file order. *)
Definition pages (fp : BytesIO) : list (Z * Z * Z) :=
  omap (fun o => match o with
                 | PdfPage sz r _ => Some (sz, r)
                 | _ => None
                 end) fp.

(** A complete file: header, pages, trailer counting the pages. *)
Definition complete (fp : BytesIO) : Prop :=
  exists body, fp = PdfHeader :: body ++ [PdfTrailer (length body)]
               /\ Forall (fun o => exists sz r s, o = PdfPage sz r s) body.

End PIL.

(* ================================================================== *)
(** * Streamlit *)
(* ================================================================== *)

Module St.

(** An uploaded file: [uploaded_file.name], [uploaded_file.size], the byte
    stream [Image.open] reads and [repr(uploaded_file)]. *)
Record UploadedFile : Type := {
  name : string;
  size : Z;
  contents : PIL.bytes;
  repr : string
}.

(** What the browser session feeds the widgets of one run of the script:
    the files in the uploader, the position picked in the radio group (if
    the user touched it) and whether the button was pressed. *)
Record Session : Type := {
  uploaded_files : list UploadedFile;
  radio_picked : option nat;
  button_pressed : bool
}.

(** The elements a run renders, in call order. *)
Inductive widget : Type :=
| title (body : string)
| write (body : string)
| caption (body : string)
| error (body : string)
| info (body : string)
| success (body : string)
| download_button (label : string) (data : PIL.BytesIO) (file_name mime : string).

(** [st.radio(label, options, index)]: the picked option, the one at
    [index] while the group is untouched. *)
Definition radio (options : list string) (index : nat) (picked : option nat)
  : Py.result string :=
  match picked ≫= (options !!.) with
  | Some o => inr o
  | None => Py.index options index
  end.

(** [st.button(label, disabled)]: a disabled button is never pressed. *)
Definition button (disabled pressed : bool) : bool := (pressed && negb disabled)%bool.

End St.

(* ================================================================== *)
(** * The script *)
(* ================================================================== *)

Module App.

(** One entry of the registry: [{"scale": ..., "dpi": ...}]. *)
Record Preset : Type := { scale : Py.float; dpi : Z }.

Abbreviation loc := positive (only parsing).

(** The world a run acts on: image objects by reference, the module-level
    name [QUALITY_PRESETS] (a [dict], kept in insertion order) and the
    rendered page. *)
Record World : Type := {
  heap : gmap loc PIL.Image;
  registry : list (string * Preset);
  screen : list St.widget
}.

Definition M (A : Type) : Type := World -> Py.result A * World.

Definition ret {A} (a : A) : M A := fun w => (inr a, w).

Definition bind {A B} (m : M A) (k : A -> M B) : M B :=
  fun w => match m w with
           | (inl e, w') => (inl e, w')
           | (inr a, w') => k a w'
           end.

Definition lift {A} (r : Py.result A) : M A := fun w => (r, w).

(** [try: body / except Exception as e: handler]: the effects of [body]
    up to the exception stay. *)
Definition try_except {A} (body : M A) (handler : Py.exn -> M A) : M A :=
  fun w => match body w with
           | (inl e, w') => handler e w'
           | (inr a, w') => (inr a, w')
           end.

Definition render (x : St.widget) : M unit :=
  fun w => (inr tt, {| heap := heap w; registry := registry w;
                       screen := screen w ++ [x] |}).

(** A new image object: a reference no object has yet. *)
Definition new (im : PIL.Image) : M loc :=
  fun w => let l := fresh (dom (heap w)) in
           (inr l, {| heap := <[l := im]> (heap w); registry := registry w;
                      screen := screen w |}).

Definition get (l : loc) : M PIL.Image :=
  fun w => match heap w !! l with
           | Some im => (inr im, w)
           | None => (inl (Py.SystemError "reference to no object"), w)
           end.

(** An image object that a method moved to another frame. *)
Definition put (l : loc) (im : PIL.Image) : M unit :=
  fun w => (inr tt, {| heap := <[l := im]> (heap w); registry := registry w;
                       screen := screen w |}).

Definition assign_QUALITY_PRESETS (d : list (string * Preset)) : M unit :=
  fun w => (inr tt, {| heap := heap w; registry := d; screen := screen w |}).

Definition read_QUALITY_PRESETS : M (list (string * Preset)) :=
  fun w => (inr (registry w), w).

End App.

Notation "'let!' x ':=' m 'in' k" := (App.bind m (fun x => k))
  (at level 10, x name, m at level 100, k at level 200).
Notation "m ;;; k" := (App.bind m (fun _ => k))
  (at level 100, k at level 200, right associativity).

Module Script.
Import App.

Section WithCodec.
Context `{PIL.Codec}.

(** ** Pillow's methods on image objects *)

Definition Image_open (fp : St.UploadedFile) : M loc :=
  let! im := lift (PIL.open (St.contents fp) (St.repr fp)) in
  new im.

Definition Image_convert (img : loc) (mode : string) : M loc :=
  let! im := get img in
  let! im' := lift (PIL.convert im mode) in
  new im'.

Definition Image_resize (img : loc) (size : Z * Z) (filter : PIL.Resampling) : M loc :=
  let! im := get img in
  let! im' := lift (PIL.resize im size filter) in
  new im'.

Fixpoint get_all (imgs : list loc) : M (list PIL.Image) :=
  match imgs with
  | [] => ret []
  | l :: rest =>
      let! im := get l in
      let! ims := get_all rest in
      ret (im :: ims)
  end.

Fixpoint put_all (imgs : list loc) (ims : list PIL.Image) : M unit :=
  match imgs, ims with
  | l :: imgs', im :: ims' => put l im ;;; put_all imgs' ims'
  | _, _ => ret tt
  end.

(** [img.save(fp, ...)]; the value is the buffer once the call has
    returned.  The objects [save] went through stay on the frame it left
    them on, also when it raises. *)
Definition Image_save (img : loc) (fp : PIL.BytesIO) (append_images : list loc)
    (resolution : Z) : M PIL.BytesIO :=
  let! im := get img in
  let! ims := get_all append_images in
  let '(r, fp', seeked) := PIL.save im fp ims resolution in
  put_all (img :: append_images) seeked ;;;
  let! _ := lift r in
  ret fp'.

(** ** A [for] loop over a list, with the variables it updates *)

Fixpoint for_each {A S} (xs : list A) (body : S -> A -> M S) (vars : S) : M S :=
  match xs with
  | [] => ret vars
  | x :: xs' =>
      let! vars' := body vars x in
      for_each xs' body vars'
  end.

(** ** Lines 24-37: load images and calculate total size *)

Definition load_one (vars : list loc * Z) (uploaded_file : St.UploadedFile)
  : M (list loc * Z) :=
  let '(images, total_image_size_bytes) := vars in
  try_except
    (let! img := Image_open uploaded_file in
     let! im := get img in
     let! img := (if negb (String.eqb (PIL.im_mode im) "RGB")
                  then Image_convert img "RGB"
                  else ret img) in
     ret (images ++ [img], total_image_size_bytes + St.size uploaded_file))
    (fun e =>
       render (St.error ("Error loading image " +:+ St.name uploaded_file
                         +:+ ": " +:+ Py.str e)) ;;;
       ret (images, total_image_size_bytes)).

Definition load_images (uploaded_files : list St.UploadedFile) : M (list loc * Z) :=
  match uploaded_files with
  | [] => ret ([], 0)
  | _ => for_each uploaded_files load_one ([], 0)
  end.

(** ** Lines 42-60: estimation helpers *)

Definition QUALITY_PRESETS : list (string * Preset) :=
  [ ("High (300 DPI)", {| scale := Py.lit_1_0; dpi := 300 |});
    ("Medium (150 DPI)", {| scale := Py.lit_0_5; dpi := 150 |});
    ("Low (72 DPI)", {| scale := Py.lit_0_25; dpi := 72 |}) ].

Definition estimate_pdf_size (total_bytes : Z) (scale : Py.float) : Py.result Py.float :=
  Py.int_mul_float total_bytes
    (Py.max_float (Py.min_float scale Py.lit_1_0) Py.lit_0_05).

Fixpoint estimates_from (items : list (string * Preset)) (total : Z)
    (acc : gmap string Py.float) : Py.result (gmap string Py.float) :=
  match items with
  | [] => inr acc
  | (label, preset) :: rest =>
      let? e := estimate_pdf_size total (scale preset) in
      estimates_from rest total (<[label := e]> acc)
  end.

(** ** Lines 65-88: quality and compression *)

Definition show_estimate (estimates : gmap string Py.float) (label : string) : M unit :=
  render (St.caption label) ;;;
  let! bytes := lift (Py.getitem_map estimates label) in
  let! mb := lift (Py.float_div_int bytes (1024 * 1024)) in
  render (St.write ("~ **" +:+ Py.format_2f mb +:+ " MB**")).

(** ** Lines 97-130: convert to PDF *)

Definition resample_one (scale : Py.float) (processed : list loc) (im : loc)
  : M (list loc) :=
  if Py.float_lt scale Py.lit_1_0 then
    let! image := get im in
    let '(w, h) := PIL.im_size image in
    let! new_w := lift (let? x := Py.int_mul_float w scale in Py.int_of_float x) in
    let! new_h := lift (let? y := Py.int_mul_float h scale in Py.int_of_float y) in
    let new_size := (Py.max_int 1 new_w, Py.max_int 1 new_h) in
    let! im_resized := Image_resize im new_size PIL.LANCZOS in
    ret (processed ++ [im_resized])
  else
    ret (processed ++ [im]).

Definition resample_all (images : list loc) (scale : Py.float) : M (list loc) :=
  for_each images (resample_one scale) [].

Definition assemble (processed : list loc) (dpi : Z) : M PIL.BytesIO :=
  let pdf_bytes : PIL.BytesIO := [] in
  let! first := lift (Py.index processed 0) in
  Image_save first pdf_bytes (Py.slice_from_1 processed) dpi.

Definition convert_to_pdf (images : list loc) (scale : Py.float) (dpi : Z)
    (quality_label : string) : M unit :=
  try_except
    (let! processed := resample_all images scale in
     let! pdf_bytes := assemble processed dpi in
     render (St.success "✅ Conversion successful!") ;;;
     render (St.download_button ("📥 Download PDF (" +:+ quality_label +:+ " Quality)")
               pdf_bytes "converted_images.pdf" "application/pdf"))
    (fun e => render (St.error ("Conversion failed: " +:+ Py.str e))).

(** ** The whole script, top to bottom *)

Definition main (session : St.Session) : M unit :=
  render (St.title "🖼️ Image to PDF Converter") ;;;
  render (St.write "Upload images in any format and convert them into a single PDF with your preferred quality.") ;;;
  let! loaded := load_images (St.uploaded_files session) in
  let '(images, total_image_size_bytes) := loaded in
  assign_QUALITY_PRESETS QUALITY_PRESETS ;;;
  let! presets := read_QUALITY_PRESETS in
  let! estimates := lift (estimates_from presets total_image_size_bytes ∅) in
  show_estimate estimates "High (300 DPI)" ;;;
  show_estimate estimates "Medium (150 DPI)" ;;;
  show_estimate estimates "Low (72 DPI)" ;;;
  let! presets := read_QUALITY_PRESETS in
  let! quality_choice := lift (St.radio (Py.keys presets) 0 (St.radio_picked session)) in
  let! presets := read_QUALITY_PRESETS in
  let! selected := lift (Py.getitem presets quality_choice) in
  let scale := scale selected in
  let dpi := dpi selected in
  let! quality_label := lift (Py.index (Py.split quality_choice) 0) in
  let disabled := bool_decide (images = []) in
  (if disabled
   then render (St.info "Upload at least one image to enable conversion.")
   else ret tt) ;;;
  if St.button disabled (St.button_pressed session)
  then convert_to_pdf images scale dpi quality_label
  else ret tt.

End WithCodec.

(** A run starts with no image object, no registry and an empty page. *)
Definition initial : World := {| heap := ∅; registry := []; screen := [] |}.

End Script.

(* ================================================================== *)
(** * A small codec, to run the script on concrete inputs *)
(* ================================================================== *)

Module Toy.

(** A file is a sequence of frames.  A frame is a mode byte ([x00] for RGB,
    anything else for greyscale), a width byte, a height byte and one byte
    of pixel data, which the last frame may leave out.  The pixel byte [xfe]
    marks data cut short: reading it fails.  A file shorter than one header
    is no image. *)
Definition frame (m w h : Byte.byte) (d : PIL.bytes) : PIL.Frame :=
  {| PIL.fr_size := (Z.of_N (Byte.to_N w), Z.of_N (Byte.to_N h));
     PIL.fr_mode := if Byte.eqb m Byte.x00 then "RGB" else "L";
     PIL.fr_data := match d with
                    | b :: _ => if Byte.eqb b Byte.xfe
                                then inl (Py.OSError "image file is truncated")
                                else inr d
                    | [] => inr []
                    end |}.

Fixpoint frames_of (b : PIL.bytes) : list PIL.Frame :=
  match b with
  | m :: w :: h :: [] => [frame m w h []]
  | m :: w :: h :: d :: rest => frame m w h [d] :: frames_of rest
  | _ => []
  end.

Definition decode (b : PIL.bytes) : Py.result PIL.Image :=
  match frames_of b with
  | [] => inl (Py.SyntaxError "not identified by this driver")
  | f :: fs => inr (PIL.at_frame (f :: fs) 0 f)
  end.

(** The kernels copy the pixel buffer. *)
Definition pixels (im : PIL.Image) : PIL.bytes :=
  match PIL.im_data im with
  | inr d => d
  | inl _ => []
  end.

(** The page encoder refuses a pixel buffer that starts with [xff]. *)
Definition encode_page (im : PIL.Image) (resolution : Z) : Py.result PIL.bytes :=
  match pixels im with
  | b :: _ => if Byte.eqb b Byte.xff
              then inl (Py.OSError "encoder error")
              else inr (pixels im)
  | [] => inr []
  end.

#[export] Instance codec : PIL.Codec := {|
  PIL.decode := decode;
  PIL.convert_data := fun im _ => inr (pixels im);
  PIL.resample := fun im _ _ => pixels im;
  PIL.encode_page := encode_page
|}.

(** An upload of the given bytes. *)
Definition file (name : string) (contents : PIL.bytes) : St.UploadedFile :=
  {| St.name := name; St.size := Z.of_nat (length contents); St.contents := contents;
     St.repr := "UploadedFile(name='" +:+ name +:+ "')" |}.

Definition rgb (w h : Byte.byte) (name : string) : St.UploadedFile :=
  file name [Byte.x00; w; h].

Definition grey (w h : Byte.byte) (name : string) : St.UploadedFile :=
  file name [Byte.x01; w; h].

(** Two bytes: not even a header. *)
Definition corrupt (name : string) : St.UploadedFile :=
  file name [Byte.x00; Byte.x07].

(** An RGB file whose pixels the page encoder refuses. *)
Definition poisoned (w h : Byte.byte) (name : string) : St.UploadedFile :=
  file name [Byte.x00; w; h; Byte.xff].

(** An RGB file with its header intact and its pixel data cut short. *)
Definition truncated (w h : Byte.byte) (name : string) : St.UploadedFile :=
  file name [Byte.x00; w; h; Byte.xfe].

(** An RGB file of three frames, as a multi-page TIFF. *)
Definition three_pages (w h : Byte.byte) (name : string) : St.UploadedFile :=
  file name [Byte.x00; w; h; Byte.x00; Byte.x00; h; w; Byte.x00; Byte.x00; w; h].

Definition bitmap (w h : Z) : PIL.Image := PIL.in_memory (w, h) "RGB" [].

(** An opened RGB file of several frames, each with an empty pixel buffer,
    positioned on the first. *)
Definition stack (first : Z * Z) (more : list (Z * Z)) : PIL.Image :=
  {| PIL.im_size := first; PIL.im_mode := "RGB"; PIL.im_data := inr [];
     PIL.im_before := [];
     PIL.im_after := map (fun sz => {| PIL.fr_size := sz; PIL.fr_mode := "RGB";
                                       PIL.fr_data := inr [] |}) more |}.

(** A world whose heap holds the given bitmaps at references 1, 2, ... *)
Definition world (ims : list PIL.Image) : App.World :=
  {| App.heap := list_to_map (zip (map Pos.of_nat (seq 1 (length ims))) ims);
     App.registry := []; App.screen := [] |}.

End Toy.

(* ================================================================== *)
(** * The specification's own formulas *)
(* ================================================================== *)

Module Spec.

(** [clamp(x, lo, hi)] as the specification writes it. *)
Definition clamp (x lo hi : Py.float) : Py.float :=
  if Py.float_lt x lo then lo
  else if Py.float_lt hi x then hi
  else x.

(** [round(x)] to the nearest integer, ties to the even one (Python's
    [round] on a float). *)
Definition round (x : Py.float) : Py.result Z :=
  match x with
  | S754_zero _ => inr 0
  | S754_finite s m e =>
      match e with
      | Zneg k =>
          let d := Z.pow_pos 2 k in
          let q := Zpos m / d in
          let r := Zpos m mod d in
          inr (cond_Zopp s
                 match 2 * r ?= d with
                 | Lt => q
                 | Gt => q + 1
                 | Eq => if Z.even q then q else q + 1
                 end)
      | _ => inr (cond_Zopp s (Z.shiftl (Zpos m) e))
      end
  | S754_infinity _ => inl (Py.OverflowError "cannot convert float infinity to integer")
  | S754_nan => inl (Py.ValueError "cannot convert float NaN to integer")
  end.

(** Truncation towards zero: the integer part of [x]. *)
Definition truncate (x : Py.float) : Py.result Z :=
  match x with
  | S754_zero _ => inr 0
  | S754_finite s m e =>
      match e with
      | Zneg k => inr (Z.quot (cond_Zopp s (Zpos m)) (Z.pow_pos 2 k))
      | _ => inr (cond_Zopp s (Zpos m) * 2 ^ e)
      end
  | S754_infinity _ => inl (Py.OverflowError "cannot convert float infinity to integer")
  | S754_nan => inl (Py.ValueError "cannot convert float NaN to integer")
  end.

(** The dimension with truncation in place of rounding:
    [max(1, trunc(original_dimension * scale))]. *)
Definition truncated_dimension (original_dimension : Z) (scale : Py.float)
  : Py.result Z :=
  let? x := Py.int_mul_float original_dimension scale in
  let? t := truncate x in
  inr (Z.max 1 t).

(** The resampler's dimension as the specification writes it:
    [max(1, round(original_dimension * scale))]. *)
Definition new_dimension (original_dimension : Z) (scale : Py.float) : Py.result Z :=
  let? x := Py.int_mul_float original_dimension scale in
  let? r := round x in
  inr (Z.max 1 r).

End Spec.

(* ================================================================== *)
(** * What the proofs speak of *)
(* ================================================================== *)

(** ** binary64 rounding, as integer arithmetic *)

Section Binary64.
Import Py.

(** A float that is [+0.0], positive and finite, or [+inf]. *)
Definition plus_signed (x : float) : Prop :=
  match x with
  | S754_zero false | S754_finite false _ _ | S754_infinity false => True
  | _ => False
  end.

(** The least exponent of the format. *)
Definition emin : Z := SpecFloat.emin prec emax.

(** How far [m * 2^e] is shifted to fit the format. *)
Definition shift_amount (m e : Z) : Z := Z.max 0 (fexp prec emax (Zdigits2 m + e) - e).

(** Round to nearest, ties to even, of [m / 2^k]. *)
Definition round_shift (m k : Z) : Z :=
  let q := m / 2 ^ k in
  match 2 * (m mod 2 ^ k) ?= 2 ^ k with
  | Lt => q
  | Eq => if Z.even q then q else q + 1
  | Gt => q + 1
  end.

(** The mantissa and exponent [binary_round_aux] ends with on an exact
    input: round to the format, then renormalise. *)
Definition rounded (m e : Z) : Z * Z :=
  let k := shift_amount m e in
  let m1 := round_shift m k in
  let e1 := e + k in
  let k2 := shift_amount m1 e1 in
  (m1 / 2 ^ k2, e1 + k2).

(** The float a signed mantissa and exponent stand for. *)
Definition float_of (sx : bool) (me : Z * Z) : spec_float :=
  match fst me with
  | Z0 => S754_zero sx
  | Zpos p => if snd me <=? emax - prec then S754_finite sx p (snd me) else S754_infinity sx
  | Zneg _ => S754_nan
  end.

(** After [k] shifts of [m]: the quotient, the bit just shifted out and
    whether anything below it was set. *)
Definition shifted (k : Z) (m : Z) (mrs : shr_record) : Prop :=
  0 <= shr_m mrs /\
  exists t, 0 <= t < 2 ^ k
            /\ 2 * m = (2 * shr_m mrs + Z.b2z (shr_r mrs)) * 2 ^ k + t
            /\ shr_s mrs = negb (t =? 0).

(** [ulps m e] is [m * 2^e] counted in units of [2^-bias]; every exponent
    the script can meet is above [-bias]. *)
Definition bias : Z := 2200.

Definition ulps (m e : Z) : Z := m * 2 ^ (e + bias).

(** The float [2^-j], for [j] small enough to be a normal number: 1.0,
    0.5 and 0.25 are [pow2_neg 0], [pow2_neg 1] and [pow2_neg 2]. *)
Definition pow2_neg (j : Z) : float := S754_finite false 4503599627370496 (- 52 - j).

End Binary64.

(** ** Worlds *)

Section Worlds.
Import App.

(** What a step may do to the world: objects are only added to the heap,
    the registry is left alone, the page only grows. *)
Definition evolves (w w' : World) : Prop :=
  heap w ⊆ heap w' /\ registry w' = registry w /\ screen w `prefix_of` screen w'.

(** A computation every run of which only [evolves] the world. *)
Definition tame {A} (m : M A) : Prop := forall w, evolves w (snd (m w)).

(** What every statement keeps, also [save], which moves image objects to
    another frame: the registry is left alone and the page only grows. *)
Definition advances (w w' : World) : Prop :=
  registry w' = registry w /\ screen w `prefix_of` screen w'.

Definition steady {A} (m : M A) : Prop := forall w, advances w (snd (m w)).

(** A computation that never raises. *)
Definition unfailing {A} (m : M A) : Prop := forall w, exists a, fst (m w) = inr a.

(** The world after a new object. *)
Definition alloc (w : World) (im : PIL.Image) : World :=
  {| heap := <[fresh (dom (heap w)) := im]> (heap w);
     registry := registry w; screen := screen w |}.

(** The world after one more widget. *)
Definition rendered (w : World) (x : St.widget) : World :=
  {| heap := heap w; registry := registry w; screen := screen w ++ [x] |}.

End Worlds.

(** ** The steps of the script, on values *)

Section Views.
Import App Script.
Context `{PIL.Codec}.

(** What the body of the [try] computes for one file, on values: open,
    then convert unless the mode is already RGB.  Only the conversion reads
    pixels. *)
Definition normalised (uploaded_file : St.UploadedFile) : Py.result PIL.Image :=
  let? im := PIL.open (St.contents uploaded_file) (St.repr uploaded_file) in
  if negb (String.eqb (PIL.im_mode im) "RGB") then PIL.convert im "RGB" else inr im.

(** The image objects of the files that load, in upload order. *)
Definition decoded (files : list St.UploadedFile) : list PIL.Image :=
  omap (fun f => match normalised f with inr im => Some im | inl _ => None end) files.

(** The diagnostics of the files that do not, in upload order. *)
Definition diagnostics (files : list St.UploadedFile) : list St.widget :=
  omap (fun f => match normalised f with
                 | inl e => Some (St.error ("Error loading image " +:+ St.name f
                                            +:+ ": " +:+ Py.str e))
                 | inr _ => None
                 end) files.

(** The bytes of the files that load. *)
Definition loaded_bytes (files : list St.UploadedFile) : Z :=
  foldr (fun f n => match normalised f with inr _ => St.size f + n | inl _ => n end)
        0 files.

(** The references [refs] point, in order, at the bitmaps [ims]. *)
Definition holds (w : World) (refs : list loc) (ims : list PIL.Image) : Prop :=
  Forall2 (fun l im => heap w !! l = Some im) refs ims.

(** [int(d * scale)], the expression line 104 evaluates per axis. *)
Definition scaled (d : Z) (scale : Py.float) : Py.result Z :=
  let? x := Py.int_mul_float d scale in Py.int_of_float x.

(** The bitmap [im.resize(new_size, LANCZOS)] makes of [image], once the
    pixels of [image] are loaded. *)
Definition resized (image : PIL.Image) (new_w new_h : Z) : PIL.Image :=
  let new_size := (Z.max 1 new_w, Z.max 1 new_h) in
  PIL.in_memory new_size (PIL.im_mode image) (PIL.resample image new_size PIL.LANCZOS).

(** The branch [scale < 1.0] of the loop body, on one bitmap and on a list:
    the two products, then the pixels [resize] loads. *)
Definition resample_value (scale : Py.float) (image : PIL.Image) : Py.result PIL.Image :=
  let? new_w := scaled (PIL.width image) scale in
  let? new_h := scaled (PIL.height image) scale in
  let? _ := PIL.im_data image in
  inr (resized image new_w new_h).

Fixpoint resample_values (scale : Py.float) (images : list PIL.Image)
  : Py.result (list PIL.Image) :=
  match images with
  | [] => inr []
  | image :: rest =>
      let? out := resample_value scale image in
      let? outs := resample_values scale rest in
      inr (out :: outs)
  end.

(** The page object [save] writes for a frame whose stream encoded. *)
Definition page_of (resolution : Z) (f : PIL.Frame) (stream : PIL.bytes)
  : PIL.pdf_object :=
  PIL.PdfPage (PIL.fr_size f) resolution stream.

(** The objects between the header and the trailer of a document. *)
Definition is_page (o : PIL.pdf_object) : Prop := exists sz r s, o = PIL.PdfPage sz r s.

(** One frame only, as every image made in memory. *)
Definition single_frame (im : PIL.Image) : Prop :=
  PIL.im_before im = [] /\ PIL.im_after im = [].

(** The frames of a sequence of images, in the order [save] visits them,
    and the size and resolution of the pages it makes of them. *)
Definition all_frames (ims : list PIL.Image) : list PIL.Frame := concat (map PIL.frames ims).

Definition document_pages (resolution : Z) (ims : list PIL.Image) : list (Z * Z * Z) :=
  map (fun f => (PIL.fr_size f, resolution)) (all_frames ims).

(** The page streams of the frames [todo] of one image, numbered from [k]:
    each is loaded, then encoded. *)
Fixpoint encode_frames (fs : list PIL.Frame) (k : nat) (todo : list PIL.Frame)
    (resolution : Z) : Py.result (list PIL.bytes) :=
  match todo with
  | [] => inr []
  | f :: rest =>
      let? _ := PIL.fr_data f in
      let? s := PIL.encode_page (PIL.at_frame fs k f) resolution in
      let? ss := encode_frames fs (S k) rest resolution in
      inr (s :: ss)
  end.

Fixpoint encode_pages (ims : list PIL.Image) (resolution : Z)
  : Py.result (list PIL.bytes) :=
  match ims with
  | [] => inr []
  | im :: rest =>
      let? ss := encode_frames (PIL.frames im) 0 (PIL.frames im) resolution in
      let? more := encode_pages rest resolution in
      inr (ss ++ more)
  end.

(** The page streams of a sequence of images, if [save] gets to the end:
    the pixels of the first image load, then every frame of every image
    loads and encodes. *)
Definition encode_all (ims : list PIL.Image) (resolution : Z)
  : Py.result (list PIL.bytes) :=
  match ims with
  | [] => inr []
  | first :: _ => let? _ := PIL.im_data first in encode_pages ims resolution
  end.

(** The image object as [save] leaves it: [ImageSequence.Iterator] has
    positioned it on each of the frames [todo] in turn, numbered from [k],
    and it stays on the last. *)
Fixpoint positioned (fs : list PIL.Frame) (k : nat) (todo : list PIL.Frame)
    (im : PIL.Image) : PIL.Image :=
  match todo with
  | [] => im
  | f :: rest => positioned fs (S k) rest (PIL.at_frame fs k f)
  end.

Definition on_last_frame (im : PIL.Image) : PIL.Image :=
  positioned (PIL.frames im) 0 (PIL.frames im) im.

(** The world once the objects at [refs] are the images [ims]. *)
Definition moved (w : World) (refs : list loc) (ims : list PIL.Image) : World :=
  {| heap := foldl (fun h item => <[fst item := snd item]> h) (heap w) (zip refs ims);
     registry := registry w; screen := screen w |}.

(** The widgets of a successful conversion. *)
Definition offer (quality_label : string) (fp : PIL.BytesIO) : list St.widget :=
  [ St.success "✅ Conversion successful!";
    St.download_button ("📥 Download PDF (" +:+ quality_label +:+ " Quality)")
      fp "converted_images.pdf" "application/pdf" ].

(** [1024 * 1024] as a float. *)
Definition mebi : Py.float := S754_finite false 4503599627370496 (-32).

(** The text of one estimate: [f"~ **{mb:.2f} MB**"]. *)
Definition megabytes (mb : Py.float) : St.widget :=
  St.write ("~ **" +:+ Py.format_2f mb +:+ " MB**").

(** The page once the three estimates are shown. *)
Definition with_estimates (w : World) (t : Py.float) : World :=
  fold_left (fun w' item =>
               rendered (rendered w' (St.caption (fst item)))
                 (megabytes (Py.float_div (Py.float_mul t (snd item)) mebi)))
    [("High (300 DPI)", Py.lit_1_0); ("Medium (150 DPI)", Py.lit_0_5);
     ("Low (72 DPI)", Py.lit_0_25)] w.

(** Everything [main] does once [QUALITY_PRESETS] is bound. *)
Definition after_presets (session : St.Session) (images : list loc)
    (total_image_size_bytes : Z) : M unit :=
  let! presets := read_QUALITY_PRESETS in
  let! estimates := lift (estimates_from presets total_image_size_bytes ∅) in
  show_estimate estimates "High (300 DPI)" ;;;
  show_estimate estimates "Medium (150 DPI)" ;;;
  show_estimate estimates "Low (72 DPI)" ;;;
  let! presets := read_QUALITY_PRESETS in
  let! quality_choice := lift (St.radio (Py.keys presets) 0 (St.radio_picked session)) in
  let! presets := read_QUALITY_PRESETS in
  let! selected := lift (Py.getitem presets quality_choice) in
  let scale := scale selected in
  let dpi := dpi selected in
  let! quality_label := lift (Py.index (Py.split quality_choice) 0) in
  let disabled := bool_decide (images = []) in
  (if disabled
   then render (St.info "Upload at least one image to enable conversion.")
   else ret tt) ;;;
  if St.button disabled (St.button_pressed session)
  then convert_to_pdf images scale dpi quality_label
  else ret tt.

(** The two headings every run starts with (lines 9-10). *)
Definition headings : list St.widget :=
  [ St.title "🖼️ Image to PDF Converter";
    St.write "Upload images in any format and convert them into a single PDF with your preferred quality." ].

(** The six widgets of the estimate columns (lines 67-75), for a byte total
    that converted to the float [t]. *)
Definition estimate_widgets (t : Py.float) : list St.widget :=
  [ St.caption "High (300 DPI)";
    megabytes (Py.float_div (Py.float_mul t Py.lit_1_0) mebi);
    St.caption "Medium (150 DPI)";
    megabytes (Py.float_div (Py.float_mul t Py.lit_0_5) mebi);
    St.caption "Low (72 DPI)";
    megabytes (Py.float_div (Py.float_mul t Py.lit_0_25) mebi) ].

(** The bitmaps the loop of lines 101-108 leaves in [processed], on values. *)
Definition processed_values (scale : Py.float) (originals : list PIL.Image)
  : Py.result (list PIL.Image) :=
  if Py.float_lt scale Py.lit_1_0 then resample_values scale originals
  else inr originals.

End Views.

(* ================================================================== *)
(** * Facts about binary64 arithmetic *)
(* ================================================================== *)

Module FloatFacts.
Import Py.

(** ** Shifting a mantissa right keeps it non-negative *)

Lemma iter_pos_invariant {A} (P : A -> Prop) (f : A -> A) :
  (forall x, P x -> P (f x)) -> forall p x, P x -> P (SpecFloat.iter_pos f p x).
Proof.
  intros Hf p. induction p as [p IH | p IH | ]; intros x Hx; simpl; auto.
Qed.

Lemma shr_1_nonneg mrs : 0 <= shr_m mrs -> 0 <= shr_m (shr_1 mrs).
Proof.
  destruct mrs as [m r s]. simpl.
  destruct m as [ | [p | p | ] | p]; simpl; lia.
Qed.

Lemma shr_nonneg mrs e n : 0 <= shr_m mrs -> 0 <= shr_m (fst (shr mrs e n)).
Proof.
  intros Hm. destruct n as [ | p | p]; simpl; auto.
  apply iter_pos_invariant; auto using shr_1_nonneg.
Qed.

Lemma shr_record_of_loc_m m l : shr_m (shr_record_of_loc m l) = m.
Proof. destruct l as [ | [ | | ]]; reflexivity. Qed.

Lemma shr_fexp_nonneg m e l :
  0 <= m -> 0 <= shr_m (fst (shr_fexp prec emax m e l)).
Proof.
  intros Hm. unfold shr_fexp. apply shr_nonneg.
  now rewrite shr_record_of_loc_m.
Qed.

Lemma round_nearest_even_nonneg m l : 0 <= m -> 0 <= round_nearest_even m l.
Proof.
  intros Hm. destruct l as [ | [ | | ]]; simpl; try lia.
  destruct (Z.even m); lia.
Qed.

Lemma binary_round_aux_plus m e l :
  0 <= m -> plus_signed (binary_round_aux prec emax false m e l).
Proof.
  intros Hm. unfold binary_round_aux.
  pose proof (shr_fexp_nonneg m e l Hm) as H1.
  destruct (shr_fexp prec emax m e l) as [mrs' e'] eqn:E1. simpl in H1.
  pose proof (shr_fexp_nonneg
                (round_nearest_even (shr_m mrs') (loc_of_shr_record mrs')) e' loc_Exact
                (round_nearest_even_nonneg _ _ H1)) as H2.
  destruct (shr_fexp prec emax _ e' loc_Exact) as [mrs'' e''] eqn:E2. simpl in H2.
  destruct (shr_m mrs'') as [ | p | p]; simpl; auto; try lia.
  destruct (e'' <=? emax - prec); simpl; auto.
Qed.

Lemma binary_round_plus m e : plus_signed (binary_round prec emax false m e).
Proof.
  unfold binary_round.
  destruct (shl_align m e _) as [mz ez].
  apply binary_round_aux_plus. lia.
Qed.

Lemma float_of_int_plus n f : 0 <= n -> float_of_int n = inr f -> plus_signed f.
Proof.
  unfold float_of_int, binary_normalize. intros Hn.
  destruct n as [ | p | p]; try lia.
  - intros [= <-]. exact I.
  - pose proof (binary_round_plus p 0) as Hp.
    destruct (binary_round prec emax false p 0) as [[] | [] | | [] m e];
      simpl in Hp; try contradiction; intros [= <-]; exact I.
Qed.

Lemma float_mul_plus x y : plus_signed x -> plus_signed y ->
  float_mul x y = S754_nan \/ plus_signed (float_mul x y).
Proof.
  destruct x as [[] | [] | | [] mx ex]; simpl; try contradiction;
    destruct y as [[] | [] | | [] my ey]; simpl; try contradiction; auto.
  intros _ _. right. apply binary_round_aux_plus. lia.
Qed.

Lemma plus_signed_ge_zero x : plus_signed x -> float_le float_zero x = true.
Proof. destruct x as [[] | [] | | [] m e]; simpl; try contradiction; reflexivity. Qed.

Lemma plus_signed_eq_self x : plus_signed x -> float_eq x x = true.
Proof.
  destruct x as [[] | [] | | [] m e]; simpl; try contradiction; try reflexivity.
  intros _. unfold float_eq, SFeqb. simpl.
  rewrite Z.compare_refl.
  now rewrite Pos.compare_cont_refl.
Qed.

(** ** Comparisons against the literals *)

Lemma lt_1_0_not_lt_0_05 s :
  float_lt lit_1_0 s = true -> float_lt s lit_0_05 = false.
Proof.
  destruct s as [[] | [] | | [] m e]; try discriminate; try reflexivity.
  unfold float_lt, SFltb, lit_1_0, lit_0_05, SFcompare.
  destruct (Z.compare_spec (-52) e) as [He | He | He]; try discriminate.
  - subst e. reflexivity.
  - intros _.
    destruct (Z.compare_spec e (-57)) as [He' | He' | He'];
      first [lia | reflexivity].
Qed.

(** [s >= 1.0] rules out [s < 1.0]. *)
Lemma ge_1_0_not_lt s : float_ge s lit_1_0 = true -> float_lt s lit_1_0 = false.
Proof.
  destruct s as [[] | [] | | [] m e]; try discriminate; try reflexivity.
  unfold float_ge, float_lt, SFleb, SFltb, lit_1_0, SFcompare.
  destruct (Z.compare_spec (-52) e) as [He | He | He];
    destruct (Z.compare_spec e (-52)) as [He' | He' | He'];
    try lia; try discriminate; try reflexivity.
  pose proof (Pos.compare_cont_antisym 4503599627370496 m Eq) as Ha.
  cbn [CompOpp] in Ha. rewrite <- Ha.
  destruct (Pos.compare_cont Eq 4503599627370496 m); cbn [CompOpp];
    try discriminate; reflexivity.
Qed.

End FloatFacts.

(* ================================================================== *)
(** * The size estimator *)
(* ================================================================== *)

Section Estimator.
Import Py FloatFacts.

(** The guardrails [max(min(scale, 1.0), 0.05)] are the specification's
    [clamp(scale, 0.05, 1.0)], whatever the float. *)
Lemma guardrails_clamp s :
  max_float (min_float s lit_1_0) lit_0_05 = Spec.clamp s lit_0_05 lit_1_0.
Proof.
  unfold max_float, min_float, Spec.clamp.
  destruct (float_lt lit_1_0 s) eqn:Hhi.
  - rewrite (lt_1_0_not_lt_0_05 s Hhi). reflexivity.
  - reflexivity.
Qed.

(** Away from NaN the clamped scale is a positive finite float. *)
Lemma clamp_positive_finite s :
  s <> float_nan -> exists m e, Spec.clamp s lit_0_05 lit_1_0 = S754_finite false m e.
Proof.
  intros Hs. unfold Spec.clamp.
  destruct (float_lt s lit_0_05) eqn:Hlo; [unfold lit_0_05; eauto | ].
  destruct (float_lt lit_1_0 s) eqn:Hhi; [unfold lit_1_0; eauto | ].
  destruct s as [[] | [] | | [] m e].
  - discriminate Hlo.
  - discriminate Hlo.
  - discriminate Hlo.
  - discriminate Hhi.
  - contradiction Hs; reflexivity.
  - discriminate Hlo.
  - eauto.
Qed.

Lemma float_mul_finite_plus f m e :
  plus_signed f -> (forall b, f <> S754_infinity b) ->
  plus_signed (float_mul f (S754_finite false m e)).
Proof.
  intros Hp Hinf.
  destruct f as [[] | [] | | [] mf ef]; try contradiction Hp.
  - exact I.
  - exfalso. now apply (Hinf false).
  - unfold float_mul, SFmul. apply binary_round_aux_plus. lia.
Qed.

Lemma float_of_int_finite n f b : float_of_int n = inr f -> f <> S754_infinity b.
Proof.
  unfold float_of_int.
  destruct (binary_normalize prec emax n 0 false); intros [= <-]; discriminate.
Qed.

End Estimator.

(** C4 (amended).  For every byte count [b >= 0] and every scale [s] other
    than NaN, [estimate_pdf_size b s] is [b * clamp(s, 0.05, 1.0)]: the two
    raise the same [OverflowError] when [b] is too large for a float, and
    otherwise have the same value, which is [>= 0] and equal to itself
    under Python's [==]. *)
Theorem estimate_pdf_size_clamped_product (b : Z) (s : Py.float) :
  0 <= b -> s <> Py.float_nan ->
  Script.estimate_pdf_size b s
    = Py.int_mul_float b (Spec.clamp s Py.lit_0_05 Py.lit_1_0)
  /\ (forall r, Script.estimate_pdf_size b s = inr r ->
        Py.float_le Py.float_zero r = true /\ Py.float_eq r r = true)
  /\ (forall e, Script.estimate_pdf_size b s = inl e -> Py.float_of_int b = inl e).
Proof.
  intros Hb Hs. unfold Script.estimate_pdf_size.
  rewrite guardrails_clamp.
  destruct (clamp_positive_finite s Hs) as (m & e & ->).
  unfold Py.int_mul_float, Py.and_then.
  split; [reflexivity | ].
  destruct (Py.float_of_int b) as [err | f] eqn:Hf; split.
  - intros r [=].
  - intros e' [= <-]. reflexivity.
  - intros r [= <-].
    assert (plus_signed (Py.float_mul f (S754_finite false m e))) as Hp.
    { apply float_mul_finite_plus.
      - eapply FloatFacts.float_of_int_plus; eauto.
      - intros b'. eapply float_of_int_finite; eauto. }
    split; [now apply FloatFacts.plus_signed_ge_zero
           | now apply FloatFacts.plus_signed_eq_self].
  - intros e' [=].
Qed.

(** The theorem at [b = 1000], [s = 0.5]. *)
Lemma estimate_pdf_size_clamped_product_witness :
  Script.estimate_pdf_size 1000 Py.lit_0_5
    = Py.int_mul_float 1000 (Spec.clamp Py.lit_0_5 Py.lit_0_05 Py.lit_1_0)
  /\ (forall r, Script.estimate_pdf_size 1000 Py.lit_0_5 = inr r ->
        Py.float_le Py.float_zero r = true /\ Py.float_eq r r = true)
  /\ (forall e, Script.estimate_pdf_size 1000 Py.lit_0_5 = inl e ->
        Py.float_of_int 1000 = inl e).
Proof.
  apply (estimate_pdf_size_clamped_product 1000 Py.lit_0_5).
  - lia.
  - discriminate.
Defined.

(** C4 as stated fails at NaN: [estimate_pdf_size 1 nan] is NaN, which is
    neither [>= 0] nor [==] to [1 * clamp(nan, 0.05, 1.0)]. *)
Lemma estimate_pdf_size_nan_counterexample :
  exists r r',
    Script.estimate_pdf_size 1 Py.float_nan = inr r
    /\ Py.int_mul_float 1 (Spec.clamp Py.float_nan Py.lit_0_05 Py.lit_1_0) = inr r'
    /\ Py.float_le Py.float_zero r = false
    /\ Py.float_eq r r' = false.
Proof.
  exists Py.float_nan, Py.float_nan. repeat split; reflexivity.
Qed.

(* ================================================================== *)
(** * Reasoning about runs *)
(* ================================================================== *)

Module RunFacts.
Import App.

(** Float arithmetic stays folded while runs are unfolded. *)
#[global] Arguments Py.float_lt : simpl never.
#[global] Arguments Py.float_mul : simpl never.
#[global] Arguments Py.float_div : simpl never.
#[global] Arguments Py.float_of_int : simpl never.
#[global] Arguments Py.int_of_float : simpl never.
#[global] Arguments Py.int_mul_float : simpl never.
#[global] Arguments Py.float_div_int : simpl never.

#[global] Instance evolves_preorder : PreOrder evolves.
Proof.
  split.
  - intros w. repeat split; reflexivity.
  - intros w1 w2 w3 (Hh & Hr & Hs) (Hh' & Hr' & Hs'). repeat split.
    + etransitivity; eauto.
    + congruence.
    + etransitivity; eauto.
Qed.

Lemma evolves_lookup w w' l im :
  evolves w w' -> heap w !! l = Some im -> heap w' !! l = Some im.
Proof. intros (Hh & _) Hl. eapply lookup_weaken; eauto. Qed.

Lemma tame_ret {A} (a : A) : tame (ret a).
Proof. intros w. reflexivity. Qed.

Lemma tame_lift {A} (r : Py.result A) : tame (lift r).
Proof. intros w. reflexivity. Qed.

Lemma tame_bind {A B} (m : M A) (k : A -> M B) :
  tame m -> (forall a, tame (k a)) -> tame (bind m k).
Proof.
  intros Hm Hk w. unfold bind. specialize (Hm w).
  destruct (m w) as [[e | a] w1]; simpl in *; auto.
  etransitivity; [exact Hm | apply Hk].
Qed.

Lemma tame_try_except {A} (body : M A) (handler : Py.exn -> M A) :
  tame body -> (forall e, tame (handler e)) -> tame (try_except body handler).
Proof.
  intros Hm Hk w. unfold try_except. specialize (Hm w).
  destruct (body w) as [[e | a] w1]; simpl in *; auto.
  etransitivity; [exact Hm | apply Hk].
Qed.

Lemma tame_render x : tame (render x).
Proof.
  intros w. repeat split; simpl; try reflexivity.
  now apply prefix_app_r.
Qed.

Lemma fresh_unused (h : gmap positive PIL.Image) : h !! fresh (dom h) = None.
Proof. apply not_elem_of_dom, is_fresh. Qed.

Lemma tame_new im : tame (new im).
Proof.
  intros w. repeat split; simpl; try reflexivity.
  apply insert_subseteq, fresh_unused.
Qed.

Lemma tame_get l : tame (get l).
Proof. intros w. unfold get. destruct (heap w !! l); reflexivity. Qed.

Lemma tame_read : tame read_QUALITY_PRESETS.
Proof. intros w. reflexivity. Qed.

Lemma tame_if {A} (b : bool) (m1 m2 : M A) : tame m1 -> tame m2 -> tame (if b then m1 else m2).
Proof. now destruct b. Qed.

Create HintDb tame discriminated.
#[global] Hint Resolve tame_ret tame_lift tame_render tame_new tame_get tame_read : tame.
#[global] Hint Extern 2 (tame (bind _ _)) => apply tame_bind; [ | intros ?] : tame.
#[global] Hint Extern 2 (tame (try_except _ _)) =>
  apply tame_try_except; [ | intros ?] : tame.
#[global] Hint Extern 2 (tame (if _ then _ else _)) => apply tame_if : tame.
#[global] Hint Extern 3 (tame (let '(_, _) := ?p in _)) => destruct p : tame.

(** ** What [save] keeps too *)

#[global] Instance advances_preorder : PreOrder advances.
Proof.
  split.
  - intros w. split; reflexivity.
  - intros w1 w2 w3 (Hr & Hs) (Hr' & Hs'). split.
    + congruence.
    + etransitivity; eauto.
Qed.

Lemma evolves_advances w w' : evolves w w' -> advances w w'.
Proof. intros (_ & Hr & Hs). now split. Qed.

Lemma tame_steady {A} (m : M A) : tame m -> steady m.
Proof. intros Hm w. apply evolves_advances, Hm. Qed.

Lemma steady_bind {A B} (m : M A) (k : A -> M B) :
  steady m -> (forall a, steady (k a)) -> steady (bind m k).
Proof.
  intros Hm Hk w. unfold bind. specialize (Hm w).
  destruct (m w) as [[e | a] w1]; simpl in *; auto.
  etransitivity; [exact Hm | apply Hk].
Qed.

Lemma steady_try_except {A} (body : M A) (handler : Py.exn -> M A) :
  steady body -> (forall e, steady (handler e)) -> steady (try_except body handler).
Proof.
  intros Hm Hk w. unfold try_except. specialize (Hm w).
  destruct (body w) as [[e | a] w1]; simpl in *; auto.
  etransitivity; [exact Hm | apply Hk].
Qed.

Lemma steady_if {A} (b : bool) (m1 m2 : M A) :
  steady m1 -> steady m2 -> steady (if b then m1 else m2).
Proof. now destruct b. Qed.

Lemma steady_put l im : steady (put l im).
Proof. intros w. split; reflexivity. Qed.

Lemma unfailing_ret {A} (a : A) : unfailing (ret a).
Proof. intros w. now exists a. Qed.

Lemma unfailing_render x : unfailing (render x).
Proof. intros w. now exists tt. Qed.

Lemma unfailing_bind {A B} (m : M A) (k : A -> M B) :
  unfailing m -> (forall a, unfailing (k a)) -> unfailing (bind m k).
Proof.
  intros Hm Hk w. unfold bind. destruct (Hm w) as [a Ha].
  destruct (m w) as [[e | a'] w1]; simpl in *; [discriminate | apply Hk].
Qed.

Lemma unfailing_try_except {A} (body : M A) (handler : Py.exn -> M A) :
  (forall e, unfailing (handler e)) -> unfailing (try_except body handler).
Proof.
  intros Hk w. unfold try_except.
  destruct (body w) as [[e | a] w1]; simpl; [apply Hk | now exists a].
Qed.

(** ** Running a sequence *)

Lemma bind_inr {A B} (m : M A) (k : A -> M B) w a w' :
  m w = (inr a, w') -> bind m k w = k a w'.
Proof. unfold bind. now intros ->. Qed.

Lemma bind_inl {A B} (m : M A) (k : A -> M B) w e w' :
  m w = (inl e, w') -> bind m k w = (inl e, w').
Proof. unfold bind. now intros ->. Qed.

Lemma get_some l w im : heap w !! l = Some im -> get l w = (inr im, w).
Proof. unfold get. now intros ->. Qed.

End RunFacts.

(* ================================================================== *)
(** * What the statements of the script do to the world

    Everything before [save] only adds: new image objects, new widgets.
    [save] also moves the objects it writes to their last frame. *)
(* ================================================================== *)

Section ScriptIsTame.
Import App Script RunFacts.
Context `{PIL.Codec}.

Lemma tame_for_each {A S} (xs : list A) (body : S -> A -> M S) :
  (forall vars x, tame (body vars x)) -> forall vars, tame (for_each xs body vars).
Proof.
  intros Hbody. induction xs as [ | x xs IH]; intros vars; simpl; auto with tame.
Qed.

Lemma unfailing_for_each {A S} (xs : list A) (body : S -> A -> M S) :
  (forall vars x, unfailing (body vars x)) -> forall vars, unfailing (for_each xs body vars).
Proof.
  intros Hbody. induction xs as [ | x xs IH]; intros vars; simpl.
  - apply unfailing_ret.
  - apply unfailing_bind; auto.
Qed.

Lemma tame_Image_open fp : tame (Image_open fp).
Proof. unfold Image_open. auto with tame. Qed.

Lemma tame_Image_convert img mode : tame (Image_convert img mode).
Proof. unfold Image_convert. auto 6 with tame. Qed.

Lemma tame_Image_resize img size filter : tame (Image_resize img size filter).
Proof. unfold Image_resize. auto 6 with tame. Qed.

Lemma tame_get_all imgs : tame (get_all imgs).
Proof. induction imgs; simpl; auto 6 with tame. Qed.

Lemma steady_put_all imgs : forall ims, steady (put_all imgs ims).
Proof.
  induction imgs as [ | l imgs IH]; intros [ | im ims]; simpl;
    try (apply tame_steady, tame_ret).
  apply steady_bind; [apply steady_put | intros _; apply IH].
Qed.

Lemma steady_Image_save img fp append_images resolution :
  steady (Image_save img fp append_images resolution).
Proof.
  unfold Image_save.
  apply steady_bind; [apply tame_steady, tame_get | intros im].
  apply steady_bind; [apply tame_steady, tame_get_all | intros ims].
  destruct (PIL.save im fp ims resolution) as [[r fp'] seeked].
  apply steady_bind; [apply steady_put_all | intros _].
  apply tame_steady. auto with tame.
Qed.

Lemma tame_load_one vars uploaded_file : tame (load_one vars uploaded_file).
Proof.
  unfold load_one. destruct vars as [images total].
  apply tame_try_except; [ | intros e; auto 6 with tame].
  apply tame_bind; [apply tame_Image_open | intros img].
  apply tame_bind; [auto with tame | intros im].
  apply tame_bind; [ | auto with tame].
  apply tame_if; [apply tame_Image_convert | auto with tame].
Qed.

Lemma tame_load_images uploaded_files : tame (load_images uploaded_files).
Proof.
  unfold load_images. destruct uploaded_files; [auto with tame | ].
  apply tame_for_each. apply tame_load_one.
Qed.

Lemma unfailing_load_one vars uploaded_file : unfailing (load_one vars uploaded_file).
Proof.
  unfold load_one. destruct vars as [images total].
  apply unfailing_try_except. intros e.
  apply unfailing_bind; [apply unfailing_render | intros _; apply unfailing_ret].
Qed.

Lemma unfailing_load_images uploaded_files : unfailing (load_images uploaded_files).
Proof.
  unfold load_images. destruct uploaded_files; [apply unfailing_ret | ].
  apply unfailing_for_each. apply unfailing_load_one.
Qed.

Lemma tame_show_estimate estimates label : tame (show_estimate estimates label).
Proof. unfold show_estimate. auto 8 with tame. Qed.

Lemma tame_resample_one scale processed im : tame (resample_one scale processed im).
Proof.
  unfold resample_one. apply tame_if; [ | auto with tame].
  apply tame_bind; [auto with tame | intros image].
  destruct (PIL.im_size image) as [w h].
  apply tame_bind; [auto with tame | intros new_w].
  apply tame_bind; [auto with tame | intros new_h].
  apply tame_bind; [apply tame_Image_resize | auto with tame].
Qed.

Lemma tame_resample_all images scale : tame (resample_all images scale).
Proof. apply tame_for_each. intros; apply tame_resample_one. Qed.

Lemma steady_assemble processed dpi : steady (assemble processed dpi).
Proof.
  unfold assemble. apply steady_bind; [apply tame_steady; auto with tame | intros first].
  apply steady_Image_save.
Qed.

Lemma steady_convert_to_pdf images scale dpi quality_label :
  steady (convert_to_pdf images scale dpi quality_label).
Proof.
  unfold convert_to_pdf.
  apply steady_try_except; [ | intros e; apply tame_steady; auto with tame].
  apply steady_bind; [apply tame_steady, tame_resample_all | intros processed].
  apply steady_bind; [apply steady_assemble | intros fp].
  apply tame_steady. auto 6 with tame.
Qed.

Lemma steady_after_presets session images total :
  steady (after_presets session images total).
Proof.
  unfold after_presets.
  repeat (apply steady_bind;
            [apply tame_steady; first [apply tame_show_estimate | auto with tame]
            | intros ?]).
  apply steady_if; [apply steady_convert_to_pdf | apply tame_steady; auto with tame].
Qed.

(** [main] is the two headings, the loader, the binding of the registry
    and the rest. *)
Lemma main_run session w :
  main session w =
    (render (St.title "🖼️ Image to PDF Converter") ;;;
     render (St.write "Upload images in any format and convert them into a single PDF with your preferred quality.") ;;;
     let! loaded := load_images (St.uploaded_files session) in
     assign_QUALITY_PRESETS QUALITY_PRESETS ;;;
     after_presets session (fst loaded) (snd loaded)) w.
Proof.
  unfold main, after_presets, bind. simpl.
  destruct (load_images _ _) as [[e | [images total]] w1]; reflexivity.
Qed.

End ScriptIsTame.

(* ================================================================== *)
(** * The quality preset registry *)
(* ================================================================== *)

Section Registry.
Import App Script RunFacts.
Context `{PIL.Codec}.

Lemma registry_after_main session w :
  registry (snd (main session w)) = QUALITY_PRESETS.
Proof.
  rewrite main_run. unfold bind at 1. simpl. unfold bind at 1. simpl.
  set (w2 := {| heap := heap w; registry := registry w; screen := _ |}).
  unfold bind at 1.
  destruct (unfailing_load_images (St.uploaded_files session) w2) as [loaded Hl].
  destruct (load_images _ w2) as [[e | loaded'] w3]; simpl in Hl; [discriminate | ].
  unfold bind at 1. simpl.
  set (w4 := {| heap := heap w3; registry := QUALITY_PRESETS; screen := screen w3 |}).
  pose proof (steady_after_presets session (fst loaded') (snd loaded') w4) as (Hr & _).
  rewrite Hr. reflexivity.
Qed.

End Registry.

(** C6.  [QUALITY_PRESETS] has exactly the three entries High (scale 1.0,
    300 DPI), Medium (0.5, 150) and Low (0.25, 72), in this order; every
    scale lies in [[0.05, 1.0]] and every resolution tag is 300, 150 or 72;
    a run binds the registry once and no statement before or after the
    binding changes it. *)
Theorem quality_presets_fixed `{PIL.Codec} :
  Py.keys Script.QUALITY_PRESETS
    = ["High (300 DPI)"; "Medium (150 DPI)"; "Low (72 DPI)"]
  /\ map (fun k => Py.index (Py.split k) 0) (Py.keys Script.QUALITY_PRESETS)
     = [inr "High"; inr "Medium"; inr "Low"]
  /\ map (fun k => Py.getitem Script.QUALITY_PRESETS k) (Py.keys Script.QUALITY_PRESETS)
     = [ inr {| App.scale := Py.lit_1_0; App.dpi := 300 |};
         inr {| App.scale := Py.lit_0_5; App.dpi := 150 |};
         inr {| App.scale := Py.lit_0_25; App.dpi := 72 |} ]
  /\ Forall (fun item =>
               Py.float_le Py.lit_0_05 (App.scale (snd item)) = true
               /\ Py.float_le (App.scale (snd item)) Py.lit_1_0 = true
               /\ In (App.dpi (snd item)) [300; 150; 72])
            Script.QUALITY_PRESETS
  /\ (forall session w,
        App.registry (snd (Script.main session w)) = Script.QUALITY_PRESETS)
  /\ (forall uploaded_files w,
        App.registry (snd (Script.load_images uploaded_files w)) = App.registry w)
  /\ (forall session images total w,
        App.registry (snd (after_presets session images total w)) = App.registry w).
Proof.
  split; [reflexivity | ].
  split; [vm_compute; reflexivity | ].
  split; [vm_compute; reflexivity | ].
  split.
  { unfold Script.QUALITY_PRESETS.
    repeat (apply List.Forall_cons;
              [split; [reflexivity | split; [reflexivity | simpl; intuition] ] | ]).
    apply List.Forall_nil. }
  split; [apply registry_after_main | ].
  split.
  - intros fs w. apply (tame_load_images fs w).
  - intros session images total w. apply (steady_after_presets session images total w).
Qed.

(* ================================================================== *)
(** * The image loader *)
(* ================================================================== *)

Section Loader.
Import App Script RunFacts.
Context `{PIL.Codec}.

Lemma open_positive fp fp_repr im :
  PIL.open fp fp_repr = inr im -> PIL.positive_size im.
Proof.
  unfold PIL.open, PIL.positive_size.
  destruct (PIL.decode fp) as [e | im0]; [destruct e; discriminate | ].
  destruct (Z.ltb_spec (PIL.width im0) 1); [discriminate | ].
  destruct (Z.ltb_spec (PIL.height im0) 1); [discriminate | ].
  simpl. intros [= <-]. lia.
Qed.

(** A header with no empty side opens as it is, whatever its pixel data. *)
Lemma open_decoded fp fp_repr im :
  PIL.decode fp = inr im -> PIL.positive_size im -> PIL.open fp fp_repr = inr im.
Proof.
  intros Hd [Hw Hh]. unfold PIL.open. rewrite Hd.
  destruct (Z.ltb_spec (PIL.width im) 1); [lia | ].
  destruct (Z.ltb_spec (PIL.height im) 1); [lia | ]. reflexivity.
Qed.

Lemma convert_size im mode out : PIL.convert im mode = inr out -> PIL.im_size out = PIL.im_size im.
Proof.
  unfold PIL.convert.
  destruct (PIL.im_data im); [discriminate | ]. cbn [Py.and_then].
  destruct (PIL.convert_data im mode); [discriminate | ]. cbn [Py.and_then].
  now intros [= <-].
Qed.

Lemma normalised_positive f im : normalised f = inr im -> PIL.positive_size im.
Proof.
  unfold normalised.
  destruct (PIL.open (St.contents f) (St.repr f)) as [e | im0] eqn:Hopen; [discriminate | ].
  apply open_positive in Hopen. simpl.
  destruct (negb (String.eqb (PIL.im_mode im0) "RGB")).
  - intros Hc. apply convert_size in Hc.
    unfold PIL.positive_size, PIL.width, PIL.height in *. now rewrite Hc.
  - intros [= <-]. exact Hopen.
Qed.

(** Every bitmap of the working set has both sides at least 1. *)
Lemma decoded_positive files : Forall PIL.positive_size (decoded files).
Proof.
  unfold decoded. induction files as [ | f files IH]; csimpl; [constructor | ].
  destruct (normalised f) as [e | im] eqn:Hn; csimpl; [exact IH | ].
  constructor; [eapply normalised_positive; eauto | exact IH].
Qed.

Lemma decoded_diagnostics_length files :
  (length (decoded files) + length (diagnostics files) = length files)%nat.
Proof.
  unfold decoded, diagnostics.
  induction files as [ | f files IH]; csimpl; [reflexivity | ].
  destruct (normalised f); csimpl; lia.
Qed.

Lemma alloc_lookup w im : heap (alloc w im) !! fresh (dom (heap w)) = Some im.
Proof. apply lookup_insert_eq. Qed.

Lemma load_one_run images total f w :
  load_one (images, total) f w =
    let report e :=
      St.error ("Error loading image " +:+ St.name f +:+ ": " +:+ Py.str e) in
    match PIL.open (St.contents f) (St.repr f) with
    | inl e => (inr (images, total), rendered w (report e))
    | inr im0 =>
        let w0 := alloc w im0 in
        if negb (String.eqb (PIL.im_mode im0) "RGB") then
          match PIL.convert im0 "RGB" with
          | inl e => (inr (images, total), rendered w0 (report e))
          | inr im =>
              (inr (images ++ [fresh (dom (heap w0))], total + St.size f), alloc w0 im)
          end
        else (inr (images ++ [fresh (dom (heap w))], total + St.size f), w0)
    end.
Proof.
  unfold load_one, try_except, Image_open, Image_convert, bind, lift, new, get, ret,
    render, alloc, rendered.
  destruct (PIL.open (St.contents f) (St.repr f)) as [e | im0]; [reflexivity | ].
  cbn [heap registry screen]. rewrite lookup_insert_eq.
  destruct (negb (String.eqb (PIL.im_mode im0) "RGB")); [ | reflexivity].
  cbn [heap registry screen]. rewrite lookup_insert_eq.
  destruct (PIL.convert im0 "RGB") as [e | im]; reflexivity.
Qed.

Lemma load_one_spec images total f w :
  exists w', evolves w w' /\
    match normalised f with
    | inr im =>
        exists l, load_one (images, total) f w
                  = (inr (images ++ [l], total + St.size f), w')
                  /\ heap w !! l = None /\ heap w' !! l = Some im
                  /\ screen w' = screen w
    | inl e =>
        load_one (images, total) f w = (inr (images, total), w')
        /\ screen w' = screen w
                       ++ [St.error ("Error loading image " +:+ St.name f
                                     +:+ ": " +:+ Py.str e)]
    end.
Proof.
  exists (snd (load_one (images, total) f w)).
  split; [apply tame_load_one | ].
  rewrite load_one_run. unfold normalised, Py.and_then.
  destruct (PIL.open (St.contents f) (St.repr f)) as [e | im0]; cbn zeta; [auto | ].
  destruct (negb (String.eqb (PIL.im_mode im0) "RGB")).
  - destruct (PIL.convert im0 "RGB") as [e | im]; [auto | ].
    eexists. repeat split.
    + pose proof (fresh_unused (heap (alloc w im0))) as Hl.
      unfold alloc at 2 in Hl. cbn [heap] in Hl.
      apply lookup_insert_None in Hl. tauto.
    + apply alloc_lookup.
  - eexists. repeat split.
    + apply fresh_unused.
    + apply alloc_lookup.
Qed.

Lemma unused_before w w1 (ls : list positive) :
  evolves w w1 -> Forall (fun l => heap w1 !! l = None) ls ->
  Forall (fun l => heap w !! l = None) ls.
Proof.
  intros Hev Hf. eapply Forall_impl; [exact Hf | ]. cbn beta. intros l Hl.
  destruct (heap w !! l) as [im | ] eqn:Hw; [ | reflexivity].
  apply (evolves_lookup _ _ _ _ Hev) in Hw. congruence.
Qed.

Lemma load_loop_spec files : forall images total w,
  exists ls w',
    for_each files load_one (images, total) w
      = (inr (images ++ ls, total + loaded_bytes files), w')
    /\ Forall2 (fun l im => heap w' !! l = Some im) ls (decoded files)
    /\ Forall (fun l => heap w !! l = None) ls
    /\ screen w' = screen w ++ diagnostics files
    /\ evolves w w'.
Proof.
  induction files as [ | f files IH]; intros images total w.
  - exists [], w. simpl. unfold ret.
    rewrite !app_nil_r, Z.add_0_r.
    split; [reflexivity | ]. split; [constructor | ]. split; [constructor | ].
    split; reflexivity.
  - destruct (load_one_spec images total f w) as (w1 & Hev1 & Hone).
    unfold decoded, diagnostics in *. cbn [for_each loaded_bytes foldr]. csimpl.
    destruct (normalised f) as [e | im] eqn:Hn; csimpl.
    + destruct Hone as (Hrun & Hscr).
      destruct (IH images total w1) as (ls & w' & Hloop & Hls & Hfresh & Hscr' & Hev').
      exists ls, w'. rewrite (bind_inr _ _ _ _ _ Hrun), Hloop.
      split; [reflexivity | ]. split; [exact Hls | ].
      split; [eapply unused_before; eauto | ].
      split; [ | etransitivity; eauto].
      rewrite Hscr', Hscr, <- app_assoc. reflexivity.
    + destruct Hone as (l & Hrun & Hnew & Hl & Hscr).
      destruct (IH (images ++ [l]) (total + St.size f) w1)
        as (ls & w' & Hloop & Hls & Hfresh & Hscr' & Hev').
      exists (l :: ls), w'. rewrite (bind_inr _ _ _ _ _ Hrun), Hloop.
      split.
      { rewrite <- app_assoc. simpl. do 3 f_equal. fold (loaded_bytes files). lia. }
      split; [constructor; [eapply evolves_lookup; eauto | exact Hls] | ].
      split; [constructor; [exact Hnew | eapply unused_before; eauto] | ].
      split; [ | etransitivity; eauto].
      rewrite Hscr', Hscr. reflexivity.
Qed.

End Loader.

(** For every batch of uploaded files the loader returns normally.  The
    working set holds, in upload order, exactly the image objects of the
    files that open (each converted to RGB when its mode is another); every
    other file adds one [st.error] naming it and nothing else; the byte
    total counts the loaded files only; loaded and reported files add up to
    the batch. *)
Lemma load_images_spec `{PIL.Codec}
    (uploaded_files : list St.UploadedFile) (w : App.World) :
  exists images w',
    Script.load_images uploaded_files w
      = (inr (images, loaded_bytes uploaded_files), w')
    /\ Forall2 (fun l im => App.heap w' !! l = Some im) images (decoded uploaded_files)
    /\ App.screen w' = App.screen w ++ diagnostics uploaded_files
    /\ (length images + length (diagnostics uploaded_files)
        = length uploaded_files)%nat
    /\ evolves w w'.
Proof.
  destruct (load_loop_spec uploaded_files [] 0 w)
    as (ls & w' & Hloop & Hls & _ & Hscr & Hev).
  exists ls, w'.
  assert (Script.load_images uploaded_files w
          = (inr (ls, loaded_bytes uploaded_files), w')) as Hrun.
  { unfold Script.load_images. destruct uploaded_files; [ | exact Hloop].
    simpl in Hloop. unfold App.ret in *. exact Hloop. }
  split; [exact Hrun | ]. split; [exact Hls | ]. split; [exact Hscr | ].
  split; [ | exact Hev].
  rewrite (Forall2_length _ _ _ Hls). apply decoded_diagnostics_length.
Qed.

(** Five uploads, the third not an image: four bitmaps are loaded, the
    greyscale one converted to RGB, one diagnostic names the third file, and
    the run ends normally. *)
Example load_images_five_one_corrupt :
  exists images w',
    @Script.load_images Toy.codec
      [Toy.rgb Byte.x02 Byte.x02 "a.png"; Toy.grey Byte.x03 Byte.x01 "b.png";
       Toy.corrupt "c.png"; Toy.rgb Byte.x04 Byte.x05 "d.png";
       Toy.rgb Byte.x01 Byte.x01 "e.png"] Script.initial
      = (inr (images, 12), w')
    /\ length images = 4%nat
    /\ omap (fun l => PIL.im_mode <$> App.heap w' !! l) images
       = ["RGB"; "RGB"; "RGB"; "RGB"]
    /\ App.screen w'
       = [St.error "Error loading image c.png: cannot identify image file UploadedFile(name='c.png')"].
Proof. do 2 eexists. split; [vm_compute; reflexivity | ]. vm_compute. repeat split. Qed.

(** C3 (code bug).  A file in RGB mode whose pixel data cannot be read is
    not isolated.  [Image.open] reads its header only and, the mode being
    RGB already, nothing in the [try] of lines 29-37 reads its pixels: the
    file joins the working set with no diagnostic, and [resize] and
    [save] then raise on it (first part, for any codec).  Its failure
    surfaces in the conversion, which fails as a whole.  On five uploads, the third an RGB file cut short: five image
    objects are loaded, no diagnostic is shown, and with Medium picked and
    the button pressed the page ends with "Conversion failed: ..." and
    offers no download, the four good files included.  The same data in a
    greyscale file takes the other branch, where [convert] reads the pixels
    inside the [try]: that file is reported by name and left out, and the
    four others are converted. *)
Theorem load_images_misses_unreadable_rgb :
  let batch third :=
    [Toy.rgb Byte.x02 Byte.x02 "a.png"; Toy.grey Byte.x03 Byte.x01 "b.png"; third;
     Toy.rgb Byte.x04 Byte.x05 "d.png"; Toy.rgb Byte.x01 Byte.x01 "e.png"] in
  let pressed third :=
    {| St.uploaded_files := batch third; St.radio_picked := Some 1%nat;
       St.button_pressed := true |} in
  let cut_rgb := Toy.truncated Byte.x02 Byte.x02 "c.png" in
  let cut_grey := Toy.file "c.png" [Byte.x01; Byte.x02; Byte.x02; Byte.xfe] in
  (forall (codec : PIL.Codec) f im e,
     PIL.decode (St.contents f) = inr im -> PIL.positive_size im ->
     PIL.im_mode im = "RGB" -> PIL.im_data im = inl e ->
     normalised f = inr im
     /\ @diagnostics codec [f] = []
     /\ (forall size filter, PIL.resize im size filter = inl e)
     /\ (forall dpi, encode_all [im] dpi = inl e))
  /\ (exists images w',
        @Script.load_images Toy.codec (batch cut_rgb) Script.initial
        = (inr (images, 16), w')
        /\ length images = 5%nat
        /\ App.screen w' = [])
  /\ (exists w',
        @Script.main Toy.codec (pressed cut_rgb) Script.initial = (inr tt, w')
        /\ App.screen w'
           = headings ++ estimate_widgets (S754_finite false 4503599627370496 (-48))
             ++ [St.error "Conversion failed: image file is truncated"])
  /\ (exists images w',
        @Script.load_images Toy.codec (batch cut_grey) Script.initial
        = (inr (images, 12), w')
        /\ length images = 4%nat
        /\ App.screen w' = [St.error "Error loading image c.png: image file is truncated"])
  /\ (exists fp w',
        @Script.main Toy.codec (pressed cut_grey) Script.initial = (inr tt, w')
        /\ App.screen w'
           = headings ++ [St.error "Error loading image c.png: image file is truncated"]
             ++ estimate_widgets (S754_finite false 6755399441055744 (-49))
             ++ offer "Medium" fp
        /\ length (PIL.pages fp) = 4%nat).
Proof.
  intros batch pressed cut_rgb cut_grey.
  split; [ | split; [ | split; [ | split] ] ].
  - intros codec f im e Hd Hpos Hmode He.
    assert (normalised f = inr im) as Hn.
    { unfold normalised. rewrite (open_decoded _ _ im Hd Hpos).
      cbn [Py.and_then]. rewrite Hmode. reflexivity. }
    split; [exact Hn | ]. split; [ | split].
    + unfold diagnostics. cbn [omap list_omap]. rewrite Hn. reflexivity.
    + intros size filter. unfold PIL.resize. rewrite He. reflexivity.
    + intros dpi. unfold encode_all. rewrite He. reflexivity.
  - do 2 eexists. split; [vm_compute; reflexivity | ]. split; reflexivity.
  - eexists. split; vm_compute; reflexivity.
  - do 2 eexists. split; [vm_compute; reflexivity | ]. split; reflexivity.
  - do 2 eexists. split; [vm_compute; reflexivity | ]. split; vm_compute; reflexivity.
Qed.

(* ================================================================== *)
(** * The resampler *)
(* ================================================================== *)

Section Resampler.
Import App Script RunFacts.
Context `{PIL.Codec}.

Lemma max_int_max a b : Py.max_int a b = Z.max a b.
Proof. unfold Py.max_int. destruct (Z.ltb_spec a b); lia. Qed.

(** [resize] on pixels that load: a new bitmap when no side asked for is
    empty, a [ValueError] otherwise. *)
Lemma resize_at_least_one im size filter data :
  PIL.im_data im = inr data -> 1 <= fst size -> 1 <= snd size ->
  PIL.resize im size filter
  = inr (PIL.in_memory size (PIL.im_mode im) (PIL.resample im size filter)).
Proof.
  intros Hd Hw Hh. unfold PIL.resize. rewrite Hd. cbn [Py.and_then].
  destruct (Z.ltb_spec (fst size) 1); [lia | ].
  destruct (Z.ltb_spec (snd size) 1); [lia | ]. reflexivity.
Qed.

Lemma resize_empty_side im size filter data :
  PIL.im_data im = inr data -> fst size < 1 \/ snd size < 1 ->
  PIL.resize im size filter = inl (Py.ValueError "height and width must be > 0").
Proof.
  intros Hd Hside. unfold PIL.resize. rewrite Hd. cbn [Py.and_then].
  destruct (Z.ltb_spec (fst size) 1); [reflexivity | ].
  destruct (Z.ltb_spec (snd size) 1); [reflexivity | lia].
Qed.

(** [resize] on pixels that do not load: the error of the file. *)
Lemma resize_unreadable im size filter e :
  PIL.im_data im = inl e -> PIL.resize im size filter = inl e.
Proof. intros Hd. unfold PIL.resize. now rewrite Hd. Qed.

Lemma resample_one_run scale processed im w :
  resample_one scale processed im w =
    if Py.float_lt scale Py.lit_1_0 then
      match heap w !! im with
      | None => (inl (Py.SystemError "reference to no object"), w)
      | Some image =>
          match scaled (PIL.width image) scale with
          | inl e => (inl e, w)
          | inr new_w =>
              match scaled (PIL.height image) scale with
              | inl e => (inl e, w)
              | inr new_h =>
                  match PIL.im_data image with
                  | inl e => (inl e, w)
                  | inr _ =>
                      (inr (processed ++ [fresh (dom (heap w))]),
                       alloc w (resized image new_w new_h))
                  end
              end
          end
      end
    else (inr (processed ++ [im]), w).
Proof.
  unfold resample_one. destruct (Py.float_lt scale Py.lit_1_0); [ | reflexivity].
  unfold bind at 1. unfold get at 1.
  destruct (heap w !! im) as [image | ] eqn:Him; [ | reflexivity].
  unfold PIL.width, PIL.height, scaled. destruct (PIL.im_size image) as [iw ih] eqn:Hsz.
  cbn [fst snd].
  unfold bind at 1, lift at 1.
  destruct (let? x := Py.int_mul_float iw scale in Py.int_of_float x)
    as [e | new_w]; [reflexivity | ].
  unfold bind at 1, lift at 1.
  destruct (let? y := Py.int_mul_float ih scale in Py.int_of_float y)
    as [e | new_h]; [reflexivity | ].
  unfold Image_resize, bind, get, lift, new, ret. rewrite Him.
  rewrite !max_int_max.
  destruct (PIL.im_data image) as [e | data] eqn:Hdata.
  - rewrite (resize_unreadable _ _ _ e Hdata). reflexivity.
  - rewrite (resize_at_least_one _ _ _ data Hdata) by (cbn [fst snd]; lia).
    reflexivity.
Qed.

(** ** A scale that is not below 1.0 *)

Lemma resample_loop_pass scale images : forall processed w,
  Py.float_lt scale Py.lit_1_0 = false ->
  for_each images (resample_one scale) processed w = (inr (processed ++ images), w).
Proof.
  induction images as [ | im images IH]; intros processed w Hs; simpl.
  - unfold ret. now rewrite app_nil_r.
  - erewrite bind_inr by (rewrite resample_one_run, Hs; reflexivity).
    rewrite IH by assumption. now rewrite <- app_assoc.
Qed.

(** ** The bitmaps behind a list of references *)

Lemma holds_evolves w w' refs ims : evolves w w' -> holds w refs ims -> holds w' refs ims.
Proof.
  intros Hev Hh. eapply Forall2_impl; [exact Hh | ].
  intros l im. now apply evolves_lookup.
Qed.

(** ** A scale below 1.0, on values *)

Lemma resample_values_Forall2 scale images outs :
  resample_values scale images = inr outs ->
  Forall2 (fun image out => resample_value scale image = inr out) images outs.
Proof.
  revert outs. induction images as [ | image rest IH]; intros outs; simpl.
  - intros [= <-]. constructor.
  - destruct (resample_value scale image) as [e | out] eqn:Hone; [discriminate | ].
    simpl. destruct (resample_values scale rest) as [e | outs'] eqn:Hrest; [discriminate | ].
    simpl. intros [= <-]. constructor; auto.
Qed.

Lemma resample_one_below scale processed im image w :
  Py.float_lt scale Py.lit_1_0 = true -> heap w !! im = Some image ->
  resample_one scale processed im w =
    match resample_value scale image with
    | inl e => (inl e, w)
    | inr out => (inr (processed ++ [fresh (dom (heap w))]), alloc w out)
    end.
Proof.
  intros Hs Him. rewrite resample_one_run, Hs, Him. unfold resample_value.
  destruct (scaled (PIL.width image) scale); [reflexivity | ]. simpl.
  destruct (scaled (PIL.height image) scale); [reflexivity | ]. simpl.
  destruct (PIL.im_data image); reflexivity.
Qed.

(** The loop returns exactly when every product is finite; it then leaves
    one new bitmap per input, in order, at references unused before. *)
Lemma resample_loop_below scale images : forall originals processed w,
  Py.float_lt scale Py.lit_1_0 = true ->
  holds w images originals ->
  exists w', evolves w w' /\
    match resample_values scale originals with
    | inl e => for_each images (resample_one scale) processed w = (inl e, w')
    | inr outs =>
        exists news,
          for_each images (resample_one scale) processed w
            = (inr (processed ++ news), w')
          /\ holds w' news outs
          /\ Forall (fun l => heap w !! l = None) news
    end.
Proof.
  induction images as [ | im images IH]; intros originals processed w Hs Hholds.
  - inversion Hholds; subst. exists w. split; [reflexivity | ].
    exists []. simpl. unfold ret. rewrite app_nil_r.
    split; [reflexivity | split; constructor].
  - inversion Hholds as [ | ? image ? originals' Him Hrest]; subst.
    cbn [for_each resample_values].
    pose proof (resample_one_below scale processed im image w Hs Him) as Hone.
    destruct (resample_value scale image) as [e | out] eqn:Hval.
    + exists w. split; [reflexivity | ]. simpl. now rewrite (bind_inl _ _ _ _ _ Hone).
    + rewrite (bind_inr _ _ _ _ _ Hone).
      assert (evolves w (alloc w out)) as Hev1 by apply (tame_new out w).
      destruct (IH originals' (processed ++ [fresh (dom (heap w))]) (alloc w out) Hs
                  (holds_evolves _ _ _ _ Hev1 Hrest)) as (w' & Hev' & Hloop).
      exists w'. split; [etransitivity; eauto | ]. simpl.
      destruct (resample_values scale originals') as [e | outs].
      * exact Hloop.
      * destruct Hloop as (news & Hrun & Hnews & Hfresh).
        exists (fresh (dom (heap w)) :: news).
        split; [rewrite Hrun, <- app_assoc; reflexivity | ].
        split.
        -- constructor; [ | exact Hnews].
           eapply evolves_lookup; [exact Hev' | apply alloc_lookup].
        -- constructor; [apply fresh_unused | ].
           eapply unused_before; eauto.
Qed.

End Resampler.

Section ResamplerFacts.
Import App Script RunFacts.
Context `{PIL.Codec}.

Lemma int_of_float_truncate x : Py.int_of_float x = Spec.truncate x.
Proof.
  destruct x as [s | s | | s m e]; try reflexivity.
  unfold Py.int_of_float, Spec.truncate.
  destruct e as [ | k | k].
  - rewrite Z.shiftl_0_r, Z.mul_1_r. reflexivity.
  - rewrite Z.shiftl_mul_pow2 by lia. destruct s; simpl cond_Zopp; [ | reflexivity].
    now rewrite Z.mul_opp_l.
  - change (Z.shiftl (Z.pos m) (Z.neg k)) with (Z.shiftr (Z.pos m) (Z.pos k)).
    rewrite Z.shiftr_div_pow2 by lia.
    rewrite Z.pow_pos_fold.
    assert (0 < 2 ^ Z.pos k) by (apply Z.pow_pos_nonneg; lia).
    destruct s; simpl cond_Zopp.
    + change (Z.neg m) with (- Z.pos m).
      rewrite Z.quot_opp_l by lia. rewrite Z.quot_div_nonneg by lia. reflexivity.
    + rewrite Z.quot_div_nonneg by lia. reflexivity.
Qed.

Lemma scaled_truncated d scale n :
  scaled d scale = inr n -> Spec.truncated_dimension d scale = inr (Z.max 1 n).
Proof.
  unfold scaled, Spec.truncated_dimension.
  destruct (Py.int_mul_float d scale) as [e | x]; [discriminate | ]. simpl.
  rewrite <- int_of_float_truncate. now intros ->.
Qed.

Lemma truncated_scaled d scale n :
  Spec.truncated_dimension d scale = inr n ->
  exists t, scaled d scale = inr t /\ n = Z.max 1 t.
Proof.
  unfold scaled, Spec.truncated_dimension.
  destruct (Py.int_mul_float d scale) as [e | x]; [discriminate | ]. simpl.
  rewrite <- int_of_float_truncate.
  destruct (Py.int_of_float x) as [e | t]; [discriminate | ]. simpl.
  intros [= <-]. eauto.
Qed.

Lemma resized_positive image new_w new_h : PIL.positive_size (resized image new_w new_h).
Proof. unfold PIL.positive_size, resized, PIL.width, PIL.height. simpl. lia. Qed.

(** The step on values returns exactly when both products convert and the
    pixels load. *)
Lemma resample_value_inv scale image out :
  resample_value scale image = inr out ->
  exists new_w new_h data,
    scaled (PIL.width image) scale = inr new_w
    /\ scaled (PIL.height image) scale = inr new_h
    /\ PIL.im_data image = inr data
    /\ out = resized image new_w new_h.
Proof.
  unfold resample_value.
  destruct (scaled (PIL.width image) scale) as [e | new_w]; [discriminate | ]. simpl.
  destruct (scaled (PIL.height image) scale) as [e | new_h]; [discriminate | ]. simpl.
  destruct (PIL.im_data image) as [e | data]; [discriminate | ]. simpl.
  intros [= <-]. eauto 8.
Qed.

Lemma resample_value_ok scale image new_w new_h data :
  scaled (PIL.width image) scale = inr new_w ->
  scaled (PIL.height image) scale = inr new_h ->
  PIL.im_data image = inr data ->
  resample_value scale image = inr (resized image new_w new_h).
Proof. intros Hw Hh Hd. unfold resample_value. now rewrite Hw, Hh, Hd. Qed.

Lemma resample_value_positive scale image out :
  resample_value scale image = inr out -> PIL.positive_size out.
Proof.
  intros Hv. apply resample_value_inv in Hv as (new_w & new_h & data & _ & _ & _ & ->).
  apply resized_positive.
Qed.

End ResamplerFacts.

(** C7.  Whatever the scale, every bitmap present before the resize loop is
    present and equal after it, and the registry is untouched; at a scale
    [>= 1.0] the loop returns the very references it was given and leaves
    the world as it was, so each output is its input, pixels and size. *)
Theorem resample_keeps_originals `{PIL.Codec}
    (images : list positive) (scale : Py.float) (w : App.World) :
  (forall l im, App.heap w !! l = Some im ->
     App.heap (snd (Script.resample_all images scale w)) !! l = Some im)
  /\ App.registry (snd (Script.resample_all images scale w)) = App.registry w
  /\ (Py.float_ge scale Py.lit_1_0 = true ->
        Script.resample_all images scale w = (inr images, w)).
Proof.
  pose proof (tame_resample_all images scale w) as (Hheap & Hreg & _).
  split; [ | split; [exact Hreg | ] ].
  - intros l im Hl. eapply lookup_weaken; eauto.
  - intros Hge. unfold Script.resample_all.
    rewrite resample_loop_pass by now apply FloatFacts.ge_1_0_not_lt.
    reflexivity.
Qed.

(** The theorem on two bitmaps at scale 1.0. *)
Lemma resample_keeps_originals_witness :
  let w := Toy.world [Toy.bitmap 100 100; Toy.bitmap 7 2] in
  @Script.resample_all Toy.codec [1%positive; 2%positive] Py.lit_1_0 w
  = (inr [1%positive; 2%positive], w).
Proof.
  intros w.
  apply (@resample_keeps_originals Toy.codec [1%positive; 2%positive] Py.lit_1_0 w).
  reflexivity.
Defined.

(** C8.  Every bitmap the resize loop returns is at least 1×1, and the
    guard [max(1, .)] is what makes it return one.
    - The loader only lets image objects with both sides at least 1 into the
      working set.
    - At a scale below 1.0 the resize step, on any image whose two products
      convert to integers and whose pixels load, returns a new bitmap of
      [max(1, int(w * scale))] by [max(1, int(h * scale))], which is at
      least 1×1.
    - Whenever the loop returns, every bitmap it returns is at least 1×1:
      below 1.0 whatever the inputs, at any other scale because it passes on
      the bitmaps of the loader.
    - On a 2×2 image at 0.25, [int(2 * 0.25)] is 0, a size [resize] refuses
      with a [ValueError]; the step asks for 1×1 instead and returns a 1×1
      bitmap. *)
Theorem resample_at_least_one_pixel `{PIL.Codec} :
  (forall uploaded_files w images total w1,
     Script.load_images uploaded_files w = (inr (images, total), w1) ->
     exists originals, holds w1 images originals
                       /\ Forall PIL.positive_size originals)
  /\ (forall scale processed im image w new_w new_h data,
        Py.float_lt scale Py.lit_1_0 = true ->
        App.heap w !! im = Some image ->
        scaled (PIL.width image) scale = inr new_w ->
        scaled (PIL.height image) scale = inr new_h ->
        PIL.im_data image = inr data ->
        exists l out w',
          Script.resample_one scale processed im w = (inr (processed ++ [l]), w')
          /\ App.heap w' !! l = Some out
          /\ PIL.im_size out = (Z.max 1 new_w, Z.max 1 new_h)
          /\ PIL.positive_size out)
  /\ (forall images originals scale w w' processed,
        holds w images originals ->
        Py.float_lt scale Py.lit_1_0 = true \/ Forall PIL.positive_size originals ->
        Script.resample_all images scale w = (inr processed, w') ->
        exists outs, holds w' processed outs
                     /\ length outs = length originals
                     /\ Forall PIL.positive_size outs)
  /\ (forall processed im image w data,
        App.heap w !! im = Some image ->
        PIL.im_size image = (2, 2) ->
        PIL.im_data image = inr data ->
        scaled 2 Py.lit_0_25 = inr 0
        /\ PIL.resize image (0, 0) PIL.LANCZOS
           = inl (Py.ValueError "height and width must be > 0")
        /\ exists l out w',
             Script.resample_one Py.lit_0_25 processed im w
               = (inr (processed ++ [l]), w')
             /\ App.heap w' !! l = Some out
             /\ PIL.im_size out = (1, 1)).
Proof.
  assert (forall scale processed im image w new_w new_h data,
            Py.float_lt scale Py.lit_1_0 = true ->
            App.heap w !! im = Some image ->
            scaled (PIL.width image) scale = inr new_w ->
            scaled (PIL.height image) scale = inr new_h ->
            PIL.im_data image = inr data ->
            exists l out w',
              Script.resample_one scale processed im w = (inr (processed ++ [l]), w')
              /\ App.heap w' !! l = Some out
              /\ PIL.im_size out = (Z.max 1 new_w, Z.max 1 new_h)
              /\ PIL.positive_size out) as Hstep.
  { intros scale processed im image w new_w new_h data Hs Him Hw Hh Hd.
    exists (fresh (dom (App.heap w))), (resized image new_w new_h),
      (alloc w (resized image new_w new_h)).
    rewrite (resample_one_below scale processed im image w Hs Him).
    rewrite (resample_value_ok scale image new_w new_h data Hw Hh Hd).
    split; [reflexivity | ]. split; [apply alloc_lookup | ].
    split; [reflexivity | apply resized_positive]. }
  split; [ | split; [exact Hstep | split] ].
  - intros uploaded_files w images total w1 Hload.
    destruct (load_loop_spec uploaded_files [] 0 w) as (ls & w' & Hloop & Hls & _).
    assert (Script.load_images uploaded_files w
            = (inr (ls, loaded_bytes uploaded_files), w')) as Hrun.
    { unfold Script.load_images. destruct uploaded_files; [ | exact Hloop].
      simpl in Hloop. unfold App.ret in *. exact Hloop. }
    rewrite Hrun in Hload. injection Hload as <- _ <-.
    exists (decoded uploaded_files). split; [exact Hls | apply decoded_positive].
  - intros images originals scale w w' processed Hholds Hcase Hrun.
    destruct (Py.float_lt scale Py.lit_1_0) eqn:Hs.
    + destruct (resample_loop_below scale images originals [] w Hs Hholds)
        as (w1 & _ & Hloop).
      unfold Script.resample_all in Hrun.
      destruct (resample_values scale originals) as [e | outs] eqn:Hvals.
      * rewrite Hloop in Hrun. discriminate.
      * destruct Hloop as (news & Hloop & Hnews & _).
        rewrite Hloop in Hrun. injection Hrun as <- <-.
        apply resample_values_Forall2 in Hvals.
        exists outs. split; [exact Hnews | ].
        split; [symmetry; eapply Forall2_length; eauto | ].
        clear -Hvals. induction Hvals; constructor; auto.
        eapply resample_value_positive; eauto.
    + destruct Hcase as [Hcase | Hpos]; [discriminate | ].
      unfold Script.resample_all in Hrun.
      rewrite resample_loop_pass in Hrun by assumption.
      injection Hrun as <- <-. exists originals. auto.
  - intros processed im image w data Him Hsz Hd.
    assert (scaled 2 Py.lit_0_25 = inr 0) as Hzero by (vm_compute; reflexivity).
    split; [exact Hzero | ].
    split; [apply (resize_empty_side _ _ _ data Hd); cbn [fst snd]; lia | ].
    destruct (Hstep Py.lit_0_25 processed im image w 0 0 data eq_refl Him)
      as (l & out & w' & Hrun & Hl & Hsize & _);
      try (unfold PIL.width, PIL.height; rewrite Hsz; exact Hzero); [exact Hd | ].
    exists l, out, w'. auto.
Qed.

(** The theorem on a 2×2 bitmap at scale 0.25. *)
Lemma resample_at_least_one_pixel_witness :
  let image := Toy.bitmap 2 2 in
  let w := Toy.world [image] in
  scaled 2 Py.lit_0_25 = inr 0
  /\ @PIL.resize Toy.codec image (0, 0) PIL.LANCZOS
     = inl (Py.ValueError "height and width must be > 0")
  /\ exists l out w',
       @Script.resample_one Toy.codec Py.lit_0_25 [] 1%positive w = (inr ([] ++ [l]), w')
       /\ App.heap w' !! l = Some out
       /\ PIL.im_size out = (1, 1).
Proof.
  intros image w.
  refine (proj2 (proj2 (proj2 (@resample_at_least_one_pixel Toy.codec)))
            [] 1%positive image w [] _ _ _); reflexivity.
Defined.

(** C1 (amended).  For every image and every scale below 1.0 whose products
    with the two dimensions are finite, the resize step computes each new
    dimension as [max(1, trunc(dimension * scale))], truncating towards zero
    where the claim says rounding, one axis independently of the other.
    When the pixels of the image load, it appends a new bitmap of exactly
    that size and of the same mode, and the input stays as it was; when they
    do not (a file whose data is cut short), [resize] raises the error of
    the file and nothing is appended. *)
Theorem resample_truncates_dimensions `{PIL.Codec}
    (scale : Py.float) (processed : list positive) (im : positive)
    (image : PIL.Image) (w : App.World) (new_w new_h : Z) :
  Py.float_lt scale Py.lit_1_0 = true ->
  App.heap w !! im = Some image ->
  Spec.truncated_dimension (PIL.width image) scale = inr new_w ->
  Spec.truncated_dimension (PIL.height image) scale = inr new_h ->
  match PIL.im_data image with
  | inr _ =>
      exists l out w',
        Script.resample_one scale processed im w = (inr (processed ++ [l]), w')
        /\ App.heap w !! l = None
        /\ App.heap w' !! l = Some out
        /\ PIL.im_size out = (new_w, new_h)
        /\ PIL.im_mode out = PIL.im_mode image
        /\ App.heap w' !! im = Some image
  | inl e => Script.resample_one scale processed im w = (inl e, w)
  end.
Proof.
  intros Hs Him Hw Hh.
  apply truncated_scaled in Hw as (tw & Hw & ->).
  apply truncated_scaled in Hh as (th & Hh & ->).
  rewrite (resample_one_below scale processed im image w Hs Him).
  unfold resample_value. rewrite Hw, Hh. cbn [Py.and_then].
  destruct (PIL.im_data image) as [e | data]; [reflexivity | ]. cbn [Py.and_then].
  exists (fresh (dom (App.heap w))), (resized image tw th),
    (alloc w (resized image tw th)).
  split; [reflexivity | ].
  split; [apply RunFacts.fresh_unused | ].
  split; [apply alloc_lookup | ].
  split; [reflexivity | ]. split; [reflexivity | ].
  eapply RunFacts.evolves_lookup; [apply (RunFacts.tame_new _ w) | exact Him].
Qed.

(** The theorem on a 1000×800 bitmap at scale 0.5: the new bitmap is 500×400. *)
Lemma resample_truncates_dimensions_witness :
  let w := Toy.world [Toy.bitmap 1000 800] in
  exists l out w',
    @Script.resample_one Toy.codec Py.lit_0_5 [] 1%positive w = (inr ([] ++ [l]), w')
    /\ App.heap w !! l = None
    /\ App.heap w' !! l = Some out
    /\ PIL.im_size out = (500, 400)
    /\ PIL.im_mode out = PIL.im_mode (Toy.bitmap 1000 800)
    /\ App.heap w' !! 1%positive = Some (Toy.bitmap 1000 800).
Proof.
  intros w.
  apply (@resample_truncates_dimensions Toy.codec Py.lit_0_5 [] 1%positive
           (Toy.bitmap 1000 800) w 500 400).
  - reflexivity.
  - reflexivity.
  - vm_compute. reflexivity.
  - vm_compute. reflexivity.
Defined.

(** C1 as stated fails on a 7×7 bitmap at scale 0.25: [7 * 0.25] is 1.75,
    which rounds to 2, and the resized bitmap is 1×1. *)
Lemma resample_round_counterexample :
  let w := Toy.world [Toy.bitmap 7 7] in
  let run := @Script.resample_all Toy.codec [1%positive] Py.lit_0_25 w in
  Py.float_lt Py.lit_0_25 Py.lit_1_0 = true
  /\ Py.int_mul_float 7 Py.lit_0_25 = inr (S754_finite false 7881299347898368 (-52))
  /\ Spec.new_dimension 7 Py.lit_0_25 = inr 2
  /\ fst run = inr [2%positive]
  /\ PIL.im_size <$> App.heap (snd run) !! 2%positive = Some (1, 1).
Proof. vm_compute. repeat split. Qed.

(* ================================================================== *)
(** * The document assembler *)
(* ================================================================== *)

Section Assembler.
Import App Script RunFacts.
Context `{PIL.Codec}.

Lemma encode_frames_length fs resolution todo : forall k streams,
  encode_frames fs k todo resolution = inr streams -> length streams = length todo.
Proof.
  induction todo as [ | f rest IH]; intros k streams; simpl.
  - now intros [= <-].
  - destruct (PIL.fr_data f); [discriminate | ]. cbn [Py.and_then].
    destruct (PIL.encode_page _ resolution); [discriminate | ]. cbn [Py.and_then].
    destruct (encode_frames fs (S k) rest resolution) eqn:Hrest; [discriminate | ].
    cbn [Py.and_then]. intros [= <-]. simpl. f_equal. eapply IH; eauto.
Qed.

Lemma encode_pages_length resolution ims : forall streams,
  encode_pages ims resolution = inr streams -> length streams = length (all_frames ims).
Proof.
  unfold all_frames.
  induction ims as [ | im rest IH]; intros streams; simpl.
  - now intros [= <-].
  - destruct (encode_frames _ 0 _ resolution) as [e | ss] eqn:Hss; [discriminate | ].
    cbn [Py.and_then].
    destruct (encode_pages rest resolution) as [e | more]; [discriminate | ].
    cbn [Py.and_then]. intros [= <-].
    rewrite !length_app, (encode_frames_length _ _ _ _ _ Hss). f_equal. now apply IH.
Qed.

(** [write_frames] appends the pages of the frames in order and leaves the
    image on the last; an error stops it with the pages written so far,
    fewer than there are frames. *)
Lemma write_frames_spec fs resolution todo : forall k im fp,
  match encode_frames fs k todo resolution with
  | inr streams =>
      PIL.write_frames fs k todo im resolution fp
      = (inr tt, fp ++ zip_with (page_of resolution) todo streams,
         positioned fs k todo im)
  | inl e =>
      exists written im',
        PIL.write_frames fs k todo im resolution fp = (inl e, fp ++ written, im')
        /\ Forall is_page written /\ (length written < length todo)%nat
  end.
Proof.
  induction todo as [ | f rest IH]; intros k im fp; simpl.
  - now rewrite app_nil_r.
  - destruct (PIL.fr_data f) as [e | d]; cbn [Py.and_then].
    { exists [], (PIL.at_frame fs k f). rewrite app_nil_r.
      split; [reflexivity | split; [constructor | simpl; lia] ]. }
    destruct (PIL.encode_page (PIL.at_frame fs k f) resolution) as [e | s];
      cbn [Py.and_then].
    { exists [], (PIL.at_frame fs k f). rewrite app_nil_r.
      split; [reflexivity | split; [constructor | simpl; lia] ]. }
    specialize (IH (S k) (PIL.at_frame fs k f)
                  (fp ++ [PIL.PdfPage (PIL.fr_size f) resolution s])).
    destruct (encode_frames fs (S k) rest resolution) as [e | ss]; cbn [Py.and_then].
    + destruct IH as (written & im' & Hrun & Hpages & Hlen).
      exists (PIL.PdfPage (PIL.fr_size f) resolution s :: written), im'.
      rewrite Hrun, <- app_assoc.
      split; [reflexivity | split].
      * constructor; [unfold is_page; eauto | exact Hpages].
      * simpl. lia.
    + rewrite IH, <- app_assoc. reflexivity.
Qed.

Lemma zip_with_pages resolution fs : forall streams,
  Forall is_page (zip_with (page_of resolution) fs streams).
Proof.
  induction fs as [ | f rest IH]; intros [ | s ss]; simpl; constructor; auto.
  unfold is_page, page_of. eauto.
Qed.

Lemma zip_with_page_app resolution fs1 fs2 ss1 ss2 :
  length ss1 = length fs1 ->
  zip_with (page_of resolution) (fs1 ++ fs2) (ss1 ++ ss2)
  = zip_with (page_of resolution) fs1 ss1 ++ zip_with (page_of resolution) fs2 ss2.
Proof.
  revert ss1. induction fs1 as [ | f fs1 IH]; intros [ | s ss1] Hlen; simpl in *;
    try discriminate; [reflexivity | ].
  f_equal. apply IH. lia.
Qed.

(** [write_pages] appends the pages of every frame of every image, in order,
    and leaves each image on its last frame. *)
Lemma write_pages_spec resolution ims : forall fp,
  match encode_pages ims resolution with
  | inr streams =>
      PIL.write_pages ims resolution fp
      = (inr tt, fp ++ zip_with (page_of resolution) (all_frames ims) streams,
         map on_last_frame ims)
  | inl e =>
      exists written seeked,
        PIL.write_pages ims resolution fp = (inl e, fp ++ written, seeked)
        /\ Forall is_page written
        /\ (length written < length (all_frames ims))%nat
  end.
Proof.
  unfold all_frames.
  induction ims as [ | im rest IH]; intros fp; simpl.
  - now rewrite app_nil_r.
  - pose proof (write_frames_spec (PIL.frames im) resolution (PIL.frames im) 0 im fp)
      as Hone.
    destruct (encode_frames (PIL.frames im) 0 (PIL.frames im) resolution)
      as [e | ss] eqn:Hss; cbn [Py.and_then].
    + destruct Hone as (written & im' & -> & Hpages & Hlen).
      exists written, [im']. split; [reflexivity | ]. split; [exact Hpages | ].
      rewrite length_app. lia.
    + rewrite Hone. apply encode_frames_length in Hss.
      specialize (IH (fp ++ zip_with (page_of resolution) (PIL.frames im) ss)).
      destruct (encode_pages rest resolution) as [e | more]; cbn [Py.and_then].
      * destruct IH as (written & seeked & -> & Hpages & Hlen).
        exists (zip_with (page_of resolution) (PIL.frames im) ss ++ written),
          (on_last_frame im :: seeked).
        rewrite <- app_assoc. split; [reflexivity | ].
        split; [apply Forall_app; split; [apply zip_with_pages | exact Hpages] | ].
        rewrite !length_app, length_zip_with. lia.
      * rewrite IH, <- app_assoc, zip_with_page_app by exact Hss. reflexivity.
Qed.

Lemma pages_app fp1 fp2 : PIL.pages (fp1 ++ fp2) = PIL.pages fp1 ++ PIL.pages fp2.
Proof. unfold PIL.pages. apply omap_app. Qed.

Lemma pages_of_pages resolution fs : forall streams,
  length streams = length fs ->
  PIL.pages (zip_with (page_of resolution) fs streams)
  = map (fun f => (PIL.fr_size f, resolution)) fs.
Proof.
  induction fs as [ | f rest IH]; intros [ | s ss] Hlen; simpl in *;
    try discriminate; [reflexivity | ].
  unfold PIL.pages in *. csimpl. f_equal. apply IH. lia.
Qed.

(** [save] on an empty buffer: a complete file with one page per frame and
    every image left on its last frame, or an error and an incomplete
    buffer. *)
Lemma save_spec im append_images resolution :
  match encode_all (im :: append_images) resolution with
  | inr streams =>
      exists fp, PIL.save im [] append_images resolution
                 = (inr tt, fp, map on_last_frame (im :: append_images))
                 /\ PIL.complete fp
                 /\ PIL.pages fp = document_pages resolution (im :: append_images)
  | inl e =>
      exists fp seeked, PIL.save im [] append_images resolution = (inl e, fp, seeked)
                        /\ ~ PIL.complete fp
  end.
Proof.
  unfold PIL.save, encode_all.
  destruct (PIL.im_data im) as [e | d]; cbn [Py.and_then].
  { exists [], []. split; [reflexivity | ].
    intros (body & Heq & _). discriminate. }
  pose proof (write_pages_spec resolution (im :: append_images) ([] ++ [PIL.PdfHeader]))
    as Hw.
  destruct (encode_pages (im :: append_images) resolution) as [e | streams] eqn:Henc.
  - destruct Hw as (written & seeked & -> & Hpages & Hlen).
    exists ([] ++ [PIL.PdfHeader] ++ written), seeked.
    split; [now rewrite app_assoc | ].
    intros (body & Heq & Hbody). simpl in Heq. injection Heq as Heq.
    induction written as [ | last front _] using rev_ind.
    + destruct body; discriminate.
    + apply app_inj_tail in Heq as [_ ->].
      apply Forall_app in Hpages as [_ Hlast].
      inversion Hlast as [ | ? ? (sz & r & s & Hp) _]. discriminate.
  - rewrite Hw. eexists. split; [reflexivity | ].
    pose proof (encode_pages_length _ _ _ Henc) as Hlen.
    split.
    + exists (zip_with (page_of resolution) (all_frames (im :: append_images)) streams).
      split; [ | apply zip_with_pages].
      change ([] ++ [PIL.PdfHeader]) with [PIL.PdfHeader].
      cbn [app]. do 3 f_equal.
      rewrite length_zip_with. unfold PIL.n_pages. fold (all_frames (im :: append_images)).
      f_equal. lia.
    + change ([] ++ [PIL.PdfHeader]) with [PIL.PdfHeader].
      rewrite !pages_app, pages_of_pages by exact Hlen.
      change (PIL.pages [PIL.PdfHeader]) with (@nil (Z * Z * Z)).
      change (PIL.pages [PIL.PdfTrailer (PIL.n_pages (im :: append_images))])
        with (@nil (Z * Z * Z)).
      now rewrite app_nil_r.
Qed.

(** ** Images of one frame *)

Lemma single_frame_frames im : single_frame im -> PIL.frames im = [PIL.current im].
Proof. intros [Hb Ha]. unfold PIL.frames. now rewrite Hb, Ha. Qed.

Lemma single_frame_at im : single_frame im -> PIL.at_frame [PIL.current im] 0 (PIL.current im) = im.
Proof. destruct im. intros [Hb Ha]. simpl in *. subst. reflexivity. Qed.

Lemma single_frame_stays im : single_frame im -> on_last_frame im = im.
Proof.
  intros Hone. unfold on_last_frame. rewrite (single_frame_frames im Hone).
  simpl. now apply single_frame_at.
Qed.

Lemma single_frames_stay ims : Forall single_frame ims -> map on_last_frame ims = ims.
Proof.
  induction 1 as [ | im ims Hone _ IH]; simpl; [reflexivity | ].
  now rewrite (single_frame_stays im Hone), IH.
Qed.

Lemma single_frames_pages resolution ims :
  Forall single_frame ims ->
  document_pages resolution ims = map (fun im => (PIL.im_size im, resolution)) ims.
Proof.
  unfold document_pages, all_frames.
  induction 1 as [ | im ims Hone _ IH]; simpl; [reflexivity | ].
  rewrite (single_frame_frames im Hone). simpl. now rewrite IH.
Qed.

(** ** The frame [save] leaves an image on *)

Lemma positioned_last fs : forall todo done im,
  fs = done ++ todo -> todo <> [] ->
  exists f, last todo = Some f
            /\ positioned fs (length done) todo im = PIL.at_frame fs (length fs - 1) f.
Proof.
  induction todo as [ | f rest IH]; intros done im Hfs Hne; [contradiction | ].
  destruct rest as [ | g rest'].
  - exists f. split; [reflexivity | ]. simpl.
    rewrite Hfs, length_app. simpl. do 2 f_equal. lia.
  - destruct (IH (done ++ [f]) (PIL.at_frame fs (length done) f)) as (l & Hl & Hpos).
    + rewrite Hfs, <- app_assoc. reflexivity.
    + discriminate.
    + exists l. split; [exact Hl | ].
      rewrite length_app in Hpos. simpl in Hpos.
      replace (length done + 1)%nat with (S (length done)) in Hpos by lia.
      exact Hpos.
Qed.

(** It is the last frame of the file, and the file has the frames it had. *)
Lemma on_last_frame_spec im :
  PIL.frames (on_last_frame im) = PIL.frames im
  /\ PIL.im_after (on_last_frame im) = []
  /\ Some (PIL.current (on_last_frame im)) = last (PIL.frames im).
Proof.
  unfold on_last_frame.
  destruct (positioned_last (PIL.frames im) (PIL.frames im) [] im eq_refl)
    as (f & Hlast & Hpos).
  { unfold PIL.frames. destruct (PIL.im_before im); discriminate. }
  change (length []) with 0%nat in Hpos. rewrite Hpos.
  rewrite last_lookup in Hlast.
  replace (pred (length (PIL.frames im))) with (length (PIL.frames im) - 1)%nat
    in Hlast by lia.
  assert (forall fs n, PIL.current (PIL.at_frame fs n f) = f) as Hcur
      by (intros fs n; destruct f; reflexivity).
  split; [ | split].
  - unfold PIL.frames at 1. rewrite Hcur. cbn [PIL.at_frame PIL.im_before PIL.im_after].
    apply take_drop_middle. exact Hlast.
  - cbn [PIL.at_frame PIL.im_after]. apply drop_ge.
    apply lookup_lt_Some in Hlast. lia.
  - rewrite last_lookup, Hcur.
    replace (pred (length (PIL.frames im))) with (length (PIL.frames im) - 1)%nat by lia.
    now rewrite Hlast.
Qed.

Lemma in_memory_single size mode data : single_frame (PIL.in_memory size mode data).
Proof. split; reflexivity. Qed.

(** Every image has a frame, so a document has a page per image or more. *)
Lemma document_pages_length resolution ims :
  (length ims <= length (document_pages resolution ims))%nat.
Proof.
  unfold document_pages, all_frames. rewrite length_map.
  induction ims as [ | im ims IH]; simpl; [lia | ].
  rewrite length_app. unfold PIL.frames at 1. rewrite length_app. simpl. lia.
Qed.

(** Encoding one-frame images is encoding each. *)
Lemma encode_all_single resolution ims streams :
  Forall single_frame ims ->
  Forall (fun im => exists d, PIL.im_data im = inr d) ims ->
  Forall2 (fun im s => PIL.encode_page im resolution = inr s) ims streams ->
  encode_all ims resolution = inr streams.
Proof.
  intros Hone Hload Henc.
  assert (encode_pages ims resolution = inr streams) as Hpages.
  { induction Henc as [ | im s ims' ss Hs _ IH]; [reflexivity | ].
    inversion Hone as [ | ? ? Him Hone']; subst.
    inversion Hload as [ | ? ? [d Hd] Hload']; subst.
    simpl. rewrite (single_frame_frames im Him). simpl.
    cbn [PIL.current PIL.fr_data]. rewrite Hd. cbn [Py.and_then].
    rewrite (single_frame_at im Him), Hs. cbn [Py.and_then].
    rewrite (IH Hone' Hload'). reflexivity. }
  unfold encode_all. destruct ims as [ | first rest]; [exact Hpages | ].
  inversion Hload as [ | ? ? [d Hd] _]; subst. rewrite Hd. exact Hpages.
Qed.

End Assembler.

Section AssemblerRuns.
Import App Script RunFacts.
Context `{PIL.Codec}.

Lemma get_all_holds refs ims w : holds w refs ims -> get_all refs w = (inr ims, w).
Proof.
  induction 1 as [ | l im refs ims Hl _ IH]; simpl; [reflexivity | ].
  rewrite (bind_inr _ _ _ _ _ (get_some l w im Hl)).
  rewrite (bind_inr _ _ _ _ _ IH). reflexivity.
Qed.

Lemma get_all_inv refs w r w' :
  get_all refs w = (r, w') ->
  w' = w /\ match r with
            | inr ims => holds w refs ims
            | inl e => e = Py.SystemError "reference to no object"
            end.
Proof.
  revert r w'. induction refs as [ | l refs IH]; intros r w'; simpl.
  - unfold ret. intros [= <- <-]. split; [reflexivity | constructor].
  - unfold bind at 1, get at 1.
    destruct (heap w !! l) as [im | ] eqn:Hl; [ | intros [= <- <-]; auto].
    unfold bind at 1.
    destruct (get_all refs w) as [[e | ims] w1] eqn:Hrest;
      destruct (IH _ _ eq_refl) as [-> Hims].
    + intros [= <- <-]. auto.
    + unfold ret. intros [= <- <-]. split; [reflexivity | ]. constructor; auto.
Qed.

Lemma put_all_run refs : forall ims w, put_all refs ims w = (inr tt, moved w refs ims).
Proof.
  induction refs as [ | l refs IH]; intros [ | im ims] w; simpl;
    try (unfold ret, moved; destruct w; reflexivity).
  unfold bind, put. rewrite IH. unfold moved. reflexivity.
Qed.

(** Putting back the objects that are there changes nothing. *)
Lemma moved_same w refs ims : holds w refs ims -> moved w refs ims = w.
Proof.
  intros Hholds. unfold moved.
  assert (foldl (fun h item => <[fst item := snd item]> h) (heap w) (zip refs ims)
          = heap w) as ->; [ | destruct w; reflexivity].
  induction Hholds as [ | l im refs ims Hl _ IH]; simpl; [reflexivity | ].
  rewrite insert_id by exact Hl. exact IH.
Qed.

(** References to read are all that can go wrong before [save] runs; the
    objects [save] went through are put back as it left them. *)
Lemma assemble_run processed dpi w :
  assemble processed dpi w =
    match processed with
    | [] => (inl (Py.IndexError "list index out of range"), w)
    | first :: rest =>
        match get_all (first :: rest) w with
        | (inr (im :: ims), _) =>
            let '(r, fp, seeked) := PIL.save im [] ims dpi in
            (match r with inl e => inl e | inr _ => inr fp end,
             moved w (first :: rest) seeked)
        | _ => (inl (Py.SystemError "reference to no object"), w)
        end
    end.
Proof.
  unfold assemble. destruct processed as [ | first rest]; [reflexivity | ].
  unfold Py.index, Py.slice_from_1.
  change (drop 1 (first :: rest)) with rest.
  change ((first :: rest) !! 0%nat) with (Some first).
  unfold bind at 1, lift at 1. unfold Image_save.
  cbn [get_all]. unfold bind, get, ret, lift.
  destruct (heap w !! first) as [im | ]; [ | reflexivity].
  destruct (get_all rest w) as [[e | ims] w1] eqn:Hrest;
    destruct (get_all_inv _ _ _ _ Hrest) as [-> Hims].
  - subst e. reflexivity.
  - destruct (PIL.save im [] ims dpi) as [[r fp] seeked].
    rewrite put_all_run. destruct r as [e | []]; reflexivity.
Qed.

Lemma assemble_holds first rest dpi w im ims :
  holds w (first :: rest) (im :: ims) ->
  assemble (first :: rest) dpi w =
    let '(r, fp, seeked) := PIL.save im [] ims dpi in
    (match r with inl e => inl e | inr _ => inr fp end,
     moved w (first :: rest) seeked).
Proof.
  intros Hholds. rewrite assemble_run, (get_all_holds _ _ _ Hholds). reflexivity.
Qed.

(** The assembler on the images behind its references: a complete document
    of one page per frame, or the first error of [save]. *)
Lemma assemble_spec processed ims dpi w :
  processed <> [] -> holds w processed ims ->
  match encode_all ims dpi with
  | inr _ =>
      exists fp,
        assemble processed dpi w = (inr fp, moved w processed (map on_last_frame ims))
        /\ PIL.complete fp
        /\ PIL.pages fp = document_pages dpi ims
  | inl e =>
      exists seeked, assemble processed dpi w = (inl e, moved w processed seeked)
  end.
Proof.
  intros Hne Hholds.
  destruct Hholds as [ | first im rest ims' Hfirst Hrest]; [congruence | ].
  assert (holds w (first :: rest) (im :: ims')) as Hholds by (constructor; auto).
  rewrite (assemble_holds _ _ dpi _ _ _ Hholds).
  pose proof (save_spec im ims' dpi) as Hsave.
  destruct (encode_all (im :: ims') dpi) as [e | streams].
  - destruct Hsave as (fp & seeked & -> & _). eauto.
  - destruct Hsave as (fp & -> & Hcomplete & Hpages). eauto.
Qed.

End AssemblerRuns.

(** C2 (amended).  For every non-empty sequence of image objects and every
    resolution value, when the pixels of every frame load and encode, the
    assembler returns one buffer holding a complete document with one page
    per frame: the images in input order, the frames of an image in file
    order, each page of the size of its frame and tagged with the
    resolution, so at least one page per image; the images are left on
    their last frame, their frames as they were.  For images of one frame,
    as every resized or converted bitmap is, that is exactly one page per
    bitmap, and the world stays as it was.  Otherwise the assembler raises the first error of a
    frame and returns no buffer.  One-frame bitmaps that load and encode
    one by one do make the assembler return. *)
Theorem assemble_one_page_per_frame `{PIL.Codec}
    (processed : list positive) (ims : list PIL.Image) (dpi : Z) (w : App.World) :
  processed <> [] ->
  holds w processed ims ->
  match encode_all ims dpi with
  | inr _ =>
      exists fp,
        Script.assemble processed dpi w
          = (inr fp, moved w processed (map on_last_frame ims))
        /\ PIL.complete fp
        /\ PIL.pages fp = document_pages dpi ims
        /\ (length processed <= length (PIL.pages fp))%nat
        /\ (Forall single_frame ims ->
              Script.assemble processed dpi w = (inr fp, w)
              /\ PIL.pages fp = map (fun im => (PIL.im_size im, dpi)) ims
              /\ length (PIL.pages fp) = length processed)
  | inl e =>
      exists w', Script.assemble processed dpi w = (inl e, w')
                 /\ App.screen w' = App.screen w
  end
  /\ (forall streams,
        Forall single_frame ims ->
        Forall (fun im => exists d, PIL.im_data im = inr d) ims ->
        Forall2 (fun im s => PIL.encode_page im dpi = inr s) ims streams ->
        encode_all ims dpi = inr streams)
  /\ (forall im,
        PIL.frames (on_last_frame im) = PIL.frames im
        /\ PIL.im_after (on_last_frame im) = []
        /\ Some (PIL.current (on_last_frame im)) = last (PIL.frames im)).
Proof.
  intros Hne Hholds.
  split; [ | split; [intros streams; apply encode_all_single | apply on_last_frame_spec] ].
  pose proof (assemble_spec processed ims dpi w Hne Hholds) as Hspec.
  destruct (encode_all ims dpi) as [e | streams].
  - destruct Hspec as (seeked & ->). eexists. split; reflexivity.
  - destruct Hspec as (fp & Hrun & Hcomplete & Hpages).
    exists fp. split; [exact Hrun | ]. split; [exact Hcomplete | ].
    split; [exact Hpages | ].
    pose proof (Forall2_length _ _ _ Hholds) as Hlen.
    split.
    + rewrite Hpages, Hlen. apply document_pages_length.
    + intros Hone. rewrite Hrun, (single_frames_stay ims Hone).
      rewrite (moved_same w processed ims Hholds).
      split; [reflexivity | ].
      rewrite Hpages, (single_frames_pages dpi ims Hone).
      split; [reflexivity | ]. now rewrite length_map.
Qed.

(** The theorem on three bitmaps at 300 DPI. *)
Lemma assemble_one_page_per_frame_witness :
  let ims := [Toy.bitmap 30 10; Toy.bitmap 20 20; Toy.bitmap 10 30] in
  let processed := [1%positive; 2%positive; 3%positive] in
  exists fp,
    @Script.assemble Toy.codec processed 300 (Toy.world ims) = (inr fp, Toy.world ims)
    /\ PIL.complete fp
    /\ PIL.pages fp = [((30, 10), 300); ((20, 20), 300); ((10, 30), 300)].
Proof.
  intros ims processed.
  destruct (@assemble_one_page_per_frame Toy.codec processed ims 300 (Toy.world ims))
    as [(fp & _ & Hcomplete & _ & _ & Hone) _].
  - discriminate.
  - repeat constructor.
  - destruct Hone as (Hrun & Hpages & _); [repeat constructor | ].
    exists fp. split; [exact Hrun | ]. split; [exact Hcomplete | exact Hpages].
Defined.

(** C2 as stated fails on an image of several frames: one RGB image of
    three frames gives a document of three pages, and the same file
    uploaded alone and converted at High is offered as three pages.  It
    also fails when the encoder refuses a page: no buffer is returned. *)
Lemma assemble_multiframe_counterexample :
  let image := Toy.stack (4, 6) [(6, 4); (4, 6)] in
  let session := {| St.uploaded_files := [Toy.three_pages Byte.x04 Byte.x06 "a.tiff"];
                    St.radio_picked := None; St.button_pressed := true |} in
  (exists fp w',
     @Script.assemble Toy.codec [1%positive] 300 (Toy.world [image]) = (inr fp, w')
     /\ PIL.im_mode image = "RGB"
     /\ PIL.pages fp = [((4, 6), 300); ((6, 4), 300); ((4, 6), 300)])
  /\ (exists before fp w',
        @Script.main Toy.codec session Script.initial = (inr tt, w')
        /\ App.screen w' = before ++ offer "High" fp
        /\ length (@decoded Toy.codec (St.uploaded_files session)) = 1%nat
        /\ PIL.pages fp = [((4, 6), 300); ((6, 4), 300); ((4, 6), 300)])
  /\ fst (@Script.assemble Toy.codec [1%positive] 300
            (Toy.world [PIL.in_memory (2, 2) "RGB" [Byte.xff]]))
     = inl (Py.OSError "encoder error").
Proof.
  intros image session. split; [ | split].
  - do 2 eexists. split; [vm_compute; reflexivity | ]. split; reflexivity.
  - exists (firstn 8 (App.screen (snd (@Script.main Toy.codec session Script.initial)))).
    do 2 eexists. split; [vm_compute; reflexivity | ].
    split; [vm_compute; reflexivity | ]. split; reflexivity.
  - vm_compute. reflexivity.
Qed.

Section Conversion.
Import App Script RunFacts.
Context `{PIL.Codec}.

Lemma resample_loop_length scale images : forall processed w refs w',
  for_each images (resample_one scale) processed w = (inr refs, w') ->
  length refs = (length processed + length images)%nat.
Proof.
  induction images as [ | im images IH]; intros processed w refs w'; simpl.
  - unfold ret. intros [= <- <-]. lia.
  - unfold bind. rewrite resample_one_run.
    destruct (Py.float_lt scale Py.lit_1_0).
    + destruct (heap w !! im) as [image | ]; [ | discriminate].
      destruct (scaled (PIL.width image) scale); [discriminate | ].
      destruct (scaled (PIL.height image) scale); [discriminate | ].
      destruct (PIL.im_data image); [discriminate | ].
      intros Hrun. apply IH in Hrun. rewrite Hrun, length_app. simpl. lia.
    + intros Hrun. apply IH in Hrun. rewrite Hrun, length_app. simpl. lia.
Qed.

Lemma save_ok_complete im ims dpi fp seeked :
  PIL.save im [] ims dpi = (inr tt, fp, seeked) ->
  PIL.complete fp /\ PIL.pages fp = document_pages dpi (im :: ims).
Proof.
  intros Hsave. pose proof (save_spec im ims dpi) as Hspec.
  destruct (encode_all (im :: ims) dpi) as [e | streams].
  - destruct Hspec as (fp' & seeked' & Hrun & _). congruence.
  - destruct Hspec as (fp' & Hrun & Hcomplete & Hpages).
    rewrite Hsave in Hrun. injection Hrun as <-.
    split; [exact Hcomplete | exact Hpages].
Qed.

Lemma save_err_incomplete im ims dpi e fp seeked :
  PIL.save im [] ims dpi = (inl e, fp, seeked) -> ~ PIL.complete fp.
Proof.
  intros Hsave. pose proof (save_spec im ims dpi) as Hspec.
  destruct (encode_all (im :: ims) dpi) as [e' | streams].
  - destruct Hspec as (fp' & seeked' & Hrun & Hinc). congruence.
  - destruct Hspec as (fp' & Hrun & _). congruence.
Qed.

Lemma convert_to_pdf_run images scale dpi quality_label w :
  convert_to_pdf images scale dpi quality_label w =
    match resample_all images scale w with
    | (inl e, w1) => (inr tt, rendered w1 (St.error ("Conversion failed: " +:+ Py.str e)))
    | (inr processed, w1) =>
        match assemble processed dpi w1 with
        | (inl e, w2) =>
            (inr tt, rendered w2 (St.error ("Conversion failed: " +:+ Py.str e)))
        | (inr fp, w2) =>
            (inr tt, {| heap := heap w2; registry := registry w2;
                        screen := screen w2 ++ offer quality_label fp |})
        end
    end.
Proof.
  unfold convert_to_pdf, try_except. unfold bind at 1.
  destruct (resample_all images scale w) as [[e | processed] w1]; [reflexivity | ].
  unfold bind at 1.
  destruct (assemble processed dpi w1) as [[e | fp] w2]; [reflexivity | ].
  unfold bind, render, rendered, offer. simpl. rewrite <- app_assoc. reflexivity.
Qed.

Lemma resample_all_screen images scale w :
  screen (snd (resample_all images scale w)) = screen w.
Proof.
  unfold resample_all. generalize (@nil loc). revert w.
  induction images as [ | im images IH]; intros w processed; simpl; [reflexivity | ].
  unfold bind. rewrite resample_one_run.
  destruct (Py.float_lt scale Py.lit_1_0).
  - destruct (heap w !! im) as [image | ]; [ | reflexivity].
    destruct (scaled (PIL.width image) scale); [reflexivity | ].
    destruct (scaled (PIL.height image) scale); [reflexivity | ].
    destruct (PIL.im_data image); [reflexivity | ].
    rewrite IH. reflexivity.
  - apply IH.
Qed.

(** The assembler renders nothing. *)
Lemma assemble_screen processed dpi w : screen (snd (assemble processed dpi w)) = screen w.
Proof.
  rewrite assemble_run. destruct processed as [ | first rest]; [reflexivity | ].
  destruct (get_all (first :: rest) w) as [[e | [ | im ims]] w1]; try reflexivity.
  destruct (PIL.save im [] ims dpi) as [[r fp] seeked]. reflexivity.
Qed.

Lemma holds_length w images ims : holds w images ims -> length images = length ims.
Proof. apply Forall2_length. Qed.

(** The resize loop on a working set, by its values. *)
Lemma resample_all_values scale images originals w :
  holds w images originals ->
  exists w', evolves w w' /\ screen w' = screen w /\
    match processed_values scale originals with
    | inl e => resample_all images scale w = (inl e, w')
    | inr outs =>
        exists refs, resample_all images scale w = (inr refs, w')
                     /\ holds w' refs outs
    end.
Proof.
  intros Hholds. unfold processed_values.
  destruct (Py.float_lt scale Py.lit_1_0) eqn:Hlt.
  - destruct (resample_loop_below scale images originals [] w Hlt Hholds)
      as (w' & Hev & Hloop).
    exists w'. split; [exact Hev | ].
    pose proof (resample_all_screen images scale w) as Hscr.
    unfold resample_all in *.
    destruct (resample_values scale originals) as [e | outs].
    + rewrite Hloop in Hscr. split; [exact Hscr | exact Hloop].
    + destruct Hloop as (news & Hloop & Hnews & _).
      rewrite Hloop in Hscr. split; [exact Hscr | ].
      exists news. split; [exact Hloop | exact Hnews].
  - exists w. split; [reflexivity | ]. split; [reflexivity | ].
    exists images. split; [ | exact Hholds].
    unfold resample_all. now rewrite resample_loop_pass.
Qed.

Lemma resample_values_length scale originals outs :
  resample_values scale originals = inr outs -> length outs = length originals.
Proof.
  intros Hv. symmetry. eapply Forall2_length. apply resample_values_Forall2. exact Hv.
Qed.

Lemma processed_values_length scale originals outs :
  processed_values scale originals = inr outs -> length outs = length originals.
Proof.
  unfold processed_values. destruct (Py.float_lt scale Py.lit_1_0).
  - apply resample_values_length.
  - now intros [= <-].
Qed.

(** What the resize loop returns below 1.0 are bitmaps of one frame. *)
Lemma resample_values_single scale originals outs :
  resample_values scale originals = inr outs -> Forall single_frame outs.
Proof.
  intros Hv. apply resample_values_Forall2 in Hv.
  induction Hv as [ | image out images outs' Hout _ IH]; constructor; [ | exact IH].
  apply resample_value_inv in Hout as (nw & nh & d & _ & _ & _ & ->).
  apply in_memory_single.
Qed.

(** The handler of lines 98-130 on a working set, by its values. *)
Lemma convert_to_pdf_values images originals scale dpi quality_label w :
  holds w images originals -> originals <> [] ->
  exists w',
    convert_to_pdf images scale dpi quality_label w = (inr tt, w') /\
    match (let? outs := processed_values scale originals in
           let? _ := encode_all outs dpi in inr outs) with
    | inl e => screen w' = screen w ++ [St.error ("Conversion failed: " +:+ Py.str e)]
    | inr outs =>
        exists fp, screen w' = screen w ++ offer quality_label fp
                   /\ PIL.complete fp
                   /\ PIL.pages fp = document_pages dpi outs
    end.
Proof.
  intros Hholds Hne. rewrite convert_to_pdf_run.
  destruct (resample_all_values scale images originals w Hholds)
    as (w1 & Hev & Hscr & Hloop).
  pose proof (processed_values_length scale originals) as Hlen.
  destruct (processed_values scale originals) as [e | outs]; cbn [Py.and_then].
  - rewrite Hloop. eexists. split; [reflexivity | ].
    cbn [rendered screen]. now rewrite Hscr.
  - destruct Hloop as (refs & -> & Hrefs).
    specialize (Hlen outs eq_refl).
    assert (refs <> []) as Hrefs_ne.
    { intros ->. inversion Hrefs; subst. destruct originals; [contradiction | discriminate]. }
    pose proof (assemble_spec refs outs dpi w1 Hrefs_ne Hrefs) as Hasm.
    destruct (encode_all outs dpi) as [e | streams]; cbn [Py.and_then].
    + destruct Hasm as (seeked & ->).
      eexists. split; [reflexivity | ].
      cbn [rendered screen moved]. now rewrite Hscr.
    + destruct Hasm as (fp & -> & Hcomplete & Hpages).
      eexists. split; [reflexivity | ].
      exists fp. cbn [screen moved]. rewrite Hscr. auto.
Qed.

End Conversion.

(** C5.  An empty sequence makes the assembler raise, and the handler then
    reports the failure and offers nothing.  Whatever the bitmaps, a
    conversion ends in one of two ways: the page gains the success message
    and a download whose data is a complete document, with a page per input
    bitmap or more, or it gains a single error message and no download.
    On a working set the first failure of a resize, of the pixels of a
    frame or of a page decides which: without one, the document offered
    has every frame of every bitmap.  A buffer [save] leaves behind when it
    raises is never complete. *)
Theorem convert_all_or_nothing `{PIL.Codec}
    (images : list positive) (scale : Py.float) (dpi : Z)
    (quality_label : string) (w : App.World) :
  Script.assemble [] dpi w = (inl (Py.IndexError "list index out of range"), w)
  /\ Script.convert_to_pdf [] scale dpi quality_label w
     = (inr tt, rendered w (St.error "Conversion failed: list index out of range"))
  /\ (exists w',
        Script.convert_to_pdf images scale dpi quality_label w = (inr tt, w')
        /\ ((exists e, App.screen w'
                       = App.screen w ++ [St.error ("Conversion failed: " +:+ Py.str e)])
            \/ (exists fp, App.screen w' = App.screen w ++ offer quality_label fp
                           /\ PIL.complete fp
                           /\ (length images <= length (PIL.pages fp))%nat)))
  /\ (forall originals,
        holds w images originals -> originals <> [] ->
        exists w',
          Script.convert_to_pdf images scale dpi quality_label w = (inr tt, w')
          /\ match (let? outs := processed_values scale originals in
                    let? _ := encode_all outs dpi in inr outs) with
             | inl e =>
                 App.screen w'
                 = App.screen w ++ [St.error ("Conversion failed: " +:+ Py.str e)]
             | inr outs =>
                 exists fp, App.screen w' = App.screen w ++ offer quality_label fp
                            /\ PIL.complete fp
                            /\ PIL.pages fp = document_pages dpi outs
             end)
  /\ (forall im ims e fp seeked,
        PIL.save im [] ims dpi = (inl e, fp, seeked) -> ~ PIL.complete fp).
Proof.
  split; [reflexivity | ].
  split.
  { rewrite convert_to_pdf_run. reflexivity. }
  split; [ | split; [intros originals; apply convert_to_pdf_values
                    | intros im ims e fp seeked; apply save_err_incomplete] ].
  rewrite convert_to_pdf_run.
  pose proof (resample_all_screen images scale w) as Hscr.
  destruct (Script.resample_all images scale w) as [[e | processed] w1] eqn:Hres;
    cbn [snd] in Hscr.
  { eexists. split; [reflexivity | ]. left. exists e. simpl. rewrite Hscr; reflexivity. }
  apply resample_loop_length in Hres. cbn [length Nat.add] in Hres.
  pose proof (assemble_screen processed dpi w1) as Hscr2.
  rewrite assemble_run in *.
  destruct processed as [ | first rest].
  { eexists. split; [reflexivity | ]. left.
    exists (Py.IndexError "list index out of range"). simpl. rewrite Hscr; reflexivity. }
  destruct (Script.get_all (first :: rest) w1) as [[e | [ | im ims]] w1'] eqn:Hget;
    try (eexists; split; [reflexivity | ]; left;
         exists (Py.SystemError "reference to no object"); simpl;
         rewrite Hscr; reflexivity).
  apply get_all_inv in Hget as [-> Hholds].
  destruct (PIL.save im [] ims dpi) as [[[e | []] fp] seeked] eqn:Hsave;
    cbn [snd] in Hscr2.
  { eexists. split; [reflexivity | ]. left. exists e. cbn [rendered App.screen].
    rewrite Hscr2, Hscr. reflexivity. }
  apply save_ok_complete in Hsave as [Hcomplete Hpages].
  eexists. split; [reflexivity | ]. right. exists fp. cbn [App.screen].
  split; [rewrite Hscr2, Hscr; reflexivity | ]. split; [exact Hcomplete | ].
  rewrite Hpages, <- Hres, (holds_length _ _ _ Hholds).
  apply document_pages_length.
Qed.

(* ================================================================== *)
(** * Rounding to binary64

    What [binary_round_aux] computes, as arithmetic on integers: the
    mantissa is shifted right until it fits 53 digits (or the exponent
    reaches the smallest one), rounded to nearest with ties to even, and
    shifted once more if the rounding carried. *)
(* ================================================================== *)

Module Rounding.
Import Py.

(** ** Digits *)

Lemma digits2_pos_bounds p :
  2 ^ (Zpos (digits2_pos p) - 1) <= Zpos p < 2 ^ Zpos (digits2_pos p).
Proof.
  induction p as [p IH | p IH | ]; cbn [digits2_pos].
  - rewrite Pos2Z.inj_succ.
    replace (Z.succ (Z.pos (digits2_pos p)) - 1) with (Z.succ (Z.pos (digits2_pos p) - 1)) by lia.
    rewrite !Z.pow_succ_r by lia. lia.
  - rewrite Pos2Z.inj_succ.
    replace (Z.succ (Z.pos (digits2_pos p)) - 1) with (Z.succ (Z.pos (digits2_pos p) - 1)) by lia.
    rewrite !Z.pow_succ_r by lia. lia.
  - simpl. lia.
Qed.

Lemma Zdigits2_bounds m : 0 < m -> 2 ^ (Zdigits2 m - 1) <= m < 2 ^ Zdigits2 m.
Proof. destruct m as [ | p | p]; try lia. intros _. apply digits2_pos_bounds. Qed.

Lemma Zdigits2_pos m : 0 < m -> 0 < Zdigits2 m.
Proof. destruct m; simpl; lia. Qed.

Lemma Zdigits2_le m k : 0 < m -> 0 <= k -> m < 2 ^ k -> Zdigits2 m <= k.
Proof.
  intros Hm Hk Hlt. pose proof (Zdigits2_bounds m Hm) as [Hlo _].
  pose proof (Zdigits2_pos m Hm).
  destruct (Z.le_gt_cases (Zdigits2 m) k) as [ | Hgt]; [assumption | ].
  assert (2 ^ k <= 2 ^ (Zdigits2 m - 1)) by (apply Z.pow_le_mono_r; lia). lia.
Qed.

Lemma Zdigits2_gt m k : 0 <= k -> 2 ^ k <= m -> k < Zdigits2 m.
Proof.
  intros Hk Hle.
  assert (0 < m) as Hm by (pose proof (Z.pow_pos_nonneg 2 k); lia).
  pose proof (Zdigits2_bounds m Hm) as [_ Hhi].
  destruct (Z.lt_ge_cases k (Zdigits2 m)) as [ | Hge]; [assumption | ].
  assert (2 ^ Zdigits2 m <= 2 ^ k) by (apply Z.pow_le_mono_r; lia). lia.
Qed.

(** ** Iteration *)

Lemma iter_pos_nat {A} (f : A -> A) p x :
  SpecFloat.iter_pos f p x = Nat.iter (Pos.to_nat p) f x.
Proof.
  revert x. induction p as [p IH | p IH | ]; intros x; cbn [SpecFloat.iter_pos].
  - rewrite !IH, Pos2Nat.inj_xI.
    replace (S (2 * Pos.to_nat p)) with (Pos.to_nat p + (Pos.to_nat p + 1))%nat by lia.
    rewrite !Nat.iter_add. reflexivity.
  - rewrite !IH, Pos2Nat.inj_xO.
    replace (2 * Pos.to_nat p)%nat with (Pos.to_nat p + Pos.to_nat p)%nat by lia.
    rewrite Nat.iter_add. reflexivity.
  - reflexivity.
Qed.

(** ** Shifting right, with the rounding bit and the sticky bit *)

Lemma shifted_0 m : 0 <= m -> shifted 0 m (Build_shr_record m false false).
Proof. intros Hm. split; [exact Hm | ]. exists 0. simpl. repeat split; lia. Qed.

Lemma shifted_step k m mrs : 0 <= k -> shifted k m mrs -> shifted (k + 1) m (shr_1 mrs).
Proof.
  intros Hk (Hq & t & Ht & Heq & Hs).
  destruct mrs as [q r s]. cbn [shr_m shr_r shr_s] in *.
  assert (2 ^ (k + 1) = 2 * 2 ^ k) as Hpow by (rewrite Z.pow_add_r by lia; lia).
  assert (0 < 2 ^ k) as Hpos by (apply Z.pow_pos_nonneg; lia).
  assert (forall q' b, 0 <= q' -> q = 2 * q' + Z.b2z b ->
            shifted (k + 1) m (Build_shr_record q' b (r || s))) as Hgen.
  { intros q' b Hq' Hqb. split; [exact Hq' | ].
    exists (Z.b2z r * 2 ^ k + t). cbn [shr_m shr_r shr_s]. rewrite Hpow.
    split; [destruct r; cbn [Z.b2z]; lia | ].
    split; [subst q; lia | ].
    rewrite Hs. destruct r; cbn [Z.b2z orb].
    - symmetry. apply negb_true_iff, Z.eqb_neq. lia.
    - replace (0 * 2 ^ k + t) with t by lia. reflexivity. }
  destruct q as [ | [p | p | ] | p]; cbn [shr_1]; try lia.
  - apply (Hgen 0 false); simpl; lia.
  - apply (Hgen (Zpos p) true); simpl; lia.
  - apply (Hgen (Zpos p) false); simpl; lia.
  - apply (Hgen 0 true); simpl; lia.
Qed.

Lemma shifted_iter (n : nat) m :
  0 <= m -> shifted (Z.of_nat n) m (Nat.iter n shr_1 (Build_shr_record m false false)).
Proof.
  intros Hm. induction n as [ | n IH].
  - apply shifted_0, Hm.
  - rewrite Nat2Z.inj_succ, <- Z.add_1_r. cbn [Nat.iter].
    apply shifted_step; [lia | exact IH].
Qed.

Lemma shifted_quotient k m mrs :
  0 <= k -> shifted k m mrs ->
  shr_m mrs = m / 2 ^ k
  /\ round_nearest_even (shr_m mrs) (loc_of_shr_record mrs) = round_shift m k.
Proof.
  intros Hk (Hq & t & Ht & Heq & Hs).
  destruct mrs as [q r s]. cbn [shr_m shr_r shr_s] in *.
  assert (0 < 2 ^ k) as Hpos by (apply Z.pow_pos_nonneg; lia).
  set (rem := m - q * 2 ^ k).
  assert (2 * rem = Z.b2z r * 2 ^ k + t) as Hrem by (unfold rem; lia).
  assert (0 <= rem < 2 ^ k) as Hrange by (destruct r; cbn [Z.b2z] in Hrem; lia).
  assert (m = q * 2 ^ k + rem) as Hm by (unfold rem; lia).
  assert (q = m / 2 ^ k /\ rem = m mod 2 ^ k) as [Hdiv Hmod].
  { split; [apply (Z.div_unique_pos m (2 ^ k) q rem) | apply (Z.mod_unique_pos m (2 ^ k) q rem)];
      lia. }
  split; [exact Hdiv | ].
  unfold round_shift. rewrite <- Hdiv, <- Hmod, Hrem.
  destruct r, s; cbn [Z.b2z]; cbn [loc_of_shr_record round_nearest_even];
    symmetry in Hs; first [apply negb_true_iff, Z.eqb_neq in Hs | apply negb_false_iff, Z.eqb_eq in Hs].
  - destruct (Z.compare_spec (1 * 2 ^ k + t) (2 ^ k)); first [lia | reflexivity].
  - destruct (Z.compare_spec (1 * 2 ^ k + t) (2 ^ k)); first [lia | reflexivity].
  - destruct (Z.compare_spec (0 * 2 ^ k + t) (2 ^ k)); first [lia | reflexivity].
  - destruct (Z.compare_spec (0 * 2 ^ k + t) (2 ^ k)); first [lia | reflexivity].
Qed.

Lemma shr_exact_spec m e n :
  0 <= m ->
  let k := Z.max 0 n in
  let '(mrs, e') := shr (Build_shr_record m false false) e n in
  e' = e + k
  /\ shr_m mrs = m / 2 ^ k
  /\ round_nearest_even (shr_m mrs) (loc_of_shr_record mrs) = round_shift m k.
Proof.
  intros Hm k. unfold shr. destruct n as [ | p | p].
  - subst k. simpl Z.max. split; [lia | ].
    apply (shifted_quotient 0 m); [lia | apply shifted_0, Hm].
  - subst k. rewrite Z.max_r by lia. split; [reflexivity | ].
    rewrite iter_pos_nat. apply shifted_quotient; [lia | ].
    rewrite <- positive_nat_Z. apply shifted_iter, Hm.
  - subst k. rewrite Z.max_l by lia. split; [lia | ].
    apply (shifted_quotient 0 m); [lia | apply shifted_0, Hm].
Qed.

(** ** Rounding a mantissa to the format *)

Lemma shr_fexp_exact_spec m e :
  0 <= m ->
  let k := shift_amount m e in
  let '(mrs, e') := shr_fexp prec emax m e loc_Exact in
  e' = e + k
  /\ shr_m mrs = m / 2 ^ k
  /\ round_nearest_even (shr_m mrs) (loc_of_shr_record mrs) = round_shift m k.
Proof. intros Hm. unfold shr_fexp, shift_amount. apply shr_exact_spec, Hm. Qed.

Lemma round_shift_nonneg m k : 0 <= m -> 0 <= k -> 0 <= round_shift m k.
Proof.
  intros Hm Hk. unfold round_shift.
  assert (0 < 2 ^ k) by (apply Z.pow_pos_nonneg; lia).
  assert (0 <= m / 2 ^ k) by (apply Z.div_pos; lia).
  destruct (2 * (m mod 2 ^ k) ?= 2 ^ k); [destruct (Z.even _) | | ]; lia.
Qed.

Lemma shift_amount_nonneg m e : 0 <= shift_amount m e.
Proof. unfold shift_amount. lia. Qed.

Lemma binary_round_aux_rounded sx m e :
  0 <= m ->
  binary_round_aux prec emax sx m e loc_Exact = float_of sx (rounded m e).
Proof.
  intros Hm. unfold binary_round_aux, rounded, float_of.
  pose proof (shr_fexp_exact_spec m e Hm) as H1.
  destruct (shr_fexp prec emax m e loc_Exact) as [mrs1 e1].
  destruct H1 as (-> & _ & ->).
  pose proof (round_shift_nonneg m (shift_amount m e) Hm (shift_amount_nonneg m e)) as Hm1.
  pose proof (shr_fexp_exact_spec _ (e + shift_amount m e) Hm1) as H2.
  destruct (shr_fexp prec emax _ (e + shift_amount m e) loc_Exact) as [mrs2 e2].
  destruct H2 as (-> & -> & _).
  reflexivity.
Qed.

(** ** Properties of the rounding *)

Lemma round_shift_cases m k :
  round_shift m k = m / 2 ^ k
  \/ (round_shift m k = m / 2 ^ k + 1 /\ 2 ^ k <= 2 * (m mod 2 ^ k)).
Proof.
  unfold round_shift.
  destruct (Z.compare_spec (2 * (m mod 2 ^ k)) (2 ^ k)) as [Heq | Hlt | Hgt].
  - destruct (Z.even (m / 2 ^ k)); [left; reflexivity | right; split; lia].
  - left; reflexivity.
  - right; split; lia.
Qed.

Lemma round_shift_0 m : round_shift m 0 = m.
Proof.
  unfold round_shift. rewrite Z.pow_0_r, Z.mod_1_r, Z.div_1_r. reflexivity.
Qed.

(** A number that fits [2^k]-units is an upper bound of what rounds up to
    it. *)
Lemma round_shift_le_aligned m k g :
  0 <= k -> m <= g * 2 ^ k -> round_shift m k <= g.
Proof.
  intros Hk Hle.
  assert (0 < 2 ^ k) as Hpos by (apply Z.pow_pos_nonneg; lia).
  pose proof (Z.div_mod m (2 ^ k) ltac:(lia)) as Hdm.
  pose proof (Z.mod_pos_bound m (2 ^ k) Hpos) as Hmod.
  assert (m / 2 ^ k <= g) as Hq by (apply Z.div_le_upper_bound; lia).
  unfold round_shift.
  destruct (Z.eq_dec (m / 2 ^ k) g) as [Heq | Hne].
  - assert (m mod 2 ^ k = 0) as -> by nia.
    destruct (Z.compare_spec (2 * 0) (2 ^ k)); lia.
  - destruct (2 * (m mod 2 ^ k) ?= 2 ^ k); [destruct (Z.even _) | | ]; lia.
Qed.

(** Below the midpoint above [g], rounding stays at or below [g]. *)
Lemma round_shift_below_half m k g :
  0 <= k -> 2 * m < (2 * g + 1) * 2 ^ k -> round_shift m k <= g.
Proof.
  intros Hk Hlt.
  assert (0 < 2 ^ k) as Hpos by (apply Z.pow_pos_nonneg; lia).
  pose proof (Z.div_mod m (2 ^ k) ltac:(lia)) as Hdm.
  pose proof (Z.mod_pos_bound m (2 ^ k) Hpos) as Hmod.
  assert (m / 2 ^ k <= g) as Hq by nia.
  unfold round_shift.
  destruct (Z.eq_dec (m / 2 ^ k) g) as [Heq | Hne].
  - assert (2 * (m mod 2 ^ k) < 2 ^ k) as Hhalf by nia.
    destruct (Z.compare_spec (2 * (m mod 2 ^ k)) (2 ^ k)); lia.
  - destruct (2 * (m mod 2 ^ k) ?= 2 ^ k); [destruct (Z.even _) | | ]; lia.
Qed.

Lemma fexp_ge_emin e : emin <= fexp prec emax e.
Proof. unfold fexp, emin, SpecFloat.emin. lia. Qed.

Lemma fexp_ge e : e - prec <= fexp prec emax e.
Proof. unfold fexp. lia. Qed.

(** The result of rounding is in the format. *)
Lemma rounded_canonical m e :
  0 <= m ->
  let '(m2, e2) := rounded m e in
  0 <= m2 /\ m2 < 2 ^ prec /\ emin <= e2.
Proof.
  intros Hm. unfold rounded.
  set (k := shift_amount m e). set (m1 := round_shift m k).
  set (e1 := e + k). set (k2 := shift_amount m1 e1).
  assert (0 <= k) by apply shift_amount_nonneg.
  assert (0 <= k2) by apply shift_amount_nonneg.
  assert (0 <= m1) as Hm1 by (apply round_shift_nonneg; assumption).
  assert (0 < 2 ^ k2) as Hpos by (apply Z.pow_pos_nonneg; lia).
  split; [apply Z.div_pos; lia | ].
  split.
  - destruct (Z.eq_dec m1 0) as [-> | Hne].
    + rewrite Z.div_0_l by lia. apply Z.pow_pos_nonneg; unfold prec; lia.
    + assert (0 < m1) as Hm1' by lia.
      pose proof (Zdigits2_bounds m1 Hm1') as [_ Hhi].
      pose proof (Zdigits2_pos m1 Hm1').
      apply Z.div_lt_upper_bound; [lia | ].
      rewrite <- Z.pow_add_r by (unfold prec; lia).
      eapply Z.lt_le_trans; [exact Hhi | ].
      apply Z.pow_le_mono_r; [lia | ].
      pose proof (fexp_ge (Zdigits2 m1 + e1)). unfold k2, shift_amount. lia.
  - pose proof (fexp_ge_emin (Zdigits2 m + e)). unfold e1, k, shift_amount. lia.
Qed.

(** A mantissa already in the format is not touched. *)
Lemma rounded_id m e : 0 < m -> m < 2 ^ prec -> emin <= e -> rounded m e = (m, e).
Proof.
  intros Hm Hlt He.
  assert (shift_amount m e = 0) as Hk.
  { unfold shift_amount, fexp. fold emin.
    pose proof (Zdigits2_le m prec Hm ltac:(unfold prec; lia) Hlt). lia. }
  unfold rounded. rewrite Hk, round_shift_0, Z.add_0_r, Hk, Z.pow_0_r, Z.div_1_r, Z.add_0_r.
  reflexivity.
Qed.

Lemma ulps_shift m e j : 0 <= j -> - bias <= e -> ulps (m * 2 ^ j) e = ulps m (e + j).
Proof.
  intros Hj He. unfold ulps.
  replace (e + j + bias) with (j + (e + bias)) by lia.
  rewrite (Z.pow_add_r 2 j (e + bias)) by lia. ring.
Qed.

Lemma ulps_mono m m' e : m <= m' -> ulps m e <= ulps m' e.
Proof.
  intros Hle. unfold ulps. apply Z.mul_le_mono_nonneg_r; [ | exact Hle].
  apply Z.pow_nonneg. lia.
Qed.

Lemma ulps_div m e j : 0 <= j -> - bias <= e -> 0 <= m -> ulps (m / 2 ^ j) (e + j) <= ulps m e.
Proof.
  intros Hj He Hm. rewrite <- ulps_shift by assumption. apply ulps_mono.
  assert (0 < 2 ^ j) as Hpos by (apply Z.pow_pos_nonneg; lia).
  pose proof (Z.mul_div_le m (2 ^ j) Hpos). lia.
Qed.

Lemma ulps_le_reflect m m' e : - bias <= e -> ulps m e <= ulps m' e -> m <= m'.
Proof.
  intros He. unfold ulps. intros Hle.
  assert (0 < 2 ^ (e + bias)) by (apply Z.pow_pos_nonneg; lia).
  nia.
Qed.

(** Truncation is below every integer the value is below. *)
Lemma shiftl_le_int m e d :
  0 <= m -> - bias <= e -> ulps m e <= ulps d 0 -> Z.shiftl m e <= d.
Proof.
  intros Hm He Hle. destruct (Z.le_gt_cases 0 e) as [Hpos | Hneg].
  - rewrite Z.shiftl_mul_pow2 by lia.
    replace (ulps m e) with (ulps (m * 2 ^ e) 0) in Hle.
    + eapply ulps_le_reflect; [ | exact Hle]. unfold bias; lia.
    + rewrite ulps_shift by (unfold bias; lia). f_equal.
  - rewrite <- (Z.opp_involutive e) at 1. rewrite Z.shiftl_opp_r.
    rewrite Z.shiftr_div_pow2 by lia.
    assert (0 < 2 ^ (- e)) by (apply Z.pow_pos_nonneg; lia).
    apply Z.div_le_upper_bound; [lia | ].
    replace (ulps d 0) with (ulps (d * 2 ^ (- e)) e) in Hle.
    + apply ulps_le_reflect in Hle; [lia | exact He].
    + rewrite ulps_shift by lia. f_equal. lia.
Qed.

Lemma shiftl_nonneg m e : 0 <= m -> 0 <= Z.shiftl m e.
Proof. intros Hm. apply Z.shiftl_nonneg. exact Hm. Qed.

(** ** A product with a float below one *)

(** Rounding [mf*2^ef * ms*2^es], with [ms*2^es < 1], does not exceed
    [mf*2^ef]. *)
Lemma product_rounds_below mf ef ms es :
  0 < mf < 2 ^ prec -> emin <= ef ->
  0 < ms < 2 ^ (- es) -> es < 0 -> - bias <= ef + es ->
  let '(m2, e2) := rounded (mf * ms) (ef + es) in
  0 <= m2 /\ - bias <= e2 /\ ulps m2 e2 <= ulps mf ef.
Proof.
  intros Hmf Hef Hms Hes Hb.
  pose proof (rounded_canonical (mf * ms) (ef + es) ltac:(nia)) as Hcan.
  unfold rounded in *.
  set (P := mf * ms) in *. set (E0 := ef + es) in *.
  set (k := shift_amount P E0) in *. set (m1 := round_shift P k) in *.
  set (e1 := E0 + k) in *. set (k2 := shift_amount m1 e1) in *.
  destruct Hcan as (Hm2 & _ & _).
  assert (0 <= k) as Hk by apply shift_amount_nonneg.
  assert (0 <= k2) as Hk2 by apply shift_amount_nonneg.
  assert (0 < P) as HP by (unfold P; nia).
  assert (0 < 2 ^ (- es)) as Hpes by (apply Z.pow_pos_nonneg; lia).
  assert (P < 2 ^ (prec - es)) as HPlt.
  { unfold P. replace (prec - es) with (prec + - es) by lia.
    rewrite Z.pow_add_r by (unfold prec; lia). nia. }
  assert (k <= - es) as Hkes.
  { unfold k, shift_amount, fexp. fold emin.
    pose proof (Zdigits2_le P (prec - es) HP ltac:(unfold prec; lia) HPlt).
    unfold E0. lia. }
  assert (m1 <= mf * 2 ^ (- es - k)) as Hm1.
  { apply round_shift_le_aligned; [exact Hk | ].
    rewrite <- Z.mul_assoc, <- Z.pow_add_r by lia.
    replace (- es - k + k) with (- es) by lia. unfold P. nia. }
  assert (0 <= m1) as Hm1' by (apply round_shift_nonneg; lia).
  split; [exact Hm2 | ]. split; [unfold e1, E0 in *; lia | ].
  etransitivity; [apply ulps_div; unfold e1; lia | ].
  etransitivity; [apply ulps_mono; exact Hm1 | ].
  rewrite ulps_shift by (unfold e1; lia).
  apply Z.eq_le_incl. f_equal. unfold e1, E0. lia.
Qed.

(** ** Conversions *)

Lemma iter_xO_pow p d : Zpos (Pos.iter xO p d) = Zpos p * 2 ^ Zpos d.
Proof.
  induction d as [ | d IH] using Pos.peano_ind.
  - simpl. lia.
  - rewrite Pos.iter_succ, Pos2Z.inj_xO, IH, Pos2Z.inj_succ, Z.pow_succ_r by lia. ring.
Qed.

Lemma shl_align_spec p e e' :
  let '(mz, ez) := shl_align p e e' in
  ez = Z.min e e' /\ Zpos mz = Zpos p * 2 ^ (e - ez).
Proof.
  unfold shl_align. destruct (e' - e) as [ | j | j] eqn:Hd.
  - split; [lia | ]. rewrite Z.sub_diag, Z.pow_0_r. lia.
  - split; [lia | ]. rewrite Z.sub_diag, Z.pow_0_r. lia.
  - split; [lia | ]. rewrite iter_xO_pow. f_equal. f_equal. lia.
Qed.

Lemma float_mul_finite mf ef ms es :
  SFmul prec emax (S754_finite false mf ef) (S754_finite false ms es)
  = float_of false (rounded (Zpos mf * Zpos ms) (ef + es)).
Proof.
  unfold SFmul. cbn [xorb]. rewrite binary_round_aux_rounded by lia. reflexivity.
Qed.

Lemma binary_normalize_pos p :
  binary_normalize prec emax (Zpos p) 0 false
  = float_of false (rounded (Zpos p * 2 ^ (- Z.min 0 (fexp prec emax (Zdigits2 (Zpos p)))))
                            (Z.min 0 (fexp prec emax (Zdigits2 (Zpos p))))).
Proof.
  unfold binary_normalize, binary_round.
  pose proof (shl_align_spec p 0 (fexp prec emax (Z.pos (digits2_pos p) + 0))) as Hal.
  destruct (shl_align p 0 _) as [mz ez]. destruct Hal as [Hez Hmz].
  rewrite binary_round_aux_rounded by lia.
  rewrite Z.add_0_r in Hez. cbn [Zdigits2].
  rewrite Hmz, Hez. rewrite Z.sub_0_l. reflexivity.
Qed.

(** An integer below [2^53] converts exactly. *)
Lemma binary_normalize_small d :
  1 <= d < 2 ^ prec ->
  exists mf ef,
    binary_normalize prec emax d 0 false = S754_finite false mf ef
    /\ 0 < Zpos mf < 2 ^ prec /\ emin <= ef <= 0
    /\ ulps (Zpos mf) ef = ulps d 0.
Proof.
  intros [Hlo Hhi]. destruct d as [ | p | p]; try lia.
  rewrite binary_normalize_pos.
  pose proof (Zdigits2_bounds (Zpos p) ltac:(lia)) as [Dlo Dhi].
  pose proof (Zdigits2_pos (Zpos p) ltac:(lia)) as Dpos.
  pose proof (Zdigits2_le (Zpos p) prec ltac:(lia) ltac:(unfold prec; lia) Hhi) as Dle.
  set (D := Zdigits2 (Zpos p)) in *.
  assert (fexp prec emax D = D - prec) as -> by (unfold fexp, SpecFloat.emin, prec, emax in *; lia).
  rewrite Z.min_r by lia.
  set (mz := Zpos p * 2 ^ (- (D - prec))).
  assert (0 < 2 ^ (- (D - prec))) as Hpow by (apply Z.pow_pos_nonneg; lia).
  assert (0 < mz) as Hmz by (unfold mz; nia).
  assert (mz < 2 ^ prec) as Hmz'.
  { unfold mz. replace prec with (D + - (D - prec)) at 2 by lia.
    rewrite Z.pow_add_r by lia. nia. }
  assert (emin <= D - prec) as Hemin by (unfold emin, SpecFloat.emin, prec, emax; lia).
  rewrite (rounded_id mz (D - prec) Hmz Hmz' Hemin).
  unfold float_of. cbn [fst snd].
  destruct mz as [ | q | q] eqn:Hq; try lia.
  assert ((D - prec <=? emax - prec) = true) as ->
    by (apply Z.leb_le; unfold emax, prec in *; lia).
  exists q, (D - prec). split; [reflexivity | ]. split; [lia | ].
  split; [lia | ].
  rewrite <- Hq. unfold mz. rewrite ulps_shift by (unfold bias, prec in *; lia).
  f_equal. lia.
Qed.

(** A float strictly between 0 and 1. *)
Lemma below_one_spec s :
  valid_binary prec emax s = true ->
  SFltb (S754_zero false) s = true ->
  SFltb s (S754_finite false 4503599627370496 (-52)) = true ->
  exists ms es, s = S754_finite false ms es
                /\ 0 < Zpos ms < 2 ^ prec /\ emin <= es <= - prec.
Proof.
  intros Hvalid Hpos Hlt.
  destruct s as [[] | [] | | [] ms es]; try discriminate.
  exists ms, es. split; [reflexivity | ].
  unfold valid_binary, bounded, canonical_mantissa in Hvalid.
  apply andb_prop in Hvalid as [Hcan _]. apply Z.eqb_eq in Hcan.
  pose proof (Zdigits2_bounds (Zpos ms) ltac:(lia)) as [Dlo Dhi].
  change (Z.pos (digits2_pos ms)) with (Zdigits2 (Zpos ms)) in Hcan.
  set (D := Zdigits2 (Zpos ms)) in *.
  unfold fexp in Hcan. fold emin in Hcan.
  assert (D <= prec) as HD by lia.
  assert (emin <= es) as Hemin by lia.
  assert (Zpos ms < 2 ^ prec) as Hms.
  { eapply Z.lt_le_trans; [exact Dhi | ]. apply Z.pow_le_mono_r; lia. }
  split; [lia | ]. split; [exact Hemin | ].
  unfold SFltb, SFcompare in Hlt.
  destruct (Z.compare_spec es (-52)) as [Heq | Hl | Hg]; try discriminate.
  - exfalso. subst es.
    rewrite Pos.compare_cont_spec in Hlt. cbn [Pos.switch_Eq] in Hlt.
    rewrite Pos2Z.inj_compare in Hlt.
    destruct (Z.compare_spec (Zpos ms) (Zpos 4503599627370496)) as [ | Hms52 | ];
      [discriminate Hlt | | discriminate Hlt].
    assert (D <= 52) as HD52.
    { apply Zdigits2_le; [lia | lia | ]. change (2 ^ 52) with 4503599627370496. lia. }
    unfold emin, SpecFloat.emin, prec, emax in *. lia.
  - unfold prec. lia.
Qed.

Lemma shift_amount_fits m e : 0 < m -> m < 2 ^ prec -> emin <= e -> shift_amount m e = 0.
Proof.
  intros Hm Hlt He. unfold shift_amount, fexp. fold emin.
  pose proof (Zdigits2_le m prec Hm ltac:(unfold prec; lia) Hlt). lia.
Qed.

Lemma shift_amount_carry e : emin <= e -> shift_amount (2 ^ prec) e = 1.
Proof.
  intros He. unfold shift_amount, fexp. fold emin.
  change (Zdigits2 (2 ^ prec)) with 54. unfold prec. lia.
Qed.

(** An integer of [D > 53] digits: the quotient by [2^(D-53)] has 53
    digits; it is kept or, from the midpoint on, increased by one. *)
Lemma binary_normalize_large d :
  2 ^ prec <= d ->
  let k := Zdigits2 d - prec in
  let q := d / 2 ^ k in
  exists m1 m2 e2,
    binary_normalize prec emax d 0 false = float_of false (m2, e2)
    /\ (1 <= k <= e2 /\ e2 <= k + 1) /\ m2 * 2 ^ (e2 - k) = m1 /\ 0 < m2 < 2 ^ prec
    /\ 2 ^ (prec - 1) <= q < 2 ^ prec
    /\ (m1 = q \/ (m1 = q + 1 /\ 2 ^ k <= 2 * (d mod 2 ^ k))).
Proof.
  intros Hd k q.
  assert (0 < 2 ^ prec) as Hp53 by (apply Z.pow_pos_nonneg; unfold prec; lia).
  destruct d as [ | p | p]; try lia.
  pose proof (Zdigits2_bounds (Zpos p) ltac:(lia)) as [Dlo Dhi].
  pose proof (Zdigits2_gt (Zpos p) prec ltac:(unfold prec; lia) Hd) as HD.
  rewrite binary_normalize_pos.
  fold k in Dlo, Dhi |- *.
  set (D := Zdigits2 (Zpos p)) in *.
  assert (k = D - prec) as Hk by reflexivity. clearbody k.
  assert (fexp prec emax D = k) as Hfexp
      by (unfold fexp, SpecFloat.emin, prec, emax in *; lia).
  rewrite Hfexp, Z.min_l by lia.
  change (- 0) with 0. rewrite Z.pow_0_r, Z.mul_1_r.
  unfold rounded.
  assert (shift_amount (Zpos p) 0 = k) as ->.
  { unfold shift_amount. rewrite Z.add_0_r. fold D. rewrite Hfexp. lia. }
  rewrite Z.add_0_l.
  assert (0 < 2 ^ k) as Hpk by (apply Z.pow_pos_nonneg; lia).
  assert (2 ^ (prec - 1) <= q < 2 ^ prec) as Hq.
  { unfold q. split.
    - apply Z.div_le_lower_bound; [lia | ].
      rewrite <- Z.pow_add_r by (unfold prec; lia).
      replace (k + (prec - 1)) with (D - 1) by lia. exact Dlo.
    - apply Z.div_lt_upper_bound; [lia | ].
      rewrite <- Z.pow_add_r by (unfold prec; lia).
      replace (k + prec) with D by lia. exact Dhi. }
  assert (emin <= k) as Hemin by (unfold emin, SpecFloat.emin, prec, emax in *; lia).
  pose proof (round_shift_cases (Zpos p) k) as Hcases. fold q in Hcases.
  remember (round_shift (Zpos p) k) as m1 eqn:Em1. clear Em1.
  assert (2 ^ (prec - 1) <= m1 <= 2 ^ prec) as Hm1 by lia.
  assert (0 < 2 ^ (prec - 1)) by (apply Z.pow_pos_nonneg; unfold prec; lia).
  destruct (Z.eq_dec m1 (2 ^ prec)) as [Hcarry | Hfit].
  - exists m1, (2 ^ (prec - 1)), (k + 1).
    rewrite Hcarry in Hcases |- *. rewrite shift_amount_carry by exact Hemin.
    split.
    { change (2 ^ prec / 2 ^ 1) with (2 ^ (prec - 1)). reflexivity. }
    split; [lia | ]. split.
    { replace (k + 1 - k) with 1 by lia. reflexivity. }
    split; [ | split; assumption].
    split; [lia | ]. apply Z.pow_lt_mono_r; unfold prec; lia.
  - exists m1, m1, k.
    rewrite shift_amount_fits by lia.
    rewrite Z.pow_0_r, Z.div_1_r, Z.add_0_r.
    split; [reflexivity | ]. split; [lia | ]. split.
    { rewrite Z.sub_diag, Z.pow_0_r. lia. }
    split; [lia | ]. split; assumption.
Qed.

(** The product with a float below one, when the integer was rounded up
    from its midpoint or above: the result is at most the 53-digit
    quotient. *)
Lemma product_rounds_below_pred mf ef ms es k q :
  0 < mf -> 0 <= k <= ef -> emin <= k ->
  mf * 2 ^ (ef - k) = q + 1 ->
  2 ^ (prec - 1) <= q < 2 ^ prec ->
  0 < ms < 2 ^ prec -> es <= - prec -> - bias <= ef + es ->
  let '(m2, e2) := rounded (mf * ms) (ef + es) in
  0 <= m2 /\ - bias <= e2 /\ ulps m2 e2 <= ulps q k.
Proof.
  intros Hmf Hk Hemin Hval Hq Hms Hes Hb.
  pose proof (rounded_canonical (mf * ms) (ef + es) ltac:(nia)) as Hcan.
  unfold rounded in *.
  set (P := mf * ms) in *. set (E0 := ef + es) in *.
  set (kp := shift_amount P E0) in *. set (m1 := round_shift P kp) in *.
  set (e1 := E0 + kp) in *. set (k2 := shift_amount m1 e1) in *.
  destruct Hcan as (Hm2 & _ & _).
  assert (0 <= kp) as Hkp by apply shift_amount_nonneg.
  assert (0 <= k2) as Hk2 by apply shift_amount_nonneg.
  assert (0 < P) as HP by (unfold P; nia).
  assert (0 <= m1) as Hm1' by (apply round_shift_nonneg; lia).
  assert (0 < 2 ^ (ef - k)) as Hpj by (apply Z.pow_pos_nonneg; lia).
  assert (0 < 2 ^ prec) as Hp53 by (apply Z.pow_pos_nonneg; unfold prec; lia).
  assert (2 ^ prec = 2 * 2 ^ (prec - 1)) as Hp52
      by (rewrite <- Z.pow_succ_r by (unfold prec; lia); f_equal; lia).
  (* the exponent of [f] is [k] or [k + 1] *)
  assert (ef - k <= prec) as Hefk.
  { destruct (Z.le_gt_cases (ef - k) prec) as [ | Hgt]; [assumption | ].
    assert (2 ^ prec < 2 ^ (ef - k)) by (apply Z.pow_lt_mono_r; unfold prec in *; lia).
    nia. }
  assert (E0 <= k) as HE0 by (unfold E0; lia).
  assert (0 < 2 ^ (k - E0)) as HpkE by (apply Z.pow_pos_nonneg; lia).
  assert (0 < 2 ^ (- es)) as Hpes by (apply Z.pow_pos_nonneg; lia).
  assert (2 ^ (k - E0) * 2 ^ (ef - k) = 2 ^ (- es)) as Hsplit.
  { rewrite <- Z.pow_add_r by lia. f_equal. unfold E0. lia. }
  assert (2 ^ prec <= 2 ^ (- es)) as Hes53 by (apply Z.pow_le_mono_r; lia).
  (* the exact product in units of [2^E0], against [q + 1/2] in units of [2^k] *)
  assert (2 * P < (2 * q + 1) * 2 ^ (k - E0)) as Hhalf.
  { apply Z.mul_lt_mono_pos_r with (p := 2 ^ (ef - k)); [exact Hpj | ].
    replace (2 * P * 2 ^ (ef - k)) with (2 * (q + 1) * ms) by (unfold P; rewrite <- Hval; ring).
    replace ((2 * q + 1) * 2 ^ (k - E0) * 2 ^ (ef - k)) with ((2 * q + 1) * 2 ^ (- es))
      by (rewrite <- Hsplit; ring).
    nia. }
  assert (e1 <= k) as He1.
  { unfold e1, kp, shift_amount, fexp. fold emin.
    assert (P < 2 ^ (prec + (k - E0))) as HPlt.
    { rewrite Z.pow_add_r by (unfold prec; lia). nia. }
    pose proof (Zdigits2_le P (prec + (k - E0)) HP ltac:(unfold prec; lia) HPlt). lia. }
  split; [exact Hm2 | ]. split; [unfold e1, E0 in *; lia | ].
  etransitivity; [apply ulps_div; unfold e1; lia | ].
  destruct (Z.eq_dec e1 k) as [Heq | Hne].
  - (* same binade: below the midpoint, so rounded down to at most [q] *)
    rewrite Heq. apply ulps_mono.
    apply round_shift_below_half; [exact Hkp | ].
    replace kp with (k - E0) by (unfold e1 in Heq; lia). exact Hhalf.
  - (* a lower binade: the product is below [2^52 * 2^k] *)
    assert (m1 <= q * 2 ^ (k - e1)) as Hm1.
    { apply round_shift_le_aligned; [exact Hkp | ].
      rewrite <- Z.mul_assoc, <- Z.pow_add_r by lia.
      replace (k - e1 + kp) with (k - E0) by (unfold e1; lia).
      assert (Zdigits2 P + E0 - prec <= e1) as Hdig
          by (unfold e1, kp, shift_amount, fexp; lia).
      pose proof (Zdigits2_bounds P HP) as [_ Dhi].
      assert (2 ^ Zdigits2 P <= 2 ^ (prec - 1 + (k - E0))) as Hpow
          by (apply Z.pow_le_mono_r; lia).
      rewrite Z.pow_add_r in Hpow by (unfold prec; lia). nia. }
    etransitivity; [apply ulps_mono; exact Hm1 | ].
    rewrite ulps_shift by (unfold e1, E0 in *; lia).
    apply Z.eq_le_incl. f_equal. lia.
Qed.

(** Nor does its exponent exceed that of [mf*2^ef]: the product of a
    float by a float below one does not overflow. *)
Lemma product_exponent_below mf ef ms es :
  0 < mf < 2 ^ prec -> emin <= ef ->
  0 < ms < 2 ^ (- es) -> es < 0 -> - bias <= ef + es ->
  snd (rounded (mf * ms) (ef + es)) <= ef.
Proof.
  intros Hmf Hef Hms Hes Hb.
  pose proof (product_rounds_below mf ef ms es Hmf Hef Hms Hes Hb) as Hprod.
  unfold rounded in *. cbn [snd].
  set (P := mf * ms) in *. set (E0 := ef + es) in *.
  set (k := shift_amount P E0) in *.
  pose proof (round_shift_cases P k) as Hcases.
  assert (0 <= round_shift P k) as Hm1
      by (apply round_shift_nonneg; [unfold P; nia | apply shift_amount_nonneg]).
  remember (round_shift P k) as m1 eqn:Em1. clear Em1.
  set (e1 := E0 + k) in *.
  assert (0 <= k) as Hk by apply shift_amount_nonneg.
  assert (0 < P) as HP by (unfold P; nia).
  assert (0 < 2 ^ (- es)) as Hpes by (apply Z.pow_pos_nonneg; lia).
  assert (0 < 2 ^ prec) as Hp53 by (apply Z.pow_pos_nonneg; unfold prec; lia).
  assert (0 < 2 ^ k) as Hpk by (apply Z.pow_pos_nonneg; lia).
  pose proof (Zdigits2_bounds P HP) as [_ Dhi].
  pose proof (Zdigits2_pos P HP) as Dpos.
  assert (P < 2 ^ (prec - es)) as HPlt.
  { unfold P. replace (prec - es) with (prec + - es) by lia.
    rewrite Z.pow_add_r by (unfold prec; lia). nia. }
  pose proof (Zdigits2_le P (prec - es) HP ltac:(unfold prec; lia) HPlt) as HD.
  assert (emin <= e1 <= ef /\ Zdigits2 P - prec <= k) as [He1 HkD].
  { unfold e1, k, shift_amount, fexp, E0. fold emin. lia. }
  assert (m1 <= 2 ^ prec) as Hm1le.
  { assert (P / 2 ^ k < 2 ^ prec); [ | lia].
    apply Z.div_lt_upper_bound; [lia | ].
    rewrite <- Z.pow_add_r by (unfold prec; lia).
    eapply Z.lt_le_trans; [exact Dhi | ]. apply Z.pow_le_mono_r; lia. }
  destruct (Z.eq_dec m1 (2 ^ prec)) as [Hcarry | Hfit].
  - subst m1. rewrite shift_amount_carry by lia.
    rewrite shift_amount_carry in Hprod by lia.
    destruct Hprod as (_ & _ & Hle).
    assert (e1 < ef); [ | lia].
    destruct (Z.lt_ge_cases e1 ef) as [ | Hge]; [assumption | exfalso].
    change (2 ^ prec / 2 ^ 1) with (2 ^ (prec - 1)) in Hle.
    assert (ulps mf ef < ulps (2 ^ prec) ef) as Hlt.
    { unfold ulps. apply Z.mul_lt_mono_pos_r; [apply Z.pow_pos_nonneg; unfold E0 in *; lia | lia]. }
    assert (ulps (2 ^ prec) ef <= ulps (2 ^ (prec - 1)) (e1 + 1)); [ | lia].
    unfold ulps. rewrite <- !Z.pow_add_r by (unfold prec, E0 in *; lia).
    apply Z.pow_le_mono_r; lia.
  - destruct (Z.eq_dec m1 0) as [-> | Hne].
    + assert (shift_amount 0 e1 = 0) as ->; [ | lia].
      unfold shift_amount, fexp. fold emin. cbn [Zdigits2]. unfold prec. lia.
    + rewrite shift_amount_fits by lia. lia.
Qed.

End Rounding.

(* ================================================================== *)
(** * Downscaling never enlarges *)
(* ================================================================== *)

Module Downscale.
Import Py Rounding.

Lemma int_of_float_float_of m e n :
  0 <= m -> int_of_float (float_of false (m, e)) = inr n -> n = Z.shiftl m e.
Proof.
  intros Hm. unfold float_of, int_of_float. cbn [fst snd].
  destruct m as [ | p | p]; try lia; cbn beta iota.
  - intros [= <-]. symmetry. apply Z.shiftl_0_l.
  - destruct (e <=? emax - prec); cbn beta iota; [ | discriminate]. now intros [= <-].
Qed.

Lemma float_of_inr sx m e f :
  0 < m ->
  (match float_of sx (m, e) with
   | S754_infinity _ => inl (OverflowError "int too large to convert to float")
   | f => inr f
   end) = inr f ->
  exists p, m = Zpos p /\ f = S754_finite sx p e /\ e <= emax - prec.
Proof.
  intros Hm. unfold float_of. cbn [fst snd].
  destruct m as [ | p | p]; try lia; cbn beta iota.
  destruct (Z.leb_spec e (emax - prec)); cbn beta iota; [ | discriminate].
  intros [= <-]. eauto.
Qed.

(** [int(d * s) <= d] for an integer [d >= 1] and a float [0 < s < 1]. *)
Lemma scaled_le d s n :
  1 <= d -> is_float64 s ->
  float_lt float_zero s = true -> float_lt s lit_1_0 = true ->
  scaled d s = inr n -> 0 <= n <= d.
Proof.
  intros Hd Hvalid Hpos Hlt. unfold scaled, int_mul_float, and_then.
  destruct (float_of_int d) as [e | f] eqn:Hf; [discriminate | ].
  unfold float_of_int in Hf.
  destruct (below_one_spec s Hvalid Hpos Hlt) as (ms & es & -> & Hms & Hes).
  assert (2 ^ prec <= 2 ^ (- es)) as Hpes by (apply Z.pow_le_mono_r; lia).
  assert (- bias <= emin + es) as Hbias
      by (unfold bias, emin, SpecFloat.emin, prec, emax in *; lia).
  destruct (Z.lt_ge_cases d (2 ^ prec)) as [Hsmall | Hlarge].
  - (* the dimension converts exactly *)
    destruct (binary_normalize_small d ltac:(lia)) as (mf & ef & Hbn & Hmf & Hef & Hval).
    rewrite Hbn in Hf. injection Hf as <-.
    unfold float_mul. rewrite float_mul_finite.
    pose proof (product_rounds_below (Zpos mf) ef (Zpos ms) es Hmf ltac:(lia)
                  ltac:(lia) ltac:(unfold prec in *; lia) ltac:(lia)) as Hprod.
    destruct (rounded (Zpos mf * Zpos ms) (ef + es)) as [m2 e2].
    destruct Hprod as (Hm2 & He2 & Hle).
    intros Hn. apply int_of_float_float_of in Hn; [ | exact Hm2]. subst n.
    split; [apply shiftl_nonneg, Hm2 | ].
    apply shiftl_le_int; [exact Hm2 | exact He2 | ]. now rewrite <- Hval.
  - (* the dimension is rounded to 53 digits *)
    destruct (binary_normalize_large d Hlarge)
      as (m1 & mf & ef & Hbn & Hk & Hm1 & Hmf & Hq & Hcases).
    set (k := Zdigits2 d - prec) in *. set (q := d / 2 ^ k) in *.
    assert (0 < 2 ^ k) as Hpk by (apply Z.pow_pos_nonneg; lia).
    assert (ulps q k <= ulps d 0) as Hqd.
    { replace (ulps q k) with (ulps (q * 2 ^ k) 0)
        by (rewrite ulps_shift by (unfold bias; lia); f_equal; lia).
      apply ulps_mono. pose proof (Z.mul_div_le d (2 ^ k) Hpk). unfold q. lia. }
    rewrite Hbn in Hf.
    apply float_of_inr in Hf as (pf & Hpf & -> & _); [ | lia].
    unfold float_mul. rewrite float_mul_finite, <- Hpf.
    assert (emin <= k) as Hemin by (unfold emin, SpecFloat.emin, prec, emax in *; lia).
    assert (ulps (rounded (mf * Zpos ms) (ef + es)).1 (rounded (mf * Zpos ms) (ef + es)).2
            <= ulps q k
            /\ 0 <= (rounded (mf * Zpos ms) (ef + es)).1
            /\ - bias <= (rounded (mf * Zpos ms) (ef + es)).2) as Hprod.
    { destruct Hcases as [Heq | [Heq Hup] ].
      - pose proof (product_rounds_below mf ef (Zpos ms) es Hmf ltac:(lia)
                      ltac:(lia) ltac:(unfold prec in *; lia) ltac:(lia)) as Hprod.
        destruct (rounded (mf * Zpos ms) (ef + es)) as [m2 e2]. cbn [fst snd].
        destruct Hprod as (Hm2 & He2 & Hle).
        split; [ | split; assumption].
        etransitivity; [exact Hle | ]. apply Z.eq_le_incl.
        rewrite <- Heq, <- Hm1. rewrite ulps_shift by (unfold bias; lia). f_equal. lia.
      - pose proof (product_rounds_below_pred mf ef (Zpos ms) es k q ltac:(lia)
                      ltac:(lia) Hemin ltac:(lia) Hq ltac:(lia) ltac:(lia) ltac:(lia))
          as Hprod.
        destruct (rounded (mf * Zpos ms) (ef + es)) as [m2 e2]. cbn [fst snd].
        tauto. }
    destruct (rounded (mf * Zpos ms) (ef + es)) as [m2 e2]. cbn [fst snd] in Hprod.
    destruct Hprod as (Hle & Hm2 & He2).
    intros Hn. apply int_of_float_float_of in Hn; [ | exact Hm2]. subst n.
    split; [apply shiftl_nonneg, Hm2 | ].
    apply shiftl_le_int; [exact Hm2 | exact He2 | ]. lia.
Qed.

(** The float of an integer [d >= 1] is positive and finite. *)
Lemma float_of_int_form d f :
  1 <= d -> float_of_int d = inr f ->
  exists mf ef, f = S754_finite false mf ef
                /\ 0 < Zpos mf < 2 ^ prec /\ emin <= ef <= emax - prec.
Proof.
  intros Hd. unfold float_of_int.
  destruct (Z.lt_ge_cases d (2 ^ prec)) as [Hsmall | Hlarge].
  - destruct (binary_normalize_small d ltac:(lia)) as (mf & ef & -> & Hmf & Hef & _).
    intros [= <-]. exists mf, ef. split; [reflexivity | ]. split; [exact Hmf | ].
    unfold emax, prec. lia.
  - destruct (binary_normalize_large d Hlarge)
      as (m1 & mf & ef & -> & Hk & _ & Hmf & _ & _).
    intros Hf. apply float_of_inr in Hf as (pf & -> & -> & Hef); [ | lia].
    exists pf, ef. split; [reflexivity | ]. split; [exact Hmf | ].
    unfold emin, SpecFloat.emin, prec, emax in *. lia.
Qed.

(** Integers below [2^1023] convert. *)
Lemma float_of_int_returns d : 0 <= d < 2 ^ (emax - 1) -> exists f, float_of_int d = inr f.
Proof.
  intros [Hlo Hhi]. unfold float_of_int.
  destruct (Z.eq_dec d 0) as [-> | Hne]; [eexists; reflexivity | ].
  destruct (Z.lt_ge_cases d (2 ^ prec)) as [Hsmall | Hlarge].
  - destruct (binary_normalize_small d ltac:(lia)) as (mf & ef & -> & _). eauto.
  - destruct (binary_normalize_large d Hlarge)
      as (m1 & mf & ef & -> & Hk & _ & Hmf & _ & _).
    pose proof (Zdigits2_le d (emax - 1) ltac:(lia) ltac:(unfold emax; lia) Hhi) as HD.
    unfold float_of. cbn [fst snd].
    destruct mf as [ | pf | pf]; try lia.
    assert ((ef <=? emax - prec) = true) as ->
        by (apply Z.leb_le; unfold emax, prec in *; lia).
    eauto.
Qed.

(** [int(d * s)] is defined whenever [float(d)] is. *)
Lemma scaled_returns d s f :
  1 <= d -> is_float64 s ->
  float_lt float_zero s = true -> float_lt s lit_1_0 = true ->
  float_of_int d = inr f -> exists n, scaled d s = inr n.
Proof.
  intros Hd Hvalid Hpos Hlt Hf. unfold scaled, int_mul_float, and_then. rewrite Hf.
  destruct (float_of_int_form d f Hd Hf) as (mf & ef & -> & Hmf & Hef).
  destruct (below_one_spec s Hvalid Hpos Hlt) as (ms & es & -> & Hms & Hes).
  assert (2 ^ prec <= 2 ^ (- es)) as Hpes by (apply Z.pow_le_mono_r; lia).
  assert (- bias <= ef + es) as Hbias
      by (unfold bias, emin, SpecFloat.emin, prec, emax in *; lia).
  unfold float_mul. rewrite float_mul_finite.
  pose proof (product_exponent_below (Zpos mf) ef (Zpos ms) es Hmf ltac:(lia)
                ltac:(lia) ltac:(unfold prec in *; lia) Hbias) as He2.
  pose proof (rounded_canonical (Zpos mf * Zpos ms) (ef + es) ltac:(lia)) as Hcan.
  destruct (rounded (Zpos mf * Zpos ms) (ef + es)) as [m2 e2].
  cbn [snd] in He2. destruct Hcan as (Hm2 & _ & _).
  unfold float_of, int_of_float. cbn [fst snd].
  destruct m2 as [ | p2 | p2]; try lia; cbn beta iota; [eauto | ].
  assert ((e2 <=? emax - prec) = true) as -> by (apply Z.leb_le; lia).
  eauto.
Qed.

End Downscale.

(** C10.  For every bitmap of width and height at least 1 and every float
    scale [s] with [0 < s < 1.0], each dimension [max(1, int(d * s))] is at
    most [d]: the resize step, whenever it returns, leaves a new bitmap no
    wider and no taller than its input (and at least 1×1).  Whenever the
    two dimensions convert to floats, the step returns if the pixels of the
    bitmap load and raises the error of the file if they do not. *)
Theorem downscale_never_enlarges `{PIL.Codec}
    (scale : Py.float) (processed : list positive) (im : positive)
    (image : PIL.Image) (w : App.World) :
  App.heap w !! im = Some image ->
  PIL.positive_size image ->
  Py.is_float64 scale ->
  Py.float_lt Py.float_zero scale = true ->
  Py.float_lt scale Py.lit_1_0 = true ->
  (forall d n, 1 <= d -> scaled d scale = inr n -> 1 <= Py.max_int 1 n <= d)
  /\ (forall processed' w',
        Script.resample_one scale processed im w = (inr processed', w') ->
        exists l out,
          processed' = processed ++ [l]
          /\ App.heap w' !! l = Some out
          /\ 1 <= PIL.width out <= PIL.width image
          /\ 1 <= PIL.height out <= PIL.height image)
  /\ (forall fw fh,
        Py.float_of_int (PIL.width image) = inr fw ->
        Py.float_of_int (PIL.height image) = inr fh ->
        match PIL.im_data image with
        | inr _ =>
            exists processed' w',
              Script.resample_one scale processed im w = (inr processed', w')
        | inl e => Script.resample_one scale processed im w = (inl e, w)
        end).
Proof.
  intros Him [Hw Hh] Hvalid Hpos Hlt.
  assert (forall d n, 1 <= d -> scaled d scale = inr n -> 1 <= Py.max_int 1 n <= d)
    as Hdim.
  { intros d n Hd Hn. rewrite max_int_max.
    pose proof (Downscale.scaled_le d scale n Hd Hvalid Hpos Hlt Hn). lia. }
  split; [exact Hdim | ].
  rewrite (resample_one_below scale processed im image w Hlt Him).
  unfold resample_value. split.
  - intros processed' w'.
    destruct (scaled (PIL.width image) scale) as [e | new_w] eqn:Hnw; [discriminate | ].
    destruct (scaled (PIL.height image) scale) as [e | new_h] eqn:Hnh; [discriminate | ].
    destruct (PIL.im_data image) as [e | data]; [discriminate | ].
    simpl. intros [= <- <-].
    exists (fresh (dom (App.heap w))), (resized image new_w new_h).
    split; [reflexivity | ]. split; [apply alloc_lookup | ].
    unfold resized, PIL.in_memory, PIL.width, PIL.height. cbn [PIL.im_size fst snd].
    rewrite <- !max_int_max. split; apply Hdim; assumption.
  - intros fw fh Hfw Hfh.
    destruct (Downscale.scaled_returns _ scale fw Hw Hvalid Hpos Hlt Hfw) as [nw ->].
    destruct (Downscale.scaled_returns _ scale fh Hh Hvalid Hpos Hlt Hfh) as [nh ->].
    destruct (PIL.im_data image) as [e | data]; simpl; eauto.
Qed.

(** The theorem on a 7×2 bitmap at scale 0.25: the new bitmap is 1×1. *)
Lemma downscale_never_enlarges_witness :
  let w := Toy.world [Toy.bitmap 7 2] in
  exists processed' w',
    @Script.resample_one Toy.codec Py.lit_0_25 [] 1%positive w = (inr processed', w').
Proof.
  intros w.
  refine (proj2 (proj2 (@downscale_never_enlarges Toy.codec Py.lit_0_25 [] 1%positive
                          (Toy.bitmap 7 2) w _ _ _ _ _)) _ _ _ _).
  - reflexivity.
  - split; vm_compute; discriminate.
  - reflexivity.
  - reflexivity.
  - reflexivity.
  - vm_compute. reflexivity.
  - vm_compute. reflexivity.
Defined.

(* ================================================================== *)
(** * End to end *)
(* ================================================================== *)

Section EndToEnd.
Import App Script RunFacts.
Context `{PIL.Codec}.

(** The three estimates, once the byte total has converted. *)
Lemma estimates_presets total t :
  Py.float_of_int total = inr t ->
  estimates_from QUALITY_PRESETS total ∅
  = inr (<["Low (72 DPI)" := Py.float_mul t Py.lit_0_25]>
           (<["Medium (150 DPI)" := Py.float_mul t Py.lit_0_5]>
              (<["High (300 DPI)" := Py.float_mul t Py.lit_1_0]> ∅))).
Proof.
  intros Ht. unfold QUALITY_PRESETS. cbn [estimates_from scale].
  unfold estimate_pdf_size.
  change (Py.max_float (Py.min_float Py.lit_1_0 Py.lit_1_0) Py.lit_0_05) with Py.lit_1_0.
  change (Py.max_float (Py.min_float Py.lit_0_5 Py.lit_1_0) Py.lit_0_05) with Py.lit_0_5.
  change (Py.max_float (Py.min_float Py.lit_0_25 Py.lit_1_0) Py.lit_0_05) with Py.lit_0_25.
  unfold Py.int_mul_float. rewrite Ht. reflexivity.
Qed.

Lemma show_estimate_run (estimates : gmap string Py.float) label e w :
  estimates !! label = Some e ->
  show_estimate estimates label w
  = (inr tt, rendered (rendered w (St.caption label))
               (megabytes (Py.float_div e mebi))).
Proof.
  intros He. unfold show_estimate, bind, render, lift, Py.getitem_map. rewrite He.
  change (Py.float_div_int e (1024 * 1024)) with (@inr Py.exn _ (Py.float_div e mebi)).
  reflexivity.
Qed.

Lemma with_estimates_evolves w t : evolves w (with_estimates w t).
Proof.
  unfold with_estimates, rendered. cbn [fold_left fst snd heap registry screen].
  split; [reflexivity | ]. split; [reflexivity | ].
  rewrite <- !app_assoc. now apply prefix_app_r.
Qed.

(** With Medium picked, the button pressed and an image loaded, the rest of
    the script is the conversion at scale 0.5 and 150 DPI. *)
Lemma after_presets_medium session images total t w :
  St.radio_picked session = Some 1%nat ->
  St.button_pressed session = true ->
  images <> [] ->
  registry w = QUALITY_PRESETS ->
  Py.float_of_int total = inr t ->
  after_presets session images total w
  = convert_to_pdf images Py.lit_0_5 150 "Medium" (with_estimates w t).
Proof.
  intros Hpick Hpress Himages Hreg Ht. unfold after_presets.
  unfold bind at 1. unfold read_QUALITY_PRESETS at 1. rewrite Hreg.
  unfold bind at 1, lift at 1. rewrite (estimates_presets total t Ht).
  erewrite bind_inr by (apply show_estimate_run; reflexivity).
  erewrite bind_inr by (apply show_estimate_run; reflexivity).
  erewrite bind_inr by (apply show_estimate_run; reflexivity).
  match goal with |- _ ?x = _ => change x with (with_estimates w t) end.
  assert (registry (with_estimates w t) = QUALITY_PRESETS) as Hreg'.
  { destruct (with_estimates_evolves w t) as (_ & -> & _). exact Hreg. }
  unfold bind at 1. unfold read_QUALITY_PRESETS at 1. rewrite Hreg'.
  rewrite Hpick, Hpress.
  unfold bind at 1, lift at 1.
  change (St.radio (Py.keys QUALITY_PRESETS) 0 (Some 1%nat))
    with (@inr Py.exn _ "Medium (150 DPI)").
  cbn beta iota.
  unfold bind at 1. unfold read_QUALITY_PRESETS at 1. rewrite Hreg'.
  unfold bind at 1, lift at 1.
  change (Py.getitem QUALITY_PRESETS "Medium (150 DPI)")
    with (@inr Py.exn _ {| scale := Py.lit_0_5; dpi := 150 |}).
  cbn beta iota. cbn [scale dpi].
  unfold bind at 1, lift at 1.
  change (Py.index (Py.split "Medium (150 DPI)") 0)
    with (@inr Py.exn _ "Medium").
  cbn beta iota.
  rewrite bool_decide_eq_false_2 by exact Himages.
  unfold bind at 1, ret at 1. reflexivity.
Qed.

End EndToEnd.

(** C9.  Two uploaded files that open as 100×100 RGB images whose pixels
    load, Medium (150 DPI) picked and the button pressed: the run ends
    normally and the last widgets it renders are the success message and a
    download whose data is a complete document of exactly two pages, each
    50×50 with resolution 150 (the files are below 2^63 bytes and the page
    encoder accepts the two resized bitmaps). *)
Theorem two_images_medium_two_pages `{PIL.Codec}
    (f1 f2 : St.UploadedFile) (im1 im2 : PIL.Image) (d1 d2 s1 s2 : PIL.bytes) :
  PIL.decode (St.contents f1) = inr im1 ->
  PIL.decode (St.contents f2) = inr im2 ->
  PIL.im_size im1 = (100, 100) -> PIL.im_mode im1 = "RGB" ->
  PIL.im_size im2 = (100, 100) -> PIL.im_mode im2 = "RGB" ->
  PIL.im_data im1 = inr d1 -> PIL.im_data im2 = inr d2 ->
  0 <= St.size f1 < 2 ^ 63 -> 0 <= St.size f2 < 2 ^ 63 ->
  PIL.encode_page (resized im1 50 50) 150 = inr s1 ->
  PIL.encode_page (resized im2 50 50) 150 = inr s2 ->
  let session := {| St.uploaded_files := [f1; f2];
                    St.radio_picked := Some 1%nat;
                    St.button_pressed := true |} in
  exists before fp w',
    Script.main session Script.initial = (inr tt, w')
    /\ App.screen w' = before ++ offer "Medium" fp
    /\ PIL.complete fp
    /\ PIL.pages fp = [ ((50, 50), 150); ((50, 50), 150) ].
Proof.
  intros Hd1 Hd2 Hsz1 Hmode1 Hsz2 Hmode2 Hdata1 Hdata2 Hbytes1 Hbytes2 Henc1 Henc2
    session.
  assert (normalised f1 = inr im1) as Hn1.
  { unfold normalised. rewrite (open_decoded _ _ im1 Hd1).
    - cbn [Py.and_then]. rewrite Hmode1. reflexivity.
    - unfold PIL.positive_size, PIL.width, PIL.height. rewrite Hsz1. cbn [fst snd]. lia. }
  assert (normalised f2 = inr im2) as Hn2.
  { unfold normalised. rewrite (open_decoded _ _ im2 Hd2).
    - cbn [Py.and_then]. rewrite Hmode2. reflexivity.
    - unfold PIL.positive_size, PIL.width, PIL.height. rewrite Hsz2. cbn [fst snd]. lia. }
  (* loading *)
  rewrite main_run.
  unfold App.bind at 1, App.render at 1. unfold App.bind at 1, App.render at 1.
  set (w2 := {| App.heap := _; App.registry := _; App.screen := _ |}).
  destruct (load_loop_spec [f1; f2] [] 0 w2) as (ls & w3 & Hload & Hholds & _ & Hscr & Hev).
  assert (Script.load_images (St.uploaded_files session) w2
          = (inr (ls, St.size f1 + (St.size f2 + 0)), w3)) as Hload'.
  { unfold Script.load_images, session. cbn [St.uploaded_files]. rewrite Hload.
    unfold loaded_bytes. cbn [foldr]. rewrite Hn1, Hn2. reflexivity. }
  unfold decoded in Hholds. cbn [omap list_omap] in Hholds. rewrite Hn1, Hn2 in Hholds.
  cbn [omap list_omap] in Hholds.
  rewrite (RunFacts.bind_inr _ _ _ _ _ Hload'). cbn [fst snd].
  (* the registry and the estimates *)
  unfold App.bind at 1, App.assign_QUALITY_PRESETS at 1.
  set (w4 := {| App.heap := App.heap w3; App.registry := Script.QUALITY_PRESETS;
                App.screen := App.screen w3 |}).
  destruct (Downscale.float_of_int_returns (St.size f1 + (St.size f2 + 0)))
    as [t Ht].
  { unfold Py.emax. split; [lia | ].
    apply Z.lt_le_trans with (2 ^ 64); [lia | ]. apply Z.pow_le_mono_r; lia. }
  assert (ls <> []) as Hls by (inversion Hholds; discriminate).
  rewrite (after_presets_medium session ls _ t w4 eq_refl eq_refl Hls eq_refl Ht).
  set (w5 := with_estimates w4 t).
  assert (holds w5 ls [im1; im2]) as Hholds5.
  { eapply holds_evolves; [apply with_estimates_evolves | ]. exact Hholds. }
  (* resizing *)
  assert (resample_values Py.lit_0_5 [im1; im2]
          = inr [resized im1 50 50; resized im2 50 50]) as Hvals.
  { unfold resample_values, resample_value, PIL.width, PIL.height.
    rewrite Hsz1, Hsz2, Hdata1, Hdata2. cbn [fst snd].
    change (scaled 100 Py.lit_0_5) with (@inr Py.exn _ 50). reflexivity. }
  rewrite convert_to_pdf_run.
  destruct (resample_loop_below Py.lit_0_5 ls [im1; im2] [] w5 eq_refl Hholds5)
    as (w6 & Hev6 & Hloop).
  rewrite Hvals in Hloop. destruct Hloop as (news & Hloop & Hnews & _).
  unfold Script.resample_all. rewrite Hloop. cbn [app].
  (* assembling *)
  assert (news <> []) as Hnews_ne by (inversion Hnews; discriminate).
  pose proof (assemble_spec news _ 150 w6 Hnews_ne Hnews) as Hasm.
  rewrite (encode_all_single 150 [resized im1 50 50; resized im2 50 50] [s1; s2])
    in Hasm.
  - destruct Hasm as (fp & -> & Hcomplete & Hpages).
    eexists _, fp, _. split; [reflexivity | ].
    split; [reflexivity | ]. split; [exact Hcomplete | ].
    rewrite Hpages. reflexivity.
  - repeat constructor.
  - repeat constructor; eexists; reflexivity.
  - repeat constructor; assumption.
Qed.

(** The theorem with the small codec. *)
Lemma two_images_medium_two_pages_witness :
  let session := {| St.uploaded_files := [Toy.rgb Byte.x64 Byte.x64 "a.png";
                                          Toy.rgb Byte.x64 Byte.x64 "b.png"];
                    St.radio_picked := Some 1%nat;
                    St.button_pressed := true |} in
  exists before fp w',
    @Script.main Toy.codec session Script.initial = (inr tt, w')
    /\ App.screen w' = before ++ offer "Medium" fp
    /\ PIL.complete fp
    /\ PIL.pages fp = [ ((50, 50), 150); ((50, 50), 150) ].
Proof.
  refine (@two_images_medium_two_pages Toy.codec
            (Toy.rgb Byte.x64 Byte.x64 "a.png") (Toy.rgb Byte.x64 Byte.x64 "b.png")
            (Toy.bitmap 100 100) (Toy.bitmap 100 100) [] [] [] []
            _ _ _ _ _ _ _ _ _ _ _ _);
    try reflexivity; split; vm_compute; congruence.
Defined.

(* ================================================================== *)
(** * The script as a whole *)
(* ================================================================== *)

Section WholeScript.
Import App Script RunFacts.
Context `{PIL.Codec}.

Lemma with_estimates_screen w t :
  screen (with_estimates w t) = screen w ++ estimate_widgets t.
Proof.
  unfold with_estimates, rendered, estimate_widgets.
  cbn [fold_left fst snd heap registry screen].
  rewrite <- !app_assoc. reflexivity.
Qed.

Lemma with_estimates_registry w t : registry (with_estimates w t) = registry w.
Proof. reflexivity. Qed.

(** Whatever the radio group holds, the choice is one of the three keys. *)
Lemma radio_selects picked :
  exists label preset word,
    St.radio (Py.keys QUALITY_PRESETS) 0 picked = inr label
    /\ Py.getitem QUALITY_PRESETS label = inr preset
    /\ Py.index (Py.split label) 0 = inr word
    /\ In (label, preset) QUALITY_PRESETS.
Proof.
  destruct picked as [[ | [ | [ | n]]] | ].
  - exists "High (300 DPI)", {| scale := Py.lit_1_0; dpi := 300 |}, "High".
    repeat split; try reflexivity. simpl. auto.
  - exists "Medium (150 DPI)", {| scale := Py.lit_0_5; dpi := 150 |}, "Medium".
    repeat split; try reflexivity. simpl. auto.
  - exists "Low (72 DPI)", {| scale := Py.lit_0_25; dpi := 72 |}, "Low".
    repeat split; try reflexivity. simpl. auto.
  - exists "High (300 DPI)", {| scale := Py.lit_1_0; dpi := 300 |}, "High".
    repeat split; try reflexivity. simpl. auto.
  - exists "High (300 DPI)", {| scale := Py.lit_1_0; dpi := 300 |}, "High".
    repeat split; try reflexivity. simpl. auto.
Qed.

(** The statements after the binding of the registry, once the byte total
    has converted: the estimates are shown, then the hint and the button. *)
Lemma after_presets_run session images total t label preset word w :
  registry w = QUALITY_PRESETS ->
  Py.float_of_int total = inr t ->
  St.radio (Py.keys QUALITY_PRESETS) 0 (St.radio_picked session) = inr label ->
  Py.getitem QUALITY_PRESETS label = inr preset ->
  Py.index (Py.split label) 0 = inr word ->
  after_presets session images total w
  = ((if bool_decide (images = [])
      then render (St.info "Upload at least one image to enable conversion.")
      else ret tt) ;;;
     if St.button (bool_decide (images = [])) (St.button_pressed session)
     then convert_to_pdf images (scale preset) (dpi preset) word
     else ret tt) (with_estimates w t).
Proof.
  intros Hreg Ht Hradio Hget Hword. unfold after_presets.
  unfold bind at 1. unfold read_QUALITY_PRESETS at 1. rewrite Hreg.
  unfold bind at 1, lift at 1. rewrite (estimates_presets total t Ht).
  erewrite bind_inr by (apply show_estimate_run; reflexivity).
  erewrite bind_inr by (apply show_estimate_run; reflexivity).
  erewrite bind_inr by (apply show_estimate_run; reflexivity).
  match goal with |- _ ?x = _ => change x with (with_estimates w t) end.
  unfold bind at 1. unfold read_QUALITY_PRESETS at 1.
  rewrite with_estimates_registry, Hreg.
  unfold bind at 1, lift at 1. rewrite Hradio. cbn beta iota.
  unfold bind at 1. unfold read_QUALITY_PRESETS at 1.
  rewrite with_estimates_registry, Hreg.
  unfold bind at 1, lift at 1. rewrite Hget. cbn beta iota.
  unfold bind at 1, lift at 1. rewrite Hword. cbn beta iota.
  reflexivity.
Qed.

(** When the byte total is too large for a float, line 58 raises and
    nothing is shown after the loader's diagnostics. *)
Lemma after_presets_overflow session images total e w :
  registry w = QUALITY_PRESETS ->
  Py.float_of_int total = inl e ->
  after_presets session images total w = (inl e, w).
Proof.
  intros Hreg He. unfold after_presets.
  unfold bind at 1. unfold read_QUALITY_PRESETS at 1. rewrite Hreg.
  unfold bind at 1, lift at 1.
  unfold QUALITY_PRESETS. cbn [estimates_from].
  unfold estimate_pdf_size at 1, Py.int_mul_float. rewrite He. reflexivity.
Qed.

(** [main] up to the binding of the registry. *)
Lemma main_loads session w :
  exists images w1,
    holds w1 images (decoded (St.uploaded_files session))
    /\ registry w1 = QUALITY_PRESETS
    /\ screen w1 = screen w ++ headings ++ diagnostics (St.uploaded_files session)
    /\ heap w ⊆ heap w1
    /\ main session w
       = after_presets session images (loaded_bytes (St.uploaded_files session)) w1.
Proof.
  rewrite main_run.
  unfold bind at 1, render at 1. unfold bind at 1, render at 1.
  set (w2 := {| heap := _; registry := _; screen := _ |}).
  destruct (load_loop_spec (St.uploaded_files session) [] 0 w2)
    as (ls & w3 & Hloop & Hholds & _ & Hscr & Hev).
  assert (load_images (St.uploaded_files session) w2
          = (inr (ls, loaded_bytes (St.uploaded_files session)), w3)) as Hload.
  { unfold load_images. destruct (St.uploaded_files session); [ | exact Hloop].
    simpl in Hloop. unfold ret in *. exact Hloop. }
  rewrite (bind_inr _ _ _ _ _ Hload). cbn [fst snd].
  unfold bind at 1, assign_QUALITY_PRESETS at 1.
  exists ls, {| heap := heap w3; registry := QUALITY_PRESETS; screen := screen w3 |}.
  split; [exact Hholds | ]. split; [reflexivity | ].
  split.
  { cbn [screen]. rewrite Hscr. unfold w2. cbn [screen].
    rewrite <- !app_assoc. reflexivity. }
  split; [ | reflexivity].
  cbn [heap]. destruct Hev as (Hh & _). exact Hh.
Qed.


Lemma unfailing_convert_to_pdf images scale dpi quality_label :
  unfailing (convert_to_pdf images scale dpi quality_label).
Proof.
  unfold convert_to_pdf. apply unfailing_try_except. intros e. apply unfailing_render.
Qed.



Lemma normalised_rgb f im : normalised f = inr im -> PIL.im_mode im = "RGB".
Proof.
  unfold normalised.
  destruct (PIL.open (St.contents f) (St.repr f)) as [e | im0]; [discriminate | ].
  cbn [Py.and_then].
  destruct (String.eqb (PIL.im_mode im0) "RGB") eqn:Hmode; cbn [negb].
  - intros [= <-]. now apply String.eqb_eq.
  - unfold PIL.convert.
    destruct (PIL.im_data im0); [discriminate | ]. cbn [Py.and_then].
    destruct (PIL.convert_data im0 "RGB"); [discriminate | ].
    cbn [Py.and_then]. now intros [= <-].
Qed.

(** Every bitmap of the working set is in mode RGB. *)
Lemma decoded_rgb files : Forall (fun im => PIL.im_mode im = "RGB") (decoded files).
Proof.
  induction files as [ | f files IH]; unfold decoded in *; csimpl; [constructor | ].
  destruct (normalised f) as [e | im] eqn:Hn; [exact IH | ].
  constructor; [eapply normalised_rgb; eauto | exact IH].
Qed.

Lemma resample_value_mode scale image out :
  resample_value scale image = inr out -> PIL.im_mode out = PIL.im_mode image.
Proof.
  intros Hv. apply resample_value_inv in Hv as (nw & nh & d & _ & _ & _ & ->).
  reflexivity.
Qed.

Lemma processed_values_mode scale mode originals outs :
  Forall (fun im => PIL.im_mode im = mode) originals ->
  processed_values scale originals = inr outs ->
  Forall (fun im => PIL.im_mode im = mode) outs.
Proof.
  unfold processed_values. destruct (Py.float_lt scale Py.lit_1_0); [ | now intros ? [= <-]].
  intros Hall Hv. apply resample_values_Forall2 in Hv.
  induction Hv as [ | image out images outs' Hout _ IH]; [constructor | ].
  inversion Hall; subst. constructor; [ | now apply IH].
  now rewrite (resample_value_mode _ _ _ Hout).
Qed.

End WholeScript.

Section WholeScriptRuns.
Import App Script RunFacts.
Context `{PIL.Codec}.

(** What is left of the script once the estimates are shown returns
    normally and only adds widgets. *)
Lemma hint_and_button_run images (pressed : bool) scale dpi word w :
  exists rest w',
    ((if bool_decide (images = [])
      then render (St.info "Upload at least one image to enable conversion.")
      else ret tt) ;;;
     if St.button (bool_decide (images = [])) pressed
     then convert_to_pdf images scale dpi word
     else ret tt) w = (inr tt, w')
    /\ screen w' = screen w ++ rest.
Proof.
  set (m := bind _ _).
  assert (unfailing m) as Hun.
  { apply unfailing_bind.
    - destruct (bool_decide _); [apply unfailing_render | apply unfailing_ret].
    - intros _. destruct (St.button _ _);
        [apply unfailing_convert_to_pdf | apply unfailing_ret]. }
  assert (steady m) as Hsteady.
  { apply steady_bind; [apply tame_steady; auto with tame | intros _].
    apply steady_if; [apply steady_convert_to_pdf | apply tame_steady; auto with tame]. }
  destruct (Hun w) as [[] Hret]. destruct (Hsteady w) as (_ & [rest Hrest]).
  destruct (m w) as [r w']. cbn [fst snd] in *. subst r.
  exists rest, w'. split; [reflexivity | exact Hrest].
Qed.


End WholeScriptRuns.

(** X1.  A run of the script ends normally, having shown the two headings,
    one diagnostic per file that did not load and the three estimates,
    unless the bytes of the loaded files are too many for a float: the
    product on line 54 then raises [OverflowError], which no handler
    catches, and the run ends after the diagnostics.  A total in
    [[0, 2^1023)] always converts. *)
Theorem main_returns_unless_total_overflows `{PIL.Codec}
    (session : St.Session) (w : App.World) :
  match Py.float_of_int (loaded_bytes (St.uploaded_files session)) with
  | inr t =>
      exists rest w',
        Script.main session w = (inr tt, w')
        /\ App.screen w' = App.screen w ++ headings
                           ++ diagnostics (St.uploaded_files session)
                           ++ estimate_widgets t ++ rest
  | inl e =>
      exists w',
        Script.main session w = (inl e, w')
        /\ App.screen w' = App.screen w ++ headings
                           ++ diagnostics (St.uploaded_files session)
  end
  /\ (forall total, 0 <= total < 2 ^ 1023 -> exists t, Py.float_of_int total = inr t).
Proof.
  split; [ | intros total Ht; apply Downscale.float_of_int_returns; exact Ht].
  destruct (main_loads session w) as (images & w1 & Hholds & Hreg & Hscr & _ & ->).
  destruct (Py.float_of_int (loaded_bytes (St.uploaded_files session))) as [e | t] eqn:Ht.
  - exists w1. rewrite (after_presets_overflow _ _ _ e w1 Hreg Ht). auto.
  - destruct (radio_selects (St.radio_picked session))
      as (label & preset & word & Hradio & Hget & Hword & _).
    rewrite (after_presets_run session images _ t label preset word w1 Hreg Ht Hradio Hget Hword).
    destruct (hint_and_button_run images (St.button_pressed session)
                (App.scale preset) (App.dpi preset) word (with_estimates w1 t))
      as (rest & w' & -> & Hrest).
    exists rest, w'. split; [reflexivity | ].
    rewrite Hrest, with_estimates_screen, Hscr, <- !app_assoc. reflexivity.
Qed.





Section Pipeline.
Import App Script RunFacts.
Context `{PIL.Codec}.

(** A pressed button over a working set that is not empty: the script is
    the conversion of the loaded bitmaps with the selected preset. *)
Lemma main_converts session t label preset word w :
  St.button_pressed session = true ->
  decoded (St.uploaded_files session) <> [] ->
  Py.float_of_int (loaded_bytes (St.uploaded_files session)) = inr t ->
  St.radio (Py.keys QUALITY_PRESETS) 0 (St.radio_picked session) = inr label ->
  Py.getitem QUALITY_PRESETS label = inr preset ->
  Py.index (Py.split label) 0 = inr word ->
  exists images w1,
    holds w1 images (decoded (St.uploaded_files session))
    /\ screen w1 = screen w ++ headings ++ diagnostics (St.uploaded_files session)
                   ++ estimate_widgets t
    /\ main session w = convert_to_pdf images (scale preset) (dpi preset) word w1.
Proof.
  intros Hpress Hsome Ht Hradio Hget Hword.
  destruct (main_loads session w) as (images & w1 & Hholds & Hreg & Hscr & _ & ->).
  rewrite (after_presets_run session images _ t label preset word w1 Hreg Ht Hradio Hget Hword).
  assert (images <> []) as Hne.
  { intros ->. apply Hsome. unfold holds in Hholds.
    apply Forall2_nil_inv_l in Hholds. exact Hholds. }
  rewrite bool_decide_eq_false_2 by exact Hne.
  unfold St.button. rewrite Hpress. cbn [negb andb].
  unfold bind at 1, ret at 1.
  exists images, (with_estimates w1 t).
  split; [eapply holds_evolves; [apply with_estimates_evolves | exact Hholds] | ].
  split; [ | reflexivity].
  rewrite with_estimates_screen, Hscr, <- !app_assoc. reflexivity.
Qed.

End Pipeline.

(** X4.  With the button pressed and at least one file loaded, whatever the
    radio group selects: if every resize succeeds (the products convert and
    the pixels load) and every frame of the resulting bitmaps loads and
    encodes, the page ends with the success message and a download labelled
    with the first word of the selected preset, whose data is a complete
    document with one page per frame of those bitmaps, in upload order,
    each tagged with the preset's resolution: a page per loaded file or
    more.  When the preset's scale is below 1.0 (Medium and Low) the
    bitmaps are resized ones, of one frame each, and the document has
    exactly one page per loaded file, of the size the resize gives it. *)
Theorem conversion_offers_scaled_pages `{PIL.Codec}
    (session : St.Session) (w : App.World) (t : Py.float) (label word : string)
    (preset : App.Preset) (outs : list PIL.Image) (streams : list PIL.bytes) :
  St.button_pressed session = true ->
  decoded (St.uploaded_files session) <> [] ->
  Py.float_of_int (loaded_bytes (St.uploaded_files session)) = inr t ->
  St.radio (Py.keys Script.QUALITY_PRESETS) 0 (St.radio_picked session) = inr label ->
  Py.getitem Script.QUALITY_PRESETS label = inr preset ->
  Py.index (Py.split label) 0 = inr word ->
  processed_values (App.scale preset) (decoded (St.uploaded_files session)) = inr outs ->
  encode_all outs (App.dpi preset) = inr streams ->
  exists fp w',
    Script.main session w = (inr tt, w')
    /\ App.screen w'
       = App.screen w ++ headings ++ diagnostics (St.uploaded_files session)
         ++ estimate_widgets t ++ offer word fp
    /\ PIL.complete fp
    /\ PIL.pages fp = document_pages (App.dpi preset) outs
    /\ (length (decoded (St.uploaded_files session)) <= length (PIL.pages fp))%nat
    /\ (Py.float_lt (App.scale preset) Py.lit_1_0 = true ->
          PIL.pages fp = map (fun im => (PIL.im_size im, App.dpi preset)) outs
          /\ length (PIL.pages fp) = length (decoded (St.uploaded_files session))).
Proof.
  intros Hpress Hsome Ht Hradio Hget Hword Houts Henc.
  destruct (main_converts session t label preset word w Hpress Hsome Ht Hradio Hget Hword)
    as (images & w1 & Hholds & Hscr & ->).
  destruct (convert_to_pdf_values images _ (App.scale preset) (App.dpi preset) word w1
              Hholds Hsome) as (w' & Hrun & Hres).
  rewrite Houts in Hres. cbn [Py.and_then] in Hres. rewrite Henc in Hres.
  cbn [Py.and_then] in Hres. destruct Hres as (fp & Hscr' & Hcomplete & Hpages).
  pose proof (processed_values_length _ _ _ Houts) as Hlen.
  exists fp, w'. split; [exact Hrun | ].
  split; [rewrite Hscr', Hscr, <- !app_assoc; reflexivity | ].
  split; [exact Hcomplete | ]. split; [exact Hpages | ].
  split.
  - rewrite Hpages, <- Hlen. apply document_pages_length.
  - intros Hlt. unfold processed_values in Houts. rewrite Hlt in Houts.
    apply resample_values_single in Houts.
    rewrite Hpages, (single_frames_pages _ _ Houts).
    split; [reflexivity | ]. now rewrite length_map.
Qed.

(** The theorem on a 4×6 file, a corrupt one and a greyscale 9×3 file, with
    Low picked: two pages, 1×1 and 2×1, at 72. *)
Lemma conversion_offers_scaled_pages_witness :
  let session := {| St.uploaded_files := [Toy.rgb Byte.x04 Byte.x06 "a.png";
                                          Toy.corrupt "b.png";
                                          Toy.grey Byte.x09 Byte.x03 "c.png"];
                    St.radio_picked := Some 2%nat; St.button_pressed := true |} in
  let t := S754_finite false 6755399441055744 (-50) in
  exists fp w',
    @Script.main Toy.codec session Script.initial = (inr tt, w')
    /\ App.screen w'
       = App.screen Script.initial ++ headings
         ++ @diagnostics Toy.codec (St.uploaded_files session)
         ++ estimate_widgets t ++ offer "Low" fp
    /\ PIL.complete fp
    /\ PIL.pages fp = [((1, 1), 72); ((2, 1), 72)].
Proof.
  intros session t.
  destruct (@conversion_offers_scaled_pages Toy.codec session Script.initial t
              "Low (72 DPI)" "Low" {| App.scale := Py.lit_0_25; App.dpi := 72 |}
              [PIL.in_memory (1, 1) "RGB" []; PIL.in_memory (2, 1) "RGB" []] [ []; [] ])
    as (fp & w' & Hrun & Hscr & Hcomplete & Hpages & _).
  - reflexivity.
  - vm_compute. discriminate.
  - vm_compute. reflexivity.
  - reflexivity.
  - reflexivity.
  - vm_compute. reflexivity.
  - vm_compute. reflexivity.
  - reflexivity.
  - exists fp, w'. split; [exact Hrun | ]. split; [exact Hscr | ].
    split; [exact Hcomplete | exact Hpages].
Defined.

(** X5.  With the button pressed and at least one file loaded: if a resize
    fails, or every resize succeeds and a page fails to encode, the run
    still ends normally and the page ends with exactly one message,
    "Conversion failed: " followed by the text of the first failure: the
    resizes in upload order (width before height), then the pages in
    upload order.  Neither the success message nor a download is shown. *)
Theorem conversion_reports_first_failure `{PIL.Codec}
    (session : St.Session) (w : App.World) (t : Py.float) (label word : string)
    (preset : App.Preset) (e : Py.exn) :
  St.button_pressed session = true ->
  decoded (St.uploaded_files session) <> [] ->
  Py.float_of_int (loaded_bytes (St.uploaded_files session)) = inr t ->
  St.radio (Py.keys Script.QUALITY_PRESETS) 0 (St.radio_picked session) = inr label ->
  Py.getitem Script.QUALITY_PRESETS label = inr preset ->
  Py.index (Py.split label) 0 = inr word ->
  (let? outs := processed_values (App.scale preset) (decoded (St.uploaded_files session)) in
   encode_all outs (App.dpi preset)) = inl e ->
  exists w',
    Script.main session w = (inr tt, w')
    /\ App.screen w'
       = App.screen w ++ headings ++ diagnostics (St.uploaded_files session)
         ++ estimate_widgets t ++ [St.error ("Conversion failed: " +:+ Py.str e)].
Proof.
  intros Hpress Hsome Ht Hradio Hget Hword Hfail.
  destruct (main_converts session t label preset word w Hpress Hsome Ht Hradio Hget Hword)
    as (images & w1 & Hholds & Hscr & ->).
  destruct (convert_to_pdf_values images _ (App.scale preset) (App.dpi preset) word w1
              Hholds Hsome) as (w' & Hrun & Hres).
  exists w'. split; [exact Hrun | ].
  destruct (processed_values _ _) as [e' | outs]; cbn [Py.and_then] in *.
  - injection Hfail as ->. rewrite Hres, Hscr, <- !app_assoc. reflexivity.
  - rewrite Hfail in Hres. cbn [Py.and_then] in Hres.
    rewrite Hres, Hscr, <- !app_assoc. reflexivity.
Qed.

(** The theorem on two files, the second with a pixel buffer the page
    encoder refuses, at High. *)
Lemma conversion_reports_first_failure_witness :
  let session := {| St.uploaded_files := [Toy.rgb Byte.x04 Byte.x06 "a.png";
                                          Toy.poisoned Byte.x02 Byte.x02 "b.png"];
                    St.radio_picked := None; St.button_pressed := true |} in
  let t := S754_finite false 7881299347898368 (-50) in
  exists w',
    @Script.main Toy.codec session Script.initial = (inr tt, w')
    /\ App.screen w'
       = App.screen Script.initial ++ headings
         ++ @diagnostics Toy.codec (St.uploaded_files session)
         ++ estimate_widgets t
         ++ [St.error ("Conversion failed: " +:+ Py.str (Py.OSError "encoder error"))].
Proof.
  intros session t.
  apply (@conversion_reports_first_failure Toy.codec session Script.initial t
           "High (300 DPI)" "High" {| App.scale := Py.lit_1_0; App.dpi := 300 |}
           (Py.OSError "encoder error")).
  - reflexivity.
  - vm_compute. discriminate.
  - vm_compute. reflexivity.
  - reflexivity.
  - reflexivity.
  - vm_compute. reflexivity.
  - vm_compute. reflexivity.
Defined.

(** X6.  Every image object of the working set the loader returns is in
    mode RGB, and so is every one the resize loop then returns, whatever
    the scale: [save] is only handed image objects in mode RGB. *)
Theorem working_set_is_rgb `{PIL.Codec}
    (uploaded_files : list St.UploadedFile) (scale : Py.float)
    (images processed : list positive) (total : Z) (w w1 w2 : App.World) :
  Script.load_images uploaded_files w = (inr (images, total), w1) ->
  Script.resample_all images scale w1 = (inr processed, w2) ->
  exists originals outs,
    holds w1 images originals
    /\ Forall (fun im => PIL.im_mode im = "RGB") originals
    /\ holds w2 processed outs
    /\ Forall (fun im => PIL.im_mode im = "RGB") outs
    /\ length processed = length images.
Proof.
  intros Hload Hloop.
  destruct (load_loop_spec uploaded_files [] 0 w) as (ls & w3 & Hrun & Hholds & _).
  assert (Script.load_images uploaded_files w
          = (inr (ls, loaded_bytes uploaded_files), w3)) as Hload'.
  { unfold Script.load_images. destruct uploaded_files; [ | exact Hrun].
    simpl in Hrun. unfold App.ret in *. exact Hrun. }
  rewrite Hload in Hload'. injection Hload' as -> _ ->.
  destruct (resample_all_values scale ls (decoded uploaded_files) w3 Hholds)
    as (w' & _ & _ & Hvals).
  pose proof (processed_values_mode scale "RGB" (decoded uploaded_files)) as Hmode.
  pose proof (processed_values_length scale (decoded uploaded_files)) as Hlen.
  destruct (processed_values scale (decoded uploaded_files)) as [e | outs].
  - rewrite Hloop in Hvals. discriminate.
  - destruct Hvals as (refs & Hrefs & Houts). rewrite Hloop in Hrefs.
    injection Hrefs as <- <-.
    exists (decoded uploaded_files), outs.
    split; [exact Hholds | ]. split; [apply decoded_rgb | ].
    split; [exact Houts | ]. split; [apply Hmode; [apply decoded_rgb | reflexivity] | ].
    rewrite (holds_length _ _ _ Houts), (holds_length _ _ _ Hholds). now apply Hlen.
Qed.

(** The theorem on a greyscale 3×3 and an RGB 2×2 file, at scale 0.5. *)
Lemma working_set_is_rgb_witness :
  let files := [Toy.grey Byte.x03 Byte.x03 "a.png"; Toy.rgb Byte.x02 Byte.x02 "b.png"] in
  let w1 := snd (@Script.load_images Toy.codec files Script.initial) in
  let w2 := snd (@Script.resample_all Toy.codec [2%positive; 3%positive] Py.lit_0_5 w1) in
  exists originals outs,
    holds w1 [2%positive; 3%positive] originals
    /\ Forall (fun im => PIL.im_mode im = "RGB") originals
    /\ holds w2 [4%positive; 5%positive] outs
    /\ Forall (fun im => PIL.im_mode im = "RGB") outs
    /\ length [4%positive; 5%positive] = length [2%positive; 3%positive].
Proof.
  intros files w1 w2.
  apply (@working_set_is_rgb Toy.codec files Py.lit_0_5 [2%positive; 3%positive]
           [4%positive; 5%positive] 6 Script.initial w1 w2).
  - vm_compute. reflexivity.
  - vm_compute. reflexivity.
Defined.

(* ================================================================== *)
(** * Scaling by a power of two *)
(* ================================================================== *)

Module Exact.
Import Py Rounding.

Lemma Zdigits2_eq m k : 0 < k -> 2 ^ (k - 1) <= m < 2 ^ k -> Zdigits2 m = k.
Proof.
  intros Hk [Hlo Hhi].
  assert (0 < m) as Hm by (pose proof (Z.pow_pos_nonneg 2 (k - 1)); lia).
  pose proof (Zdigits2_le m k Hm ltac:(lia) Hhi).
  pose proof (Zdigits2_gt m (k - 1) ltac:(lia) Hlo). lia.
Qed.

(** A multiple of [2^k] is its own rounding. *)
Lemma round_shift_exact g k : 0 <= k -> round_shift (g * 2 ^ k) k = g.
Proof.
  intros Hk. assert (0 < 2 ^ k) as Hpos by (apply Z.pow_pos_nonneg; lia).
  unfold round_shift. rewrite Z.mod_mul, Z.div_mul by lia.
  destruct (Z.compare_spec (2 * 0) (2 ^ k)); first [lia | reflexivity].
Qed.

(** A 53-digit mantissa times [2^52]: the product with a power of two
    rounds to the mantissa itself. *)
Lemma rounded_times_pow2 mf e :
  2 ^ (prec - 1) <= mf < 2 ^ prec -> emin <= e ->
  rounded (mf * 2 ^ (prec - 1)) (e - (prec - 1)) = (mf, e).
Proof.
  intros [Hlo Hhi] He.
  assert (0 < 2 ^ (prec - 1)) as Hp52 by (apply Z.pow_pos_nonneg; unfold prec; lia).
  assert (Zdigits2 (mf * 2 ^ (prec - 1)) = 2 * prec - 1) as HD.
  { apply Zdigits2_eq; [unfold prec; lia | ].
    replace (2 * prec - 1 - 1) with (prec - 1 + (prec - 1)) by lia.
    replace (2 * prec - 1) with (prec + (prec - 1)) by lia.
    rewrite !Z.pow_add_r by (unfold prec; lia). nia. }
  assert (shift_amount (mf * 2 ^ (prec - 1)) (e - (prec - 1)) = prec - 1) as Hk.
  { unfold shift_amount. rewrite HD. unfold fexp. fold emin. unfold prec in *. lia. }
  unfold rounded. rewrite Hk, round_shift_exact by (unfold prec; lia).
  replace (e - (prec - 1) + (prec - 1)) with e by lia.
  rewrite shift_amount_fits by lia.
  rewrite Z.pow_0_r, Z.div_1_r, Z.add_0_r. reflexivity.
Qed.

Lemma float_mul_pow2 mf ef j :
  2 ^ (prec - 1) <= Zpos mf < 2 ^ prec -> emin <= ef - j -> ef - j <= emax - prec ->
  float_mul (S754_finite false mf ef) (pow2_neg j) = S754_finite false mf (ef - j).
Proof.
  intros Hmf Hlo Hhi. unfold float_mul, pow2_neg. rewrite float_mul_finite.
  change (Zpos 4503599627370496) with (2 ^ (prec - 1)).
  replace (ef + (- 52 - j)) with (ef - j - (prec - 1)) by (unfold prec; lia).
  rewrite rounded_times_pow2 by lia.
  unfold float_of. cbn [fst snd].
  apply Z.leb_le in Hhi. rewrite Hhi. reflexivity.
Qed.

(** [float(d)] for an integer [d >= 1]: a normal number; exact below
    [2^53]. *)
Lemma binary_normalize_normal d :
  1 <= d ->
  exists m2 e2,
    binary_normalize prec emax d 0 false = float_of false (m2, e2)
    /\ 2 ^ (prec - 1) <= m2 < 2 ^ prec /\ 1 - prec <= e2
    /\ (d < 2 ^ prec -> e2 <= 0 /\ m2 = d * 2 ^ (- e2)).
Proof.
  intros Hd. destruct (Z.lt_ge_cases d (2 ^ prec)) as [Hsmall | Hlarge].
  - destruct d as [ | p | p]; try lia.
    rewrite binary_normalize_pos.
    pose proof (Zdigits2_bounds (Zpos p) ltac:(lia)) as [Dlo Dhi].
    pose proof (Zdigits2_pos (Zpos p) ltac:(lia)) as Dpos.
    pose proof (Zdigits2_le (Zpos p) prec ltac:(lia) ltac:(unfold prec; lia) Hsmall) as Dle.
    set (D := Zdigits2 (Zpos p)) in *.
    assert (fexp prec emax D = D - prec) as ->
        by (unfold fexp, SpecFloat.emin, prec, emax in *; lia).
    rewrite Z.min_r by lia.
    set (mz := Zpos p * 2 ^ (- (D - prec))).
    assert (0 < 2 ^ (- (D - prec))) as Hpow by (apply Z.pow_pos_nonneg; lia).
    assert (2 ^ (prec - 1) <= mz < 2 ^ prec) as Hmz.
    { unfold mz. split.
      - replace (prec - 1) with (D - 1 + - (D - prec)) by lia.
        rewrite Z.pow_add_r by lia. nia.
      - replace prec with (D + - (D - prec)) at 2 by lia.
        rewrite Z.pow_add_r by lia. nia. }
    assert (0 < 2 ^ (prec - 1)) by (apply Z.pow_pos_nonneg; unfold prec; lia).
    assert (emin <= D - prec) as Hemin by (unfold emin, SpecFloat.emin, prec, emax; lia).
    rewrite (rounded_id mz (D - prec) ltac:(lia) ltac:(lia) Hemin).
    exists mz, (D - prec). split; [reflexivity | ]. split; [exact Hmz | ].
    split; [lia | ]. intros _. split; [lia | reflexivity].
  - destruct d as [ | p | p]; try lia.
    assert (0 < 2 ^ prec) as Hp53 by (apply Z.pow_pos_nonneg; unfold prec; lia).
    pose proof (Zdigits2_bounds (Zpos p) ltac:(lia)) as [Dlo Dhi].
    pose proof (Zdigits2_gt (Zpos p) prec ltac:(unfold prec; lia) Hlarge) as HD.
    rewrite binary_normalize_pos.
    set (D := Zdigits2 (Zpos p)) in *. set (k := D - prec).
    assert (fexp prec emax D = k) as Hfexp
        by (unfold k, fexp, SpecFloat.emin, prec, emax in *; lia).
    rewrite Hfexp, Z.min_l by (unfold k; lia).
    change (- 0) with 0. rewrite Z.pow_0_r, Z.mul_1_r.
    unfold rounded.
    assert (shift_amount (Zpos p) 0 = k) as ->.
    { unfold shift_amount. rewrite Z.add_0_r. fold D. rewrite Hfexp. unfold k. lia. }
    rewrite Z.add_0_l.
    assert (0 < 2 ^ k) as Hpk by (apply Z.pow_pos_nonneg; unfold k; lia).
    assert (2 ^ (prec - 1) <= Zpos p / 2 ^ k < 2 ^ prec) as Hq.
    { split.
      - apply Z.div_le_lower_bound; [lia | ].
        rewrite <- Z.pow_add_r by (unfold prec, k; lia).
        replace (k + (prec - 1)) with (D - 1) by (unfold k; lia). exact Dlo.
      - apply Z.div_lt_upper_bound; [lia | ].
        rewrite <- Z.pow_add_r by (unfold prec, k; lia).
        replace (k + prec) with D by (unfold k; lia). exact Dhi. }
    assert (emin <= k) as Hemin by (unfold k, emin, SpecFloat.emin, prec, emax in *; lia).
    pose proof (round_shift_cases (Zpos p) k) as Hcases.
    remember (round_shift (Zpos p) k) as m1 eqn:Em1. clear Em1.
    assert (2 ^ (prec - 1) <= m1 <= 2 ^ prec) as Hm1 by lia.
    assert (0 < 2 ^ (prec - 1)) by (apply Z.pow_pos_nonneg; unfold prec; lia).
    destruct (Z.eq_dec m1 (2 ^ prec)) as [Hcarry | Hfit].
    + exists (2 ^ (prec - 1)), (k + 1).
      rewrite Hcarry. rewrite shift_amount_carry by exact Hemin.
      split.
      { change (2 ^ prec / 2 ^ 1) with (2 ^ (prec - 1)). reflexivity. }
      split; [split; [lia | apply Z.pow_lt_mono_r; unfold prec; lia] | ].
      split; [unfold k, prec in *; lia | lia].
    + exists m1, k.
      rewrite shift_amount_fits by lia.
      rewrite Z.pow_0_r, Z.div_1_r, Z.add_0_r.
      split; [reflexivity | ]. split; [lia | ]. split; [unfold k, prec in *; lia | lia].
Qed.

Lemma float_of_int_normal d f :
  1 <= d -> float_of_int d = inr f ->
  exists mf ef,
    f = S754_finite false mf ef
    /\ 2 ^ (prec - 1) <= Zpos mf < 2 ^ prec /\ 1 - prec <= ef <= emax - prec
    /\ (d < 2 ^ prec -> ef <= 0 /\ Zpos mf = d * 2 ^ (- ef)).
Proof.
  intros Hd. unfold float_of_int.
  destruct (binary_normalize_normal d Hd) as (m2 & e2 & -> & Hm2 & He2 & Hsmall).
  assert (0 < 2 ^ (prec - 1)) by (apply Z.pow_pos_nonneg; unfold prec; lia).
  intros Hf. apply Downscale.float_of_inr in Hf as (p & -> & -> & Hhi); [ | lia].
  exists p, e2. split; [reflexivity | ]. split; [exact Hm2 | ]. split; [lia | exact Hsmall].
Qed.

(** [int(d * 2^-j)] is the quotient of [d] by [2^j]. *)
Lemma scaled_pow2 d j :
  1 <= d < 2 ^ prec -> 0 <= j <= 1000 -> scaled d (pow2_neg j) = inr (d / 2 ^ j).
Proof.
  intros [Hd Hlt] Hj. unfold scaled, int_mul_float.
  destruct (Downscale.float_of_int_returns d) as [f Hf].
  { split; [lia | ]. eapply Z.lt_le_trans; [exact Hlt | ].
    apply Z.pow_le_mono_r; unfold prec, emax; lia. }
  rewrite Hf. cbn [and_then].
  destruct (float_of_int_normal d f Hd Hf) as (mf & ef & -> & Hmf & Hef & Hsmall).
  destruct (Hsmall Hlt) as [Hef0 Hval].
  rewrite float_mul_pow2
    by (try exact Hmf; unfold emin, SpecFloat.emin, prec, emax in *; lia).
  unfold int_of_float. cbn [cond_Zopp]. f_equal.
  rewrite Hval.
  replace (ef - j) with (- (j - ef)) by lia.
  rewrite Z.shiftl_opp_r, Z.shiftr_div_pow2 by lia.
  replace (j - ef) with (j + - ef) by lia. rewrite Z.pow_add_r by lia.
  apply Z.div_mul_cancel_r.
  - apply Z.pow_nonzero; lia.
  - apply Z.pow_nonzero; lia.
Qed.

End Exact.

Section PresetScales.
Import App Script RunFacts.
Context `{PIL.Codec}.

Lemma resample_value_pow2 j image data :
  1 <= PIL.width image < 2 ^ 53 -> 1 <= PIL.height image < 2 ^ 53 -> 0 <= j <= 1000 ->
  PIL.im_data image = inr data ->
  resample_value (pow2_neg j) image
  = inr (resized image (PIL.width image / 2 ^ j) (PIL.height image / 2 ^ j)).
Proof.
  intros Hw Hh Hj Hd. unfold resample_value.
  rewrite !Exact.scaled_pow2 by assumption. rewrite Hd. reflexivity.
Qed.

End PresetScales.

(** X7.  At the scales of the Medium and Low presets the resize step is
    exact: a bitmap whose sides are below 2^53 and whose pixels load becomes
    a new bitmap of [max(1, w div 2) × max(1, h div 2)] at 0.5 and of
    [max(1, w div 4) × max(1, h div 4)] at 0.25 (integer division); no
    rounding of the float product is involved. *)
Theorem presets_halve_and_quarter `{PIL.Codec}
    (processed : list positive) (im : positive) (image : PIL.Image) (w : App.World)
    (data : PIL.bytes) :
  App.heap w !! im = Some image ->
  1 <= PIL.width image < 2 ^ 53 ->
  1 <= PIL.height image < 2 ^ 53 ->
  PIL.im_data image = inr data ->
  exists l medium low w2 w4,
    Script.resample_one Py.lit_0_5 processed im w = (inr (processed ++ [l]), w2)
    /\ App.heap w2 !! l = Some medium
    /\ PIL.im_size medium
       = (Z.max 1 (PIL.width image / 2), Z.max 1 (PIL.height image / 2))
    /\ Script.resample_one Py.lit_0_25 processed im w = (inr (processed ++ [l]), w4)
    /\ App.heap w4 !! l = Some low
    /\ PIL.im_size low
       = (Z.max 1 (PIL.width image / 4), Z.max 1 (PIL.height image / 4)).
Proof.
  intros Him Hw Hh Hd.
  exists (fresh (dom (App.heap w))),
         (resized image (PIL.width image / 2 ^ 1) (PIL.height image / 2 ^ 1)),
         (resized image (PIL.width image / 2 ^ 2) (PIL.height image / 2 ^ 2)),
         (alloc w (resized image (PIL.width image / 2 ^ 1) (PIL.height image / 2 ^ 1))),
         (alloc w (resized image (PIL.width image / 2 ^ 2) (PIL.height image / 2 ^ 2))).
  rewrite (resample_one_below Py.lit_0_5 processed im image w eq_refl Him).
  rewrite (resample_one_below Py.lit_0_25 processed im image w eq_refl Him).
  change Py.lit_0_5 with (pow2_neg 1). change Py.lit_0_25 with (pow2_neg 2).
  rewrite !(resample_value_pow2 _ image data) by (try assumption; lia).
  split; [reflexivity | ]. split; [apply alloc_lookup | ]. split; [reflexivity | ].
  split; [reflexivity | ]. split; [apply alloc_lookup | reflexivity].
Qed.

(** The theorem on a 1001×3 bitmap: 500×1 at Medium, 250×1 at Low. *)
Lemma presets_halve_and_quarter_witness :
  let image := Toy.bitmap 1001 3 in
  let w := Toy.world [image] in
  exists l medium low w2 w4,
    @Script.resample_one Toy.codec Py.lit_0_5 [] 1%positive w = (inr ([] ++ [l]), w2)
    /\ App.heap w2 !! l = Some medium
    /\ PIL.im_size medium
       = (Z.max 1 (PIL.width image / 2), Z.max 1 (PIL.height image / 2))
    /\ @Script.resample_one Toy.codec Py.lit_0_25 [] 1%positive w = (inr ([] ++ [l]), w4)
    /\ App.heap w4 !! l = Some low
    /\ PIL.im_size low
       = (Z.max 1 (PIL.width image / 4), Z.max 1 (PIL.height image / 4)).
Proof.
  intros image w.
  apply (@presets_halve_and_quarter Toy.codec [] 1%positive image w []).
  - reflexivity.
  - vm_compute. split; [discriminate | reflexivity].
  - vm_compute. split; [discriminate | reflexivity].
  - reflexivity.
Defined.

Module Order.
Import Py Rounding.

Lemma float_le_refl_finite m e : float_le (S754_finite false m e) (S754_finite false m e) = true.
Proof.
  unfold float_le, SFleb, SFcompare. rewrite Z.compare_refl, Pos.compare_cont_refl.
  reflexivity.
Qed.

Lemma float_lt_lower_exponent m e m' e' :
  e < e' -> float_lt (S754_finite false m e) (S754_finite false m' e') = true.
Proof.
  intros He. unfold float_lt, SFltb, SFcompare.
  destruct (Z.compare_spec e e'); first [lia | reflexivity].
Qed.

(** A float with no larger exponent and no larger value is no larger. *)
Lemma float_le_of_ulps p e2 mf ef :
  e2 <= ef -> - bias <= e2 -> ulps (Zpos p) e2 <= ulps (Zpos mf) ef ->
  float_le (S754_finite false p e2) (S754_finite false mf ef) = true.
Proof.
  intros He Hb Hle. unfold float_le, SFleb, SFcompare.
  destruct (Z.compare_spec e2 ef) as [Heq | Hlt | Hgt]; [ | reflexivity | lia].
  subst ef. apply ulps_le_reflect in Hle; [ | exact Hb].
  rewrite Pos.compare_cont_spec. cbn [Pos.switch_Eq].
  rewrite Pos2Z.inj_compare.
  destruct (Z.compare_spec (Zpos p) (Zpos mf)); first [lia | reflexivity].
Qed.

(** The guardrails leave 1.0 or a float strictly between 0 and 1. *)
Lemma clamp_cases s :
  is_float64 s -> s <> float_nan ->
  Spec.clamp s lit_0_05 lit_1_0 = lit_1_0
  \/ (is_float64 (Spec.clamp s lit_0_05 lit_1_0)
      /\ float_lt float_zero (Spec.clamp s lit_0_05 lit_1_0) = true
      /\ float_lt (Spec.clamp s lit_0_05 lit_1_0) lit_1_0 = true).
Proof.
  intros Hvalid Hnan. unfold Spec.clamp.
  destruct (float_lt s lit_0_05) eqn:Hlo.
  { right. split; [reflexivity | ]. split; reflexivity. }
  destruct (float_lt lit_1_0 s) eqn:Hhi; [left; reflexivity | ].
  destruct s as [[] | [] | | [] m e]; try discriminate Hlo; try discriminate Hhi;
    [contradiction Hnan; reflexivity | ].
  destruct (float_lt (S754_finite false m e) lit_1_0) eqn:Hlt.
  { right. split; [exact Hvalid | ]. split; reflexivity. }
  left. unfold float_lt, SFltb, SFcompare, lit_1_0 in Hhi, Hlt |- *.
  destruct (Z.compare_spec e (-52)) as [He | He | He]; try discriminate Hlt.
  - subst e. rewrite Z.compare_refl in Hhi.
    rewrite Pos.compare_cont_spec in Hhi, Hlt. cbn [Pos.switch_Eq] in Hhi, Hlt.
    rewrite Pos2Z.inj_compare in Hhi, Hlt.
    destruct (Z.compare_spec (Zpos m) (Zpos 4503599627370496)) as [Hm | Hm | Hm];
      try discriminate Hlt.
    + injection Hm as ->. reflexivity.
    + destruct (Z.compare_spec (Zpos 4503599627370496) (Zpos m)) as [Hm' | Hm' | Hm'];
        try discriminate Hhi; exfalso; clear Hhi Hlt Hlo Hvalid; lia.
  - destruct (Z.compare_spec (-52) e) as [He' | He' | He']; try discriminate Hhi; lia.
Qed.

End Order.

(** X8.  For a byte total of at least 1 (below 2^1023) the three estimates
    are exact: High is [float(total)], Medium the same mantissa one
    exponent lower (exactly half) and Low two exponents lower (exactly a
    quarter); so Low < Medium < High, and [estimates] has exactly the
    three keys of the registry. *)
Theorem preset_estimates_are_exact (total : Z) :
  1 <= total < 2 ^ 1023 ->
  exists mf ef estimates,
    Py.float_of_int total = inr (S754_finite false mf ef)
    /\ Script.estimates_from Script.QUALITY_PRESETS total ∅ = inr estimates
    /\ estimates !! "High (300 DPI)" = Some (S754_finite false mf ef)
    /\ estimates !! "Medium (150 DPI)" = Some (S754_finite false mf (ef - 1))
    /\ estimates !! "Low (72 DPI)" = Some (S754_finite false mf (ef - 2))
    /\ dom estimates = list_to_set (Py.keys Script.QUALITY_PRESETS)
    /\ Py.float_lt (S754_finite false mf (ef - 2)) (S754_finite false mf (ef - 1)) = true
    /\ Py.float_lt (S754_finite false mf (ef - 1)) (S754_finite false mf ef) = true.
Proof.
  intros Htotal.
  destruct (Downscale.float_of_int_returns total) as [t Ht]; [unfold Py.emax; lia | ].
  destruct (Exact.float_of_int_normal total t ltac:(lia) Ht)
    as (mf & ef & -> & Hmf & Hef & _).
  exists mf, ef. eexists. split; [exact Ht | ].
  split; [apply (estimates_presets total _ Ht) | ].
  change Py.lit_1_0 with (pow2_neg 0).
  change Py.lit_0_5 with (pow2_neg 1).
  change Py.lit_0_25 with (pow2_neg 2).
  rewrite !Exact.float_mul_pow2
    by (try exact Hmf; unfold emin, SpecFloat.emin, Py.prec, Py.emax in *; lia).
  rewrite Z.sub_0_r.
  split; [rewrite !lookup_insert_ne by discriminate; apply lookup_insert_eq | ].
  split; [rewrite lookup_insert_ne by discriminate; apply lookup_insert_eq | ].
  split; [apply lookup_insert_eq | ].
  split; [rewrite !dom_insert_L, dom_empty_L; set_solver | ].
  split; apply Order.float_lt_lower_exponent; lia.
Qed.

(** The theorem at 3 000 000 bytes. *)
Lemma preset_estimates_are_exact_witness :
  exists mf ef estimates,
    Py.float_of_int 3000000 = inr (S754_finite false mf ef)
    /\ Script.estimates_from Script.QUALITY_PRESETS 3000000 ∅ = inr estimates
    /\ estimates !! "High (300 DPI)" = Some (S754_finite false mf ef)
    /\ estimates !! "Medium (150 DPI)" = Some (S754_finite false mf (ef - 1))
    /\ estimates !! "Low (72 DPI)" = Some (S754_finite false mf (ef - 2))
    /\ dom estimates = list_to_set (Py.keys Script.QUALITY_PRESETS)
    /\ Py.float_lt (S754_finite false mf (ef - 2)) (S754_finite false mf (ef - 1)) = true
    /\ Py.float_lt (S754_finite false mf (ef - 1)) (S754_finite false mf ef) = true.
Proof. apply (preset_estimates_are_exact 3000000). lia. Defined.

(** X9.  For every byte count [b >= 0] and every scale that is a binary64
    value other than NaN, the estimate is at most [float(b)]: the
    guardrails never let the estimate exceed the bytes uploaded. *)
Theorem estimate_at_most_total (b : Z) (s r : Py.float) :
  0 <= b -> Py.is_float64 s -> s <> Py.float_nan ->
  Script.estimate_pdf_size b s = inr r ->
  exists f, Py.float_of_int b = inr f /\ Py.float_le r f = true.
Proof.
  intros Hb Hvalid Hnan. unfold Script.estimate_pdf_size.
  rewrite guardrails_clamp. unfold Py.int_mul_float.
  destruct (Py.float_of_int b) as [e | f] eqn:Hf; [discriminate | ].
  cbn [Py.and_then]. intros [= <-]. exists f. split; [reflexivity | ].
  destruct (Z.eq_dec b 0) as [-> | Hne].
  { injection Hf as <-.
    destruct (clamp_positive_finite s Hnan) as (m & e & ->). reflexivity. }
  destruct (Exact.float_of_int_normal b f ltac:(lia) Hf)
    as (mf & ef & -> & Hmf & Hef & _).
  assert (0 < 2 ^ (Py.prec - 1)) by (apply Z.pow_pos_nonneg; unfold Py.prec; lia).
  destruct (Order.clamp_cases s Hvalid Hnan) as [-> | (Hcv & Hcpos & Hclt)].
  - change Py.lit_1_0 with (pow2_neg 0).
    rewrite Exact.float_mul_pow2
      by (try exact Hmf; unfold emin, SpecFloat.emin, Py.prec, Py.emax in *; lia).
    rewrite Z.sub_0_r. apply Order.float_le_refl_finite.
  - destruct (Rounding.below_one_spec _ Hcv Hcpos Hclt) as (mc & ec & -> & Hmc & Hec).
    assert (2 ^ Py.prec <= 2 ^ (- ec)) as Hpec by (apply Z.pow_le_mono_r; lia).
    assert (- bias <= ef + ec) as Hbias
        by (unfold bias, emin, SpecFloat.emin, Py.prec, Py.emax in *; lia).
    assert (emin <= ef) as Hemin by (unfold emin, SpecFloat.emin, Py.prec, Py.emax in *; lia).
    unfold Py.float_mul. rewrite Rounding.float_mul_finite.
    pose proof (Rounding.product_rounds_below (Zpos mf) ef (Zpos mc) ec ltac:(lia) Hemin
                  ltac:(lia) ltac:(unfold Py.prec in *; lia) Hbias) as Hprod.
    pose proof (Rounding.product_exponent_below (Zpos mf) ef (Zpos mc) ec ltac:(lia) Hemin
                  ltac:(lia) ltac:(unfold Py.prec in *; lia) Hbias) as Hexp.
    destruct (rounded (Zpos mf * Zpos mc) (ef + ec)) as [m2 e2].
    cbn [snd] in Hexp. destruct Hprod as (Hm2 & He2 & Hle).
    unfold float_of. cbn [fst snd].
    destruct m2 as [ | p2 | p2]; [reflexivity | | lia].
    assert ((e2 <=? Py.emax - Py.prec) = true) as -> by (apply Z.leb_le; lia).
    apply Order.float_le_of_ulps; assumption.
Qed.

(** The theorem at 1000 bytes and scale 0.5. *)
Lemma estimate_at_most_total_witness :
  exists f, Py.float_of_int 1000 = inr f
            /\ Py.float_le (S754_finite false 8796093022208000 (-44)) f = true.
Proof.
  apply (estimate_at_most_total 1000 Py.lit_0_5 (S754_finite false 8796093022208000 (-44))).
  - lia.
  - reflexivity.
  - discriminate.
  - vm_compute. reflexivity.
Defined.

(* ================================================================== *)
(** * Rounding to nearest, between neighbours *)
(* ================================================================== *)

Module Nearest.
Import Py Rounding Exact.

(** A number that fits [2^k]-units is a lower bound of what rounds down to
    it. *)
Lemma round_shift_ge_aligned m k g :
  0 <= k -> g * 2 ^ k <= m -> g <= round_shift m k.
Proof.
  intros Hk Hle.
  assert (0 < 2 ^ k) as Hpos by (apply Z.pow_pos_nonneg; lia).
  assert (g <= m / 2 ^ k) as Hq by (apply Z.div_le_lower_bound; lia).
  destruct (round_shift_cases m k) as [-> | [-> _]]; lia.
Qed.

(** Rounding at a fixed position is monotone. *)
Lemma round_shift_mono m m' k : 0 <= k -> m <= m' -> round_shift m k <= round_shift m' k.
Proof.
  intros Hk Hle.
  assert (0 < 2 ^ k) as Hpos by (apply Z.pow_pos_nonneg; lia).
  pose proof (Z.div_le_mono m m' (2 ^ k) Hpos Hle) as Hq.
  pose proof (Z.div_mod m (2 ^ k) ltac:(lia)) as Hdm.
  pose proof (Z.div_mod m' (2 ^ k) ltac:(lia)) as Hdm'.
  pose proof (Z.mod_pos_bound m (2 ^ k) Hpos) as Hmod.
  pose proof (Z.mod_pos_bound m' (2 ^ k) Hpos) as Hmod'.
  destruct (Z.eq_dec (m / 2 ^ k) (m' / 2 ^ k)) as [Heq | Hne].
  - assert (m mod 2 ^ k <= m' mod 2 ^ k) as Hr by (rewrite Heq in Hdm; lia).
    unfold round_shift. rewrite <- Heq.
    destruct (Z.compare_spec (2 * (m mod 2 ^ k)) (2 ^ k));
      destruct (Z.compare_spec (2 * (m' mod 2 ^ k)) (2 ^ k));
      destruct (Z.even (m / 2 ^ k)); lia.
  - destruct (round_shift_cases m k) as [-> | [-> _]];
      destruct (round_shift_cases m' k) as [-> | [-> _]]; lia.
Qed.

(** Rounding does not depend on the unit the mantissa is written in. *)
Lemma round_shift_scale m k j :
  0 <= k -> 0 <= j -> round_shift (m * 2 ^ j) (k + j) = round_shift m k.
Proof.
  intros Hk Hj.
  assert (0 < 2 ^ k) as Hpk by (apply Z.pow_pos_nonneg; lia).
  assert (0 < 2 ^ j) as Hpj by (apply Z.pow_pos_nonneg; lia).
  unfold round_shift. rewrite Z.pow_add_r by lia.
  rewrite Z.div_mul_cancel_r by lia.
  rewrite Z.mul_mod_distr_r by lia.
  set (r := m mod 2 ^ k). set (q := m / 2 ^ k).
  destruct (Z.compare_spec (2 * (r * 2 ^ j)) (2 ^ k * 2 ^ j));
    destruct (Z.compare_spec (2 * r) (2 ^ k)); first [reflexivity | nia].
Qed.

(** The value [rounded] ends with is the rounding at the first shift: the
    second shift, taken when the rounding carried, loses nothing. *)
Lemma rounded_value m e :
  0 < m -> - bias <= e ->
  let k := shift_amount m e in
  let '(m2, e2) := rounded m e in
  0 <= m2 /\ e + k <= e2 /\ emin <= e + k
  /\ ulps m2 e2 = ulps (round_shift m k) (e + k).
Proof.
  intros Hm He k. unfold rounded. fold k.
  assert (0 <= k) as Hk by apply shift_amount_nonneg.
  assert (0 < 2 ^ k) as Hpk by (apply Z.pow_pos_nonneg; lia).
  assert (0 < 2 ^ prec) as Hp53 by (apply Z.pow_pos_nonneg; unfold prec; lia).
  pose proof (Zdigits2_bounds m Hm) as [_ Dhi].
  pose proof (Zdigits2_pos m Hm) as Dpos.
  assert (emin <= e + k /\ Zdigits2 m - prec <= k) as [He1 HkD].
  { unfold k, shift_amount, fexp. fold emin. lia. }
  pose proof (round_shift_cases m k) as Hcases.
  pose proof (round_shift_nonneg m k ltac:(lia) Hk) as Hm1.
  assert (round_shift m k <= 2 ^ prec) as Hm1le.
  { assert (m / 2 ^ k < 2 ^ prec); [ | lia].
    apply Z.div_lt_upper_bound; [lia | ].
    rewrite <- Z.pow_add_r by (unfold prec; lia).
    eapply Z.lt_le_trans; [exact Dhi | ]. apply Z.pow_le_mono_r; lia. }
  remember (round_shift m k) as m1 eqn:Em1. clear Em1 Hcases.
  destruct (Z.eq_dec m1 (2 ^ prec)) as [-> | Hfit].
  - rewrite shift_amount_carry by exact He1.
    change (2 ^ prec / 2 ^ 1) with (2 ^ (prec - 1)).
    split; [apply Z.pow_nonneg; lia | ]. split; [lia | ]. split; [exact He1 | ].
    rewrite <- ulps_shift by lia. reflexivity.
  - assert (shift_amount m1 (e + k) = 0) as ->.
    { destruct (Z.eq_dec m1 0) as [-> | Hne]; [ | apply shift_amount_fits; lia].
      unfold shift_amount, fexp. fold emin. cbn [Zdigits2]. unfold prec. lia. }
    rewrite Z.pow_0_r, Z.div_1_r, Z.add_0_r. repeat split; lia.
Qed.

(** Truncation is the quotient on the common scale. *)
Lemma shiftl_ulps m e : - bias <= e -> Z.shiftl m e = ulps m e / 2 ^ bias.
Proof.
  intros He. unfold ulps.
  assert (0 < 2 ^ bias) as Hpb by (apply Z.pow_pos_nonneg; unfold bias; lia).
  destruct (Z.le_gt_cases 0 e) as [Hpos | Hneg].
  - rewrite Z.shiftl_mul_pow2 by lia.
    rewrite Z.pow_add_r by (unfold bias; lia).
    rewrite Z.mul_assoc, Z.div_mul by lia. reflexivity.
  - rewrite <- (Z.opp_involutive e) at 1. rewrite Z.shiftl_opp_r.
    rewrite Z.shiftr_div_pow2 by lia.
    replace bias with (e + bias + - e) at 2 by lia.
    rewrite (Z.pow_add_r 2 (e + bias) (- e)) by lia.
    rewrite (Z.mul_comm (2 ^ (e + bias)) (2 ^ (- e))).
    rewrite Z.div_mul_cancel_r; [reflexivity | | ]; apply Z.pow_nonzero; lia.
Qed.

Lemma shiftl_ge_int m e g : - bias <= e -> ulps g 0 <= ulps m e -> g <= Z.shiftl m e.
Proof.
  intros He Hle. rewrite shiftl_ulps by exact He.
  assert (0 < 2 ^ bias) as Hpb by (apply Z.pow_pos_nonneg; unfold bias; lia).
  apply Z.div_le_lower_bound; [lia | ].
  unfold ulps in Hle |- *. rewrite Z.add_0_l in Hle. lia.
Qed.

Lemma shiftl_mono m e m' e' :
  - bias <= e -> - bias <= e' -> ulps m e <= ulps m' e' -> Z.shiftl m e <= Z.shiftl m' e'.
Proof.
  intros He He' Hle. rewrite !shiftl_ulps by assumption.
  apply Z.div_le_mono; [apply Z.pow_pos_nonneg; unfold bias; lia | exact Hle].
Qed.

End Nearest.

Module Accuracy.
Import Py Rounding Exact Nearest.

(** [int(d * s)] against the exact product [d * ms * 2^es]: its floor or,
    when the float product rounded up to an integer, its ceiling. *)
Lemma scaled_between d ms es :
  1 <= d < 2 ^ prec ->
  is_float64 (S754_finite false ms es) ->
  float_lt (S754_finite false ms es) lit_1_0 = true ->
  exists n,
    scaled d (S754_finite false ms es) = inr n
    /\ d * Zpos ms / 2 ^ (- es) <= n <= (d * Zpos ms + 2 ^ (- es) - 1) / 2 ^ (- es).
Proof.
  intros [Hd Hlt] Hvalid Hbelow.
  destruct (Downscale.float_of_int_returns d) as [f Hf].
  { split; [lia | ]. eapply Z.lt_le_trans; [exact Hlt | ].
    apply Z.pow_le_mono_r; unfold prec, emax; lia. }
  destruct (Downscale.scaled_returns d _ f Hd Hvalid eq_refl Hbelow Hf) as [n Hn].
  exists n. split; [exact Hn | ].
  destruct (float_of_int_normal d f Hd Hf) as (mf & ef & -> & Hmf & Hef & Hsmall).
  destruct (Hsmall Hlt) as [Hef0 Hval]. clear Hsmall.
  destruct (below_one_spec _ Hvalid eq_refl Hbelow) as (ms' & es' & [= <- <-] & Hms & Hes).
  unfold scaled, int_mul_float in Hn. rewrite Hf in Hn. cbn [and_then] in Hn.
  unfold float_mul in Hn. rewrite float_mul_finite in Hn.
  set (P := Zpos mf * Zpos ms) in *. set (E0 := ef + es) in *.
  assert (0 < 2 ^ (prec - 1)) as Hp52 by (apply Z.pow_pos_nonneg; unfold prec; lia).
  assert (0 < 2 ^ (- es)) as HpE by (apply Z.pow_pos_nonneg; lia).
  assert (0 < 2 ^ (- ef)) as Hpef by (apply Z.pow_pos_nonneg; lia).
  assert (2 ^ prec <= 2 ^ (- es)) as Hpes by (apply Z.pow_le_mono_r; lia).
  assert (0 < P) as HP by (unfold P; nia).
  assert (- bias <= E0) as Hb
      by (unfold E0, bias, emin, SpecFloat.emin, prec, emax in *; lia).
  pose proof (rounded_value P E0 HP Hb) as Hrv. cbv zeta in Hrv.
  set (k := shift_amount P E0) in *.
  assert (0 <= k) as Hk by apply shift_amount_nonneg.
  destruct (rounded P E0) as [m2 e2]. destruct Hrv as (Hm2 & He2 & Hemin & Hulps).
  apply Downscale.int_of_float_float_of in Hn; [ | exact Hm2]. subst n.
  (* the rounding position is at or below the units *)
  assert (E0 + k <= 0) as He1.
  { assert (P < 2 ^ (prec - E0)) as HPlt.
    { unfold P, E0. replace (prec - (ef + es)) with (prec + (- es) + (- ef)) by lia.
      rewrite !Z.pow_add_r by (unfold prec in *; lia).
      assert (Zpos mf * Zpos ms < 2 ^ prec * 2 ^ (- es)) as Hprod
          by (apply Z.mul_lt_mono_nonneg; lia).
      assert (0 < 2 ^ prec * 2 ^ (- es)) by lia.
      nia. }
    pose proof (Zdigits2_le P (prec - E0) HP ltac:(unfold E0, prec in *; lia) HPlt).
    unfold k, shift_amount, fexp, SpecFloat.emin, prec, emax in *. lia. }
  assert (0 < 2 ^ (- (E0 + k))) as Hpe1 by (apply Z.pow_pos_nonneg; lia).
  assert (2 ^ (- (E0 + k)) * 2 ^ k = 2 ^ (- es) * 2 ^ (- ef)) as Hsplit.
  { rewrite <- !Z.pow_add_r by lia. f_equal. unfold E0. lia. }
  assert (P = d * Zpos ms * 2 ^ (- ef)) as HPX by (unfold P; rewrite Hval; ring).
  set (X := d * Zpos ms) in *.
  pose proof (Z.mul_div_le X (2 ^ (- es)) HpE) as Hfloor.
  pose proof (Z.div_mod (X + 2 ^ (- es) - 1) (2 ^ (- es)) ltac:(lia)) as Hdm.
  pose proof (Z.mod_pos_bound (X + 2 ^ (- es) - 1) (2 ^ (- es)) HpE) as Hmod.
  set (fl := X / 2 ^ (- es)) in *.
  set (c := (X + 2 ^ (- es) - 1) / 2 ^ (- es)) in *.
  assert (- bias <= E0 + k) as Hb1 by lia.
  assert (forall g, ulps (g * 2 ^ (- (E0 + k))) (E0 + k) = ulps g 0) as Hunit.
  { intros g. rewrite ulps_shift by lia. f_equal. lia. }
  split.
  - apply shiftl_ge_int; [lia | ]. rewrite Hulps, <- Hunit. apply ulps_mono.
    apply round_shift_ge_aligned; [exact Hk | ].
    rewrite <- Z.mul_assoc, Hsplit, HPX. nia.
  - apply shiftl_le_int; [exact Hm2 | lia | ]. rewrite Hulps, <- Hunit. apply ulps_mono.
    apply round_shift_le_aligned; [exact Hk | ].
    rewrite <- Z.mul_assoc, Hsplit, HPX. nia.
Qed.

End Accuracy.

(** X10.  For a positive scale below 1.0, written [ms * 2^es], and a bitmap
    whose sides are below 2^53 and whose pixels load, the resize step
    returns, and each side of the new bitmap is [max(1, n)] where [n] is
    the exact product [side * ms * 2^es] rounded down to an integer or, at
    most, up to the next one: the float arithmetic of line 104 is never off
    by more than one pixel. *)
Theorem resized_side_within_one `{PIL.Codec}
    (ms : positive) (es : Z) (processed : list positive) (im : positive)
    (image : PIL.Image) (w : App.World) (data : PIL.bytes) :
  App.heap w !! im = Some image ->
  1 <= PIL.width image < 2 ^ 53 ->
  1 <= PIL.height image < 2 ^ 53 ->
  PIL.im_data image = inr data ->
  Py.is_float64 (S754_finite false ms es) ->
  Py.float_lt (S754_finite false ms es) Py.lit_1_0 = true ->
  exists l out w',
    Script.resample_one (S754_finite false ms es) processed im w
      = (inr (processed ++ [l]), w')
    /\ App.heap w' !! l = Some out
    /\ Z.max 1 (PIL.width image * Zpos ms / 2 ^ (- es)) <= PIL.width out
       <= Z.max 1 ((PIL.width image * Zpos ms + 2 ^ (- es) - 1) / 2 ^ (- es))
    /\ Z.max 1 (PIL.height image * Zpos ms / 2 ^ (- es)) <= PIL.height out
       <= Z.max 1 ((PIL.height image * Zpos ms + 2 ^ (- es) - 1) / 2 ^ (- es)).
Proof.
  intros Him Hw Hh Hd Hvalid Hbelow.
  destruct (Accuracy.scaled_between _ ms es Hw Hvalid Hbelow) as (nw & Hnw & Hbw).
  destruct (Accuracy.scaled_between _ ms es Hh Hvalid Hbelow) as (nh & Hnh & Hbh).
  rewrite (resample_one_below _ processed im image w Hbelow Him).
  rewrite (resample_value_ok _ image nw nh data Hnw Hnh Hd).
  exists (fresh (dom (App.heap w))), (resized image nw nh), (alloc w (resized image nw nh)).
  split; [reflexivity | ]. split; [apply alloc_lookup | ].
  unfold resized, PIL.in_memory, PIL.width, PIL.height in *. cbn [PIL.im_size fst snd]. lia.
Qed.

(** The theorem on a 7×10 bitmap at scale 0.3 (the float
    [5404319552844595 * 2^-54]): the new bitmap is 2×3. *)
Lemma resized_side_within_one_witness :
  let image := Toy.bitmap 7 10 in
  let w := Toy.world [image] in
  exists l out w',
    @Script.resample_one Toy.codec (S754_finite false 5404319552844595 (-54)) [] 1%positive w
      = (inr ([] ++ [l]), w')
    /\ App.heap w' !! l = Some out
    /\ Z.max 1 (PIL.width image * 5404319552844595 / 2 ^ (- -54)) <= PIL.width out
       <= Z.max 1 ((PIL.width image * 5404319552844595 + 2 ^ (- -54) - 1) / 2 ^ (- -54))
    /\ Z.max 1 (PIL.height image * 5404319552844595 / 2 ^ (- -54)) <= PIL.height out
       <= Z.max 1 ((PIL.height image * 5404319552844595 + 2 ^ (- -54) - 1) / 2 ^ (- -54)).
Proof.
  intros image w.
  apply (@resized_side_within_one Toy.codec 5404319552844595 (-54) [] 1%positive image w
           []).
  - reflexivity.
  - vm_compute. split; [discriminate | reflexivity].
  - vm_compute. split; [discriminate | reflexivity].
  - reflexivity.
  - reflexivity.
  - reflexivity.
Defined.

Module Monotone.
Import Py Rounding Exact Nearest.

Lemma ulps_mono_exp m e e' : 0 <= m -> - bias <= e -> e <= e' -> ulps m e <= ulps m e'.
Proof.
  intros Hm He Hle. unfold ulps. apply Z.mul_le_mono_nonneg_l; [exact Hm | ].
  apply Z.pow_le_mono_r; lia.
Qed.

(** A smaller value has no more digits above the unit. *)
Lemma magnitude_le m e m' e' :
  0 < m -> 0 < m' -> - bias <= e -> - bias <= e' ->
  ulps m e <= ulps m' e' -> Zdigits2 m + e <= Zdigits2 m' + e'.
Proof.
  intros Hm Hm' He He' Hle.
  pose proof (Zdigits2_bounds m Hm) as [Dlo _].
  pose proof (Zdigits2_bounds m' Hm') as [_ Dhi'].
  pose proof (Zdigits2_pos m Hm) as Dpos. pose proof (Zdigits2_pos m' Hm') as Dpos'.
  set (D := Zdigits2 m) in *. set (D' := Zdigits2 m') in *.
  assert (2 ^ (D - 1 + (e + bias)) <= ulps m e) as H1.
  { unfold ulps. rewrite (Z.pow_add_r 2 (D - 1) (e + bias)) by lia.
    apply Z.mul_le_mono_nonneg_r; [apply Z.pow_nonneg; lia | exact Dlo]. }
  assert (ulps m' e' < 2 ^ (D' + (e' + bias))) as H2.
  { unfold ulps. rewrite (Z.pow_add_r 2 D' (e' + bias)) by lia.
    apply Z.mul_lt_mono_pos_r; [apply Z.pow_pos_nonneg; lia | exact Dhi']. }
  assert (2 ^ (D - 1 + (e + bias)) < 2 ^ (D' + (e' + bias))) as H3 by lia.
  apply Z.pow_lt_mono_r_iff in H3; lia.
Qed.

(** Rounding to nearest is monotone (on mantissas of at least 53 digits,
    as products of normal numbers are). *)
Lemma rounded_mono m e m' e' :
  2 ^ (prec - 1) <= m -> 2 ^ (prec - 1) <= m' -> - bias <= e -> - bias <= e' ->
  ulps m e <= ulps m' e' ->
  ulps (fst (rounded m e)) (snd (rounded m e))
  <= ulps (fst (rounded m' e')) (snd (rounded m' e')).
Proof.
  intros Hm Hm' He He' Hle.
  assert (0 < 2 ^ (prec - 1)) as Hp52 by (apply Z.pow_pos_nonneg; unfold prec; lia).
  pose proof (rounded_value m e ltac:(lia) He) as Hrv.
  pose proof (rounded_value m' e' ltac:(lia) He') as Hrv'. cbv zeta in Hrv, Hrv'.
  destruct (rounded m e) as [m2 e2]. destruct (rounded m' e') as [m2' e2'].
  cbn [fst snd]. destruct Hrv as (_ & _ & Hemin & ->). destruct Hrv' as (_ & _ & Hemin' & ->).
  pose proof (magnitude_le m e m' e' ltac:(lia) ltac:(lia) He He' Hle) as Hmag.
  pose proof (Zdigits2_gt m (prec - 1) ltac:(unfold prec; lia) Hm) as HD.
  pose proof (Zdigits2_gt m' (prec - 1) ltac:(unfold prec; lia) Hm') as HD'.
  pose proof (Zdigits2_bounds m ltac:(lia)) as [Dlo Dhi].
  pose proof (Zdigits2_bounds m' ltac:(lia)) as [Dlo' Dhi'].
  set (k := shift_amount m e) in *. set (k' := shift_amount m' e') in *.
  assert (e + k = fexp prec emax (Zdigits2 m + e)) as HF
      by (unfold k, shift_amount, fexp in *; lia).
  assert (e' + k' = fexp prec emax (Zdigits2 m' + e')) as HF'
      by (unfold k', shift_amount, fexp in *; lia).
  assert (0 <= k) as Hk by apply shift_amount_nonneg.
  assert (0 <= k') as Hk' by apply shift_amount_nonneg.
  assert (e + k <= e' + k') as HFle by (rewrite HF, HF'; unfold fexp; lia).
  destruct (Z.eq_dec (e + k) (e' + k')) as [Heq | Hne].
  - (* the same binade *)
    rewrite <- Heq. apply ulps_mono.
    destruct (Z.le_gt_cases e e') as [Hee | Hee].
    + replace k with (k' + (e' - e)) by lia.
      rewrite <- (round_shift_scale m' k' (e' - e)) by lia.
      apply round_shift_mono; [lia | ].
      apply (ulps_le_reflect _ _ e He).
      rewrite ulps_shift by lia. replace (e + (e' - e)) with e' by lia. exact Hle.
    + replace k' with (k + (e - e')) by lia.
      rewrite <- (round_shift_scale m k (e - e')) by lia.
      apply round_shift_mono; [lia | ].
      apply (ulps_le_reflect _ _ e' He').
      rewrite ulps_shift by lia. replace (e' + (e - e')) with e by lia. exact Hle.
  - (* a lower binade: the power of two between them separates the two *)
    assert (Zdigits2 m' - prec = k') as HkD'
        by (rewrite HF' in *; unfold fexp in *; fold emin in *; lia).
    assert (Zdigits2 m - prec <= k) as HkD by (pose proof (fexp_ge (Zdigits2 m + e)); lia).
    assert (round_shift m k <= 2 ^ prec) as Hup.
    { apply round_shift_le_aligned; [exact Hk | ].
      rewrite <- Z.pow_add_r by (unfold prec; lia).
      assert (2 ^ Zdigits2 m <= 2 ^ (prec + k)) by (apply Z.pow_le_mono_r; lia). lia. }
    assert (2 ^ (prec - 1) <= round_shift m' k') as Hdown.
    { apply round_shift_ge_aligned; [exact Hk' | ].
      rewrite <- Z.pow_add_r by (unfold prec; lia).
      replace (prec - 1 + k') with (Zdigits2 m' - 1) by lia. exact Dlo'. }
    etransitivity; [apply ulps_mono; exact Hup | ].
    etransitivity; [ | apply ulps_mono; exact Hdown].
    replace (2 ^ prec) with (2 ^ (prec - 1) * 2 ^ 1)
      by (rewrite <- Z.pow_add_r by (unfold prec; lia); f_equal; lia).
    rewrite ulps_shift by lia.
    apply ulps_mono_exp; lia.
Qed.

(** [int(d * s)] is monotone in [d]. *)
Lemma scaled_mono d1 d2 s n1 n2 :
  1 <= d1 -> d1 <= d2 -> d2 < 2 ^ prec ->
  is_float64 s -> float_lt float_zero s = true -> float_lt s lit_1_0 = true ->
  scaled d1 s = inr n1 -> scaled d2 s = inr n2 -> n1 <= n2.
Proof.
  intros Hd1 Hle Hd2 Hvalid Hpos Hbelow.
  destruct (below_one_spec s Hvalid Hpos Hbelow) as (ms & es & -> & Hms & Hes).
  unfold scaled, int_mul_float.
  destruct (float_of_int d1) as [e | f1] eqn:Hf1; [discriminate | ].
  destruct (float_of_int d2) as [e | f2] eqn:Hf2; [discriminate | ].
  cbn [and_then].
  destruct (float_of_int_normal d1 f1 Hd1 Hf1) as (mf1 & ef1 & -> & Hmf1 & Hef1 & Hs1).
  destruct (float_of_int_normal d2 f2 ltac:(lia) Hf2) as (mf2 & ef2 & -> & Hmf2 & Hef2 & Hs2).
  destruct (Hs1 ltac:(lia)) as [He1 Hv1]. destruct (Hs2 Hd2) as [He2 Hv2].
  unfold float_mul. rewrite !float_mul_finite.
  assert (0 < 2 ^ (prec - 1)) as Hp52 by (apply Z.pow_pos_nonneg; unfold prec; lia).
  assert (- bias <= ef1 + es /\ - bias <= ef2 + es) as [Hb1 Hb2]
      by (unfold bias, emin, SpecFloat.emin, prec, emax in *; lia).
  assert (forall d mf ef, ef <= 0 -> - bias <= ef + es -> Zpos mf = d * 2 ^ (- ef) ->
            ulps (Zpos mf * Zpos ms) (ef + es) = d * Zpos ms * 2 ^ (es + bias)) as Hval.
  { intros d mf ef Hef Hb Hv. unfold ulps. rewrite Hv.
    replace (es + bias) with (- ef + (ef + es + bias)) by lia.
    rewrite (Z.pow_add_r 2 (- ef) (ef + es + bias)) by lia. ring. }
  pose proof (rounded_mono (Zpos mf1 * Zpos ms) (ef1 + es) (Zpos mf2 * Zpos ms) (ef2 + es)
                ltac:(nia) ltac:(nia) Hb1 Hb2) as Hmono.
  rewrite (Hval d1 mf1 ef1 He1 Hb1 Hv1), (Hval d2 mf2 ef2 He2 Hb2 Hv2) in Hmono.
  assert (0 <= 2 ^ (es + bias)) as Hpow by (apply Z.pow_nonneg; lia).
  specialize (Hmono ltac:(nia)).
  pose proof (rounded_value (Zpos mf1 * Zpos ms) (ef1 + es) ltac:(lia) Hb1) as Hr1.
  pose proof (rounded_value (Zpos mf2 * Zpos ms) (ef2 + es) ltac:(lia) Hb2) as Hr2.
  cbv zeta in Hr1, Hr2.
  pose proof (shift_amount_nonneg (Zpos mf1 * Zpos ms) (ef1 + es)).
  pose proof (shift_amount_nonneg (Zpos mf2 * Zpos ms) (ef2 + es)).
  destruct (rounded (Zpos mf1 * Zpos ms) (ef1 + es)) as [m1 e1].
  destruct (rounded (Zpos mf2 * Zpos ms) (ef2 + es)) as [m2 e2].
  cbn [fst snd] in Hmono.
  destruct Hr1 as (Hm1 & He1' & _ & _). destruct Hr2 as (Hm2 & He2' & _ & _).
  intros Hn1 Hn2.
  apply Downscale.int_of_float_float_of in Hn1; [ | exact Hm1].
  apply Downscale.int_of_float_float_of in Hn2; [ | exact Hm2]. subst n1 n2.
  apply shiftl_mono; [lia | lia | exact Hmono].
Qed.

End Monotone.

(** X11.  For a scale strictly between 0 and 1.0 and a bitmap whose sides
    are below 2^53 and whose pixels load, the resize step returns and keeps
    the orientation: a bitmap no wider than tall becomes one no wider than
    tall, and a bitmap no taller than wide one no taller than wide (so a
    square stays a square). *)
Theorem resize_keeps_orientation `{PIL.Codec}
    (scale : Py.float) (processed : list positive) (im : positive)
    (image : PIL.Image) (w : App.World) (data : PIL.bytes) :
  App.heap w !! im = Some image ->
  1 <= PIL.width image < 2 ^ 53 ->
  1 <= PIL.height image < 2 ^ 53 ->
  PIL.im_data image = inr data ->
  Py.is_float64 scale ->
  Py.float_lt Py.float_zero scale = true ->
  Py.float_lt scale Py.lit_1_0 = true ->
  exists l out w',
    Script.resample_one scale processed im w = (inr (processed ++ [l]), w')
    /\ App.heap w' !! l = Some out
    /\ (PIL.width image <= PIL.height image -> PIL.width out <= PIL.height out)
    /\ (PIL.height image <= PIL.width image -> PIL.height out <= PIL.width out).
Proof.
  intros Him Hw Hh Hdata Hvalid Hpos Hbelow.
  assert (forall d, 1 <= d < 2 ^ 53 -> exists n, scaled d scale = inr n) as Hret.
  { intros d Hd.
    destruct (Downscale.float_of_int_returns d) as [f Hf].
    { split; [lia | ]. eapply Z.lt_le_trans; [apply Hd | ].
      apply Z.pow_le_mono_r; unfold Py.emax; lia. }
    apply (Downscale.scaled_returns d scale f); try assumption. lia. }
  destruct (Hret _ Hw) as [nw Hnw]. destruct (Hret _ Hh) as [nh Hnh].
  rewrite (resample_one_below _ processed im image w Hbelow Him).
  rewrite (resample_value_ok _ image nw nh data Hnw Hnh Hdata).
  exists (fresh (dom (App.heap w))), (resized image nw nh), (alloc w (resized image nw nh)).
  split; [reflexivity | ]. split; [apply alloc_lookup | ].
  change (PIL.width (resized image nw nh)) with (Z.max 1 nw).
  change (PIL.height (resized image nw nh)) with (Z.max 1 nh).
  split; intros Hle.
  - pose proof (Monotone.scaled_mono (PIL.width image) (PIL.height image) scale nw nh
                  (proj1 Hw) Hle (proj2 Hh) Hvalid Hpos Hbelow Hnw Hnh). lia.
  - pose proof (Monotone.scaled_mono (PIL.height image) (PIL.width image) scale nh nw
                  (proj1 Hh) Hle (proj2 Hw) Hvalid Hpos Hbelow Hnh Hnw). lia.
Qed.

(** The theorem on a 640×481 bitmap at scale 0.3. *)
Lemma resize_keeps_orientation_witness :
  let image := Toy.bitmap 640 481 in
  let w := Toy.world [image] in
  exists l out w',
    @Script.resample_one Toy.codec (S754_finite false 5404319552844595 (-54)) [] 1%positive w
      = (inr ([] ++ [l]), w')
    /\ App.heap w' !! l = Some out
    /\ (PIL.width image <= PIL.height image -> PIL.width out <= PIL.height out)
    /\ (PIL.height image <= PIL.width image -> PIL.height out <= PIL.width out).
Proof.
  intros image w.
  apply (@resize_keeps_orientation Toy.codec (S754_finite false 5404319552844595 (-54))
           [] 1%positive image w []).
  - reflexivity.
  - vm_compute. split; [discriminate | reflexivity].
  - vm_compute. split; [discriminate | reflexivity].
  - reflexivity.
  - reflexivity.
  - reflexivity.
  - reflexivity.
Defined.

(* ================================================================== *)
(** * Order and monotonicity of the estimates *)
(* ================================================================== *)

Module Canonical.
Import Py Rounding Exact Nearest Monotone.

(** Rounding a mantissa of at least 53 digits gives a normal number, or
    one at the smallest exponent. *)
Lemma rounded_normal m e :
  2 ^ (prec - 1) <= m -> - bias <= e ->
  emin < snd (rounded m e) -> 2 ^ (prec - 1) <= fst (rounded m e).
Proof.
  intros Hm He.
  assert (0 < 2 ^ (prec - 1)) as Hp52 by (apply Z.pow_pos_nonneg; unfold prec; lia).
  assert (2 ^ prec = 2 * 2 ^ (prec - 1)) as Hp53
      by (rewrite <- Z.pow_succ_r by (unfold prec; lia); f_equal; lia).
  pose proof (Zdigits2_gt m (prec - 1) ltac:(unfold prec; lia) Hm) as HD.
  pose proof (Zdigits2_bounds m ltac:(lia)) as [Dlo Dhi].
  unfold rounded. cbn [fst snd].
  set (k := shift_amount m e).
  assert (0 <= k) as Hk by apply shift_amount_nonneg.
  assert (0 < 2 ^ k) as Hpk by (apply Z.pow_pos_nonneg; lia).
  assert (e + k = fexp prec emax (Zdigits2 m + e)) as HF
      by (unfold k, shift_amount, fexp in *; lia).
  pose proof (round_shift_cases m k) as Hcases.
  assert (m / 2 ^ k < 2 ^ prec) as Hqhi.
  { apply Z.div_lt_upper_bound; [lia | ].
    rewrite <- Z.pow_add_r by (unfold prec; lia).
    eapply Z.lt_le_trans; [exact Dhi | ]. apply Z.pow_le_mono_r; [lia | ].
    pose proof (fexp_ge (Zdigits2 m + e)). lia. }
  assert (0 <= m / 2 ^ k) as Hq0 by (apply Z.div_pos; lia).
  destruct (Z.eq_dec (e + k) emin) as [Hmin | Hnorm].
  - (* the smallest exponent: only a carry can leave it *)
    remember (round_shift m k) as m1 eqn:Em1. clear Em1.
    destruct (Z.eq_dec m1 (2 ^ prec)) as [-> | Hfit].
    + rewrite shift_amount_carry by lia. intros _.
      change (2 ^ prec / 2 ^ 1) with (2 ^ (prec - 1)). lia.
    + assert (shift_amount m1 (e + k) = 0) as ->.
      { destruct (Z.eq_dec m1 0) as [-> | Hne]; [ | apply shift_amount_fits; lia].
        unfold shift_amount, fexp. fold emin. cbn [Zdigits2]. unfold prec. lia. }
      intros Hlt. lia.
  - (* a normal exponent: the quotient has 53 digits *)
    assert (k = Zdigits2 m - prec) as HkD
        by (rewrite HF in *; unfold fexp in *; fold emin in *; lia).
    assert (2 ^ (prec - 1) <= m / 2 ^ k) as Hqlo.
    { apply Z.div_le_lower_bound; [lia | ].
      rewrite <- Z.pow_add_r by (unfold prec; lia).
      replace (k + (prec - 1)) with (Zdigits2 m - 1) by lia. exact Dlo. }
    remember (round_shift m k) as m1 eqn:Em1. clear Em1. intros _.
    destruct (Z.eq_dec m1 (2 ^ prec)) as [-> | Hfit].
    + rewrite shift_amount_carry by (pose proof (fexp_ge_emin (Zdigits2 m + e)); lia).
      change (2 ^ prec / 2 ^ 1) with (2 ^ (prec - 1)). lia.
    + rewrite shift_amount_fits
        by (try (pose proof (fexp_ge_emin (Zdigits2 m + e))); lia).
      rewrite Z.pow_0_r, Z.div_1_r. lia.
Qed.

(** Python's [<=] on two floats in the format follows their values. *)
Lemma float_le_of_value p e p' e' :
  (emin < e -> 2 ^ (prec - 1) <= Zpos p) -> Zpos p' < 2 ^ prec ->
  - bias <= e -> emin <= e' -> ulps (Zpos p) e <= ulps (Zpos p') e' ->
  float_le (S754_finite false p e) (S754_finite false p' e') = true.
Proof.
  intros Hnorm Hp' He He' Hle.
  destruct (Z.le_gt_cases e e') as [Hee | Hee].
  - apply Order.float_le_of_ulps; assumption.
  - exfalso. specialize (Hnorm ltac:(lia)).
    assert (- bias <= e') as Hb' by (unfold bias, emin, SpecFloat.emin, prec, emax in *; lia).
    assert (ulps (Zpos p') e' < ulps (2 ^ prec) e') as H1.
    { unfold ulps. apply Z.mul_lt_mono_pos_r; [apply Z.pow_pos_nonneg; lia | exact Hp']. }
    assert (ulps (2 ^ prec) e' <= ulps (2 ^ (prec - 1)) e) as H2.
    { unfold ulps. rewrite <- !Z.pow_add_r by (unfold prec; lia).
      apply Z.pow_le_mono_r; lia. }
    pose proof (ulps_mono _ _ e Hnorm). lia.
Qed.

(** And conversely, on valid floats, the values follow [<]. *)
Lemma value_of_not_lt p e p' e' :
  is_float64 (S754_finite false p e) -> is_float64 (S754_finite false p' e') ->
  float_lt (S754_finite false p e) (S754_finite false p' e') = false ->
  ulps (Zpos p') e' <= ulps (Zpos p) e.
Proof.
  intros Hv Hv' Hlt.
  assert (forall q x, is_float64 (S754_finite false q x) ->
            emin <= x /\ Zpos q < 2 ^ prec /\ (emin < x -> 2 ^ (prec - 1) <= Zpos q)) as Hcan.
  { intros q x Hq. unfold is_float64, valid_binary, bounded, canonical_mantissa in Hq.
    apply andb_prop in Hq as [Hq _]. apply Z.eqb_eq in Hq.
    pose proof (Zdigits2_bounds (Zpos q) ltac:(lia)) as [Dlo Dhi].
    change (Z.pos (digits2_pos q)) with (Zdigits2 (Zpos q)) in Hq.
    set (D := Zdigits2 (Zpos q)) in *. unfold fexp in Hq. fold emin in Hq.
    split; [lia | ]. split.
    - eapply Z.lt_le_trans; [exact Dhi | ]. apply Z.pow_le_mono_r; lia.
    - intros Hx. replace (prec - 1) with (D - 1) by lia. exact Dlo. }
  destruct (Hcan p e Hv) as (He & Hp & Hn). destruct (Hcan p' e' Hv') as (He' & Hp' & Hn').
  assert (- bias <= e /\ - bias <= e') as [Hb Hb']
      by (unfold bias, emin, SpecFloat.emin, prec, emax in *; lia).
  unfold float_lt, SFltb, SFcompare in Hlt.
  destruct (Z.compare_spec e e') as [Heq | Hl | Hg]; try discriminate Hlt.
  - subst e'. apply ulps_mono.
    rewrite Pos.compare_cont_spec in Hlt. cbn [Pos.switch_Eq] in Hlt.
    rewrite Pos2Z.inj_compare in Hlt.
    destruct (Z.compare_spec (Zpos p) (Zpos p')); first [lia | discriminate Hlt].
  - specialize (Hn ltac:(lia)).
    assert (ulps (Zpos p') e' < ulps (2 ^ prec) e') as H1.
    { unfold ulps. apply Z.mul_lt_mono_pos_r; [apply Z.pow_pos_nonneg; lia | exact Hp']. }
    assert (ulps (2 ^ prec) e' <= ulps (2 ^ (prec - 1)) e) as H2.
    { unfold ulps. rewrite <- !Z.pow_add_r by (unfold prec; lia).
      apply Z.pow_le_mono_r; lia. }
    pose proof (ulps_mono _ _ e Hn). lia.
Qed.

End Canonical.

Module Estimates.
Import Py Rounding Exact Nearest Monotone Canonical.

(** [float(d)] as a rounding: of [d] itself, written with at least 53
    digits. *)
Lemma float_of_int_rounded d f :
  1 <= d -> float_of_int d = inr f ->
  exists M a mf ef,
    f = S754_finite false mf ef /\ rounded M a = (Zpos mf, ef)
    /\ 2 ^ (prec - 1) <= M /\ 1 - prec <= a <= 0 /\ ulps M a = ulps d 0.
Proof.
  intros Hd. unfold float_of_int. destruct d as [ | p | p]; try lia.
  rewrite binary_normalize_pos.
  pose proof (Zdigits2_bounds (Zpos p) ltac:(lia)) as [Dlo Dhi].
  pose proof (Zdigits2_pos (Zpos p) ltac:(lia)) as Dpos.
  set (D := Zdigits2 (Zpos p)) in *.
  set (a := Z.min 0 (fexp prec emax D)).
  assert (1 - prec <= a <= 0) as Ha by (unfold a, fexp, SpecFloat.emin, prec, emax in *; lia).
  assert (0 < 2 ^ (prec - 1)) as Hp52 by (apply Z.pow_pos_nonneg; unfold prec; lia).
  assert (2 ^ (prec - 1) <= Zpos p * 2 ^ (- a)) as HM.
  { destruct (Z.le_gt_cases D prec) as [Hsmall | Hlarge].
    - assert (a = D - prec) as -> by (unfold a, fexp, SpecFloat.emin, prec, emax in *; lia).
      replace (prec - 1) with (D - 1 + - (D - prec)) by lia.
      rewrite Z.pow_add_r by lia.
      apply Z.mul_le_mono_nonneg_r; [apply Z.pow_nonneg; lia | exact Dlo].
    - assert (a = 0) as -> by (unfold a, fexp, SpecFloat.emin, prec, emax in *; lia).
      change (- 0) with 0. rewrite Z.pow_0_r, Z.mul_1_r.
      assert (2 ^ (prec - 1) <= 2 ^ (D - 1)) by (apply Z.pow_le_mono_r; lia). lia. }
  pose proof (rounded_canonical (Zpos p * 2 ^ (- a)) a ltac:(lia)) as Hcan.
  destruct (rounded (Zpos p * 2 ^ (- a)) a) as [m2 e2] eqn:Hr.
  destruct Hcan as (Hm2 & _ & _).
  unfold float_of. cbn [fst snd].
  destruct m2 as [ | q | q]; try lia.
  - intros [= <-]. exfalso.
    pose proof (rounded_value (Zpos p * 2 ^ (- a)) a ltac:(lia)
                  ltac:(unfold bias, prec in *; lia)) as Hrv.
    cbv zeta in Hrv. rewrite Hr in Hrv. destruct Hrv as (_ & _ & _ & Hu).
    pose proof (shift_amount_nonneg (Zpos p * 2 ^ (- a)) a) as Hk.
    pose proof (round_shift_ge_aligned (Zpos p * 2 ^ (- a))
                  (shift_amount (Zpos p * 2 ^ (- a)) a) 0 Hk ltac:(lia)) as H0.
    pose proof (round_shift_cases (Zpos p * 2 ^ (- a)) (shift_amount (Zpos p * 2 ^ (- a)) a))
      as Hcases.
    assert (0 < 2 ^ shift_amount (Zpos p * 2 ^ (- a)) a) as Hpk
        by (apply Z.pow_pos_nonneg; lia).
    unfold ulps in Hu. rewrite Z.mul_0_l in Hu. symmetry in Hu.
    apply Z.mul_eq_0 in Hu as [Hu | Hu];
      [ | pose proof (Z.pow_pos_nonneg 2 (a + shift_amount (Zpos p * 2 ^ (- a)) a + bias)
                        ltac:(lia) ltac:(unfold bias, prec in *; lia)); lia].
    (* a mantissa of 53 digits or more does not round to zero *)
    pose proof (Zdigits2_gt _ (prec - 1) ltac:(unfold prec; lia) HM) as HDM.
    pose proof (Zdigits2_bounds (Zpos p * 2 ^ (- a)) ltac:(lia)) as [DMlo _].
    assert (shift_amount (Zpos p * 2 ^ (- a)) a <= Zdigits2 (Zpos p * 2 ^ (- a)) - 1) as Hkle
        by (unfold shift_amount, fexp, SpecFloat.emin, prec, emax in *; lia).
    assert (2 ^ shift_amount (Zpos p * 2 ^ (- a)) a
            <= 2 ^ (Zdigits2 (Zpos p * 2 ^ (- a)) - 1)) as Hpow
        by (apply Z.pow_le_mono_r; lia).
    assert (1 <= Zpos p * 2 ^ (- a) / 2 ^ shift_amount (Zpos p * 2 ^ (- a)) a) as Hq
        by (apply Z.div_le_lower_bound; lia).
    lia.
  - destruct (e2 <=? emax - prec); [ | discriminate].
    intros [= <-]. exists (Zpos p * 2 ^ (- a)), a, q, e2.
    split; [reflexivity | ]. split; [exact Hr | ]. split; [exact HM | ].
    split; [exact Ha | ].
    rewrite ulps_shift by (unfold bias, prec in *; lia). f_equal. lia.
Qed.

(** [float] is monotone on the integers from 1 on. *)
Lemma float_of_int_mono d1 d2 mf1 ef1 mf2 ef2 :
  1 <= d1 -> d1 <= d2 ->
  float_of_int d1 = inr (S754_finite false mf1 ef1) ->
  float_of_int d2 = inr (S754_finite false mf2 ef2) ->
  ulps (Zpos mf1) ef1 <= ulps (Zpos mf2) ef2.
Proof.
  intros Hd1 Hle Hf1 Hf2.
  destruct (float_of_int_rounded d1 _ Hd1 Hf1)
    as (M1 & a1 & ? & ? & [= <- <-] & Hr1 & HM1 & Ha1 & Hv1).
  destruct (float_of_int_rounded d2 _ ltac:(lia) Hf2)
    as (M2 & a2 & ? & ? & [= <- <-] & Hr2 & HM2 & Ha2 & Hv2).
  pose proof (rounded_mono M1 a1 M2 a2 HM1 HM2 ltac:(unfold bias, prec in *; lia)
                ltac:(unfold bias, prec in *; lia)) as Hmono.
  rewrite Hr1, Hr2, Hv1, Hv2 in Hmono. cbn [fst snd] in Hmono.
  apply Hmono. apply ulps_mono. exact Hle.
Qed.


(** The product of a normal float by a positive one, after rounding: in
    the format, and normal above the smallest exponent. *)
Lemma product_in_format mf ef mc ec :
  2 ^ (prec - 1) <= Zpos mf -> - bias <= ef + ec ->
  0 <= fst (rounded (Zpos mf * Zpos mc) (ef + ec)) < 2 ^ prec
  /\ emin <= snd (rounded (Zpos mf * Zpos mc) (ef + ec))
  /\ (emin < snd (rounded (Zpos mf * Zpos mc) (ef + ec)) ->
      2 ^ (prec - 1) <= fst (rounded (Zpos mf * Zpos mc) (ef + ec))).
Proof.
  intros Hmf Hb.
  assert (0 < 2 ^ (prec - 1)) as Hp52 by (apply Z.pow_pos_nonneg; unfold prec; lia).
  assert (2 ^ (prec - 1) <= Zpos mf * Zpos mc) as HP by nia.
  pose proof (rounded_canonical (Zpos mf * Zpos mc) (ef + ec) ltac:(lia)) as Hcan.
  pose proof (rounded_normal (Zpos mf * Zpos mc) (ef + ec) HP Hb) as Hnorm.
  destruct (rounded (Zpos mf * Zpos mc) (ef + ec)) as [m2 e2]. cbn [fst snd] in *. tauto.
Qed.

(** Python's [<=] between two rounded products follows their values. *)
Lemma float_le_rounded m1 e1 m2 e2 :
  0 <= m1 < 2 ^ prec -> (emin < e1 -> 2 ^ (prec - 1) <= m1) -> - bias <= e1 ->
  0 <= m2 < 2 ^ prec -> emin <= e2 ->
  e1 <= emax - prec ->
  ulps m1 e1 <= ulps m2 e2 ->
  float_le (float_of false (m1, e1)) (float_of false (m2, e2)) = true.
Proof.
  intros Hm1 Hn1 Hb1 Hm2 He2 Hfin Hle.
  assert (- bias <= e2) as Hb2 by (unfold bias, emin, SpecFloat.emin, prec, emax in *; lia).
  unfold float_of. cbn [fst snd].
  destruct m1 as [ | p1 | p1]; try lia.
  - destruct m2 as [ | p2 | p2]; try lia; [reflexivity | ].
    destruct (e2 <=? emax - prec); reflexivity.
  - apply Z.leb_le in Hfin. rewrite Hfin.
    destruct m2 as [ | p2 | p2]; try lia.
    + exfalso. unfold ulps in Hle. rewrite Z.mul_0_l in Hle.
      pose proof (Z.pow_pos_nonneg 2 (e1 + bias) ltac:(lia) ltac:(lia)). nia.
    + destruct (e2 <=? emax - prec); [ | reflexivity].
      apply float_le_of_value; try assumption; lia.
Qed.


Lemma ulps_product_l mf ef mc ec :
  ec <= 0 -> - bias <= ef + ec ->
  ulps mf ef * mc = ulps (mf * mc) (ef + ec) * 2 ^ (- ec).
Proof.
  intros Hec Hb. unfold ulps.
  replace (ef + bias) with (ef + ec + bias + - ec) by lia.
  rewrite (Z.pow_add_r 2 (ef + ec + bias) (- ec)) by lia. ring.
Qed.

(** The product with a fixed positive float is monotone in the other
    factor. *)
Lemma product_mono_l mf1 ef1 mf2 ef2 mc ec :
  0 < mc -> ec <= 0 -> - bias <= ef1 + ec -> - bias <= ef2 + ec ->
  ulps mf1 ef1 <= ulps mf2 ef2 ->
  ulps (mf1 * mc) (ef1 + ec) <= ulps (mf2 * mc) (ef2 + ec).
Proof.
  intros Hmc Hec Hb1 Hb2 Hle.
  pose proof (ulps_product_l mf1 ef1 mc ec Hec Hb1) as H1.
  pose proof (ulps_product_l mf2 ef2 mc ec Hec Hb2) as H2.
  assert (0 < 2 ^ (- ec)) as Hp by (apply Z.pow_pos_nonneg; lia).
  nia.
Qed.

Lemma product_mono_r mf ef mc1 ec1 mc2 ec2 :
  0 < mf -> - bias <= ec1 -> - bias <= ec2 ->
  - bias <= ef + ec1 -> - bias <= ef + ec2 ->
  ulps mc1 ec1 <= ulps mc2 ec2 ->
  ulps (mf * mc1) (ef + ec1) <= ulps (mf * mc2) (ef + ec2).
Proof.
  intros Hmf Hb1 Hb2 Hb1' Hb2' Hle. unfold ulps in *.
  destruct (Z.le_gt_cases 0 ef) as [Hpos | Hneg].
  - replace (ef + ec1 + bias) with (ef + (ec1 + bias)) by lia.
    replace (ef + ec2 + bias) with (ef + (ec2 + bias)) by lia.
    rewrite !(Z.pow_add_r 2 ef) by lia.
    assert (0 < 2 ^ ef) by (apply Z.pow_pos_nonneg; lia).
    replace (mf * mc1 * (2 ^ ef * 2 ^ (ec1 + bias)))
      with (mf * 2 ^ ef * (mc1 * 2 ^ (ec1 + bias))) by ring.
    replace (mf * mc2 * (2 ^ ef * 2 ^ (ec2 + bias)))
      with (mf * 2 ^ ef * (mc2 * 2 ^ (ec2 + bias))) by ring.
    apply Z.mul_le_mono_nonneg_l; [nia | exact Hle].
  - assert (0 < 2 ^ (- ef)) as Hp by (apply Z.pow_pos_nonneg; lia).
    assert (forall mc ec, - bias <= ef + ec ->
              mc * 2 ^ (ec + bias) = mc * 2 ^ (ef + ec + bias) * 2 ^ (- ef)) as Hsplit.
    { intros mc ec Hb. replace (ec + bias) with (ef + ec + bias + - ef) by lia.
      rewrite (Z.pow_add_r 2 (ef + ec + bias) (- ef)) by lia. ring. }
    rewrite (Hsplit mc1 ec1 Hb1'), (Hsplit mc2 ec2 Hb2') in Hle.
    apply Z.mul_le_mono_pos_r in Hle; [ | exact Hp].
    replace (mf * mc1 * 2 ^ (ef + ec1 + bias))
      with (mf * (mc1 * 2 ^ (ef + ec1 + bias))) by ring.
    replace (mf * mc2 * 2 ^ (ef + ec2 + bias))
      with (mf * (mc2 * 2 ^ (ef + ec2 + bias))) by ring.
    apply Z.mul_le_mono_nonneg_l; [lia | exact Hle].
Qed.

(** The guardrails never leave a scale below 0.05. *)
Lemma clamp_not_below s :
  s <> float_nan -> float_lt (Spec.clamp s lit_0_05 lit_1_0) lit_0_05 = false.
Proof.
  intros Hnan. unfold Spec.clamp.
  destruct (float_lt s lit_0_05) eqn:Hlo; [reflexivity | ].
  destruct (float_lt lit_1_0 s) eqn:Hhi; [reflexivity | exact Hlo].
Qed.

End Estimates.

(** X12.  The estimate is monotone in the bytes uploaded: for byte counts
    [0 <= b1 <= b2] and a binary64 scale other than NaN,
    [estimate_pdf_size b1 s <= estimate_pdf_size b2 s]; loading one more
    file never lowers an estimate. *)
Theorem estimate_monotone_in_bytes (b1 b2 : Z) (s r1 r2 : Py.float) :
  0 <= b1 -> b1 <= b2 -> Py.is_float64 s -> s <> Py.float_nan ->
  Script.estimate_pdf_size b1 s = inr r1 ->
  Script.estimate_pdf_size b2 s = inr r2 ->
  Py.float_le r1 r2 = true.
Proof.
  intros Hb1 Hle Hvalid Hnan. unfold Script.estimate_pdf_size.
  rewrite guardrails_clamp. unfold Py.int_mul_float.
  destruct (Py.float_of_int b1) as [e | f1] eqn:Hf1; [discriminate | ].
  destruct (Py.float_of_int b2) as [e | f2] eqn:Hf2; [discriminate | ].
  cbn [Py.and_then]. intros [= <-] [= <-].
  destruct (Z.eq_dec b1 0) as [-> | Hne].
  { injection Hf1 as <-.
    destruct (clamp_positive_finite s Hnan) as (m & e & ->).
    change (Py.float_mul (S754_zero false) (S754_finite false m e)) with Py.float_zero.
    apply FloatFacts.plus_signed_ge_zero. apply float_mul_finite_plus.
    - eapply FloatFacts.float_of_int_plus; [ | exact Hf2]. lia.
    - intros b. eapply float_of_int_finite; eauto. }
  destruct (Exact.float_of_int_normal b1 f1 ltac:(lia) Hf1)
    as (mf1 & ef1 & -> & Hmf1 & Hef1 & _).
  destruct (Exact.float_of_int_normal b2 f2 ltac:(lia) Hf2)
    as (mf2 & ef2 & -> & Hmf2 & Hef2 & _).
  pose proof (Estimates.float_of_int_mono b1 b2 _ _ _ _ ltac:(lia) Hle Hf1 Hf2) as Hord.
  assert (0 < 2 ^ (Py.prec - 1)) as Hp52 by (apply Z.pow_pos_nonneg; unfold Py.prec; lia).
  assert (emin <= ef1 /\ emin <= ef2) as [Hemin1 Hemin2]
      by (unfold emin, SpecFloat.emin, Py.prec, Py.emax in *; lia).
  destruct (Order.clamp_cases s Hvalid Hnan) as [-> | (Hcv & Hcpos & Hclt)].
  - change Py.lit_1_0 with (pow2_neg 0).
    rewrite !Exact.float_mul_pow2 by (try assumption; lia).
    rewrite !Z.sub_0_r.
    apply Canonical.float_le_of_value; try assumption; try lia.
    unfold bias, Py.prec in *; lia.
  - destruct (Rounding.below_one_spec _ Hcv Hcpos Hclt) as (mc & ec & -> & Hmc & Hec).
    assert (2 ^ Py.prec <= 2 ^ (- ec)) as Hpec by (apply Z.pow_le_mono_r; lia).
    assert (- bias <= ef1 + ec /\ - bias <= ef2 + ec) as [Hbias1 Hbias2]
        by (unfold bias, emin, SpecFloat.emin, Py.prec, Py.emax in *; lia).
    unfold Py.float_mul. rewrite !Rounding.float_mul_finite.
    pose proof (Rounding.product_exponent_below (Zpos mf1) ef1 (Zpos mc) ec ltac:(lia) Hemin1
                  ltac:(lia) ltac:(unfold Py.prec in *; lia) Hbias1) as Hexp.
    pose proof (Estimates.product_in_format mf1 ef1 mc ec ltac:(lia) Hbias1) as (Hm1 & He1 & Hn1).
    pose proof (Estimates.product_in_format mf2 ef2 mc ec ltac:(lia) Hbias2) as (Hm2 & He2 & _).
    pose proof (Monotone.rounded_mono (Zpos mf1 * Zpos mc) (ef1 + ec)
                  (Zpos mf2 * Zpos mc) (ef2 + ec) ltac:(nia) ltac:(nia) Hbias1 Hbias2
                  ltac:(apply Estimates.product_mono_l;
                        [lia | unfold Py.prec in *; lia | lia | lia | exact Hord]))
      as Hmono.
    destruct (rounded (Zpos mf1 * Zpos mc) (ef1 + ec)) as [m1 e1].
    destruct (rounded (Zpos mf2 * Zpos mc) (ef2 + ec)) as [m2 e2].
    cbn [fst snd] in *.
    apply Estimates.float_le_rounded; try assumption; try lia.
    unfold bias, emin, SpecFloat.emin, Py.prec, Py.emax in *; lia.
Qed.

(** The theorem at 1000 and 1001 bytes, scale 0.3. *)
Lemma estimate_monotone_in_bytes_witness :
  Py.float_le (S754_finite false 5277655813324800 (-44))
              (S754_finite false 5282933469138125 (-44)) = true.
Proof.
  apply (estimate_monotone_in_bytes 1000 1001 (S754_finite false 5404319552844595 (-54))).
  - lia.
  - lia.
  - reflexivity.
  - discriminate.
  - vm_compute. reflexivity.
  - vm_compute. reflexivity.
Defined.

(** X13.  For every byte count [b >= 0] and every binary64 scale other than
    NaN the estimate is at least [float(b) * 0.05]: however small or
    negative the scale, the guardrails keep the estimate at 5 % of the
    bytes uploaded or more. *)
Theorem estimate_at_least_five_percent (b : Z) (s r : Py.float) :
  0 <= b -> Py.is_float64 s -> s <> Py.float_nan ->
  Script.estimate_pdf_size b s = inr r ->
  exists f, Py.float_of_int b = inr f
            /\ Py.float_le (Py.float_mul f Py.lit_0_05) r = true.
Proof.
  intros Hb Hvalid Hnan. unfold Script.estimate_pdf_size.
  rewrite guardrails_clamp. unfold Py.int_mul_float.
  destruct (Py.float_of_int b) as [e | f] eqn:Hf; [discriminate | ].
  cbn [Py.and_then]. intros [= <-]. exists f. split; [reflexivity | ].
  pose proof (Estimates.clamp_not_below s Hnan) as Hge.
  destruct (Z.eq_dec b 0) as [-> | Hne].
  { injection Hf as <-.
    destruct (clamp_positive_finite s Hnan) as (m & e & ->). reflexivity. }
  destruct (Exact.float_of_int_normal b f ltac:(lia) Hf) as (mf & ef & -> & Hmf & Hef & _).
  assert (0 < 2 ^ (Py.prec - 1)) as Hp52 by (apply Z.pow_pos_nonneg; unfold Py.prec; lia).
  assert (emin <= ef) as Hemin by (unfold emin, SpecFloat.emin, Py.prec, Py.emax in *; lia).
  assert (- bias <= ef + -57) as Hbias5
      by (unfold bias, emin, SpecFloat.emin, Py.prec, Py.emax in *; lia).
  (* the product with 0.05 *)
  unfold Py.float_mul at 1. unfold Py.lit_0_05 at 1. rewrite Rounding.float_mul_finite.
  pose proof (Rounding.product_exponent_below (Zpos mf) ef 7205759403792794 (-57)
                ltac:(lia) Hemin ltac:(split; [lia | reflexivity]) ltac:(lia) Hbias5) as Hexp5.
  pose proof (Rounding.product_rounds_below (Zpos mf) ef 7205759403792794 (-57)
                ltac:(lia) Hemin ltac:(split; [lia | reflexivity]) ltac:(lia) Hbias5) as Hbelow5.
  pose proof (Estimates.product_in_format mf ef 7205759403792794 (-57) ltac:(lia) Hbias5)
    as (Hm5 & He5 & Hn5).
  destruct (Order.clamp_cases s Hvalid Hnan) as [Hone | (Hcv & Hcpos & Hclt)].
  - rewrite Hone. change Py.lit_1_0 with (pow2_neg 0).
    rewrite Exact.float_mul_pow2 by (try assumption; lia).
    rewrite Z.sub_0_r.
    destruct (rounded (Zpos mf * 7205759403792794) (ef + -57)) as [m5 e5].
    cbn [fst snd] in *. destruct Hbelow5 as (_ & Hb5 & Hle5).
    replace (S754_finite false mf ef) with (float_of false (Zpos mf, ef)).
    + apply Estimates.float_le_rounded; try assumption; lia.
    + unfold float_of. cbn [fst snd].
      assert ((ef <=? Py.emax - Py.prec) = true) as -> by (apply Z.leb_le; lia).
      reflexivity.
  - destruct (Rounding.below_one_spec _ Hcv Hcpos Hclt) as (mc & ec & Hc & Hmc & Hec).
    rewrite Hc in *.
    assert (- bias <= ef + ec /\ - bias <= ec) as [Hbias Hbiasc]
        by (unfold bias, emin, SpecFloat.emin, Py.prec, Py.emax in *; lia).
    pose proof (Canonical.value_of_not_lt mc ec 7205759403792794 (-57) Hcv eq_refl Hge)
      as Hval.
    unfold Py.float_mul. rewrite Rounding.float_mul_finite.
    pose proof (Estimates.product_in_format mf ef mc ec ltac:(lia) Hbias) as (Hm2 & He2 & _).
    pose proof (Monotone.rounded_mono (Zpos mf * 7205759403792794) (ef + -57)
                  (Zpos mf * Zpos mc) (ef + ec) ltac:(nia) ltac:(nia) Hbias5 Hbias
                  ltac:(apply Estimates.product_mono_r;
                        [lia | unfold bias; lia | lia | lia | lia | exact Hval]))
      as Hmono.
    destruct (rounded (Zpos mf * 7205759403792794) (ef + -57)) as [m5 e5].
    destruct (rounded (Zpos mf * Zpos mc) (ef + ec)) as [m2 e2].
    cbn [fst snd] in *. destruct Hbelow5 as (_ & Hb5 & _).
    apply Estimates.float_le_rounded; try assumption; lia.
Qed.

(** The theorem at 1000 bytes and scale 0.3. *)
Lemma estimate_at_least_five_percent_witness :
  exists f, Py.float_of_int 1000 = inr f
            /\ Py.float_le (Py.float_mul f Py.lit_0_05)
                 (S754_finite false 5277655813324800 (-44)) = true.
Proof.
  apply (estimate_at_least_five_percent 1000 (S754_finite false 5404319552844595 (-54))).
  - lia.
  - reflexivity.
  - discriminate.
  - vm_compute. reflexivity.
Defined.

(* ================================================================== *)
(** * The figures of the estimate columns *)
(* ================================================================== *)

Module Megabytes.
Import Py Rounding Exact.

(** Dividing a normal float by [1024 * 1024] lowers its exponent by 20 and
    leaves its mantissa. *)
Lemma float_div_mebi mf ef :
  2 ^ (prec - 1) <= Zpos mf < 2 ^ prec -> emin + 21 <= ef -> ef <= emax - prec ->
  float_div (S754_finite false mf ef) mebi = S754_finite false mf (ef - 20).
Proof.
  intros Hmf Hlo Hhi. unfold float_div, mebi, SFdiv, SFdiv_core_binary. cbn [xorb].
  assert (0 < 2 ^ (prec - 1)) as Hp52 by (apply Z.pow_pos_nonneg; unfold prec; lia).
  assert (Zdigits2 (Zpos mf) = prec) as HD
      by (apply Zdigits2_eq; [unfold prec; lia | exact Hmf]).
  change (Z.pos (digits2_pos mf)) with (Zdigits2 (Zpos mf)).
  rewrite HD. change (Zdigits2 4503599627370496) with 53.
  assert (Z.min (fexp prec emax (prec + ef - (53 + -32))) (ef - -32) = ef - 21) as ->
      by (unfold fexp, emin, SpecFloat.emin, prec, emax in *; lia).
  replace (ef - -32 - (ef - 21)) with 53 by lia.
  cbn match.
  rewrite Z.shiftl_mul_pow2 by lia.
  assert (Z.div_eucl (Zpos mf * 2 ^ 53) 4503599627370496 = (2 * Zpos mf, 0)) as ->.
  { pose proof (Z.div_eucl_eq (Zpos mf * 2 ^ 53) 4503599627370496 ltac:(lia)) as Heq.
    pose proof (Z.mod_pos_bound (Zpos mf * 2 ^ 53) 4503599627370496 ltac:(lia)) as Hb.
    unfold Z.modulo in Hb.
    destruct (Z.div_eucl (Zpos mf * 2 ^ 53) 4503599627370496) as [q r].
    change (2 ^ 53) with (2 * 4503599627370496) in Heq.
    assert (q = 2 * Zpos mf /\ r = 0) as [-> ->] by lia. reflexivity. }
  cbv beta iota.
  change (new_location 4503599627370496 0) with loc_Exact.
  rewrite binary_round_aux_rounded by lia.
  assert (rounded (2 * Zpos mf) (ef - 21) = (Zpos mf, ef - 20)) as ->.
  { assert (Zdigits2 (2 * Zpos mf) = prec + 1) as HD2.
    { apply Zdigits2_eq; [unfold prec; lia | ].
      replace (prec + 1 - 1) with (Z.succ (prec - 1)) by lia.
      replace (prec + 1) with (Z.succ prec) by lia.
      rewrite !Z.pow_succ_r by (unfold prec; lia).
      replace prec with (Z.succ (prec - 1)) in Hmf at 2 by lia.
      rewrite Z.pow_succ_r in Hmf by (unfold prec; lia).
      replace prec with (Z.succ (prec - 1)) at 2 by lia.
      rewrite (Z.pow_succ_r 2 (prec - 1)) by (unfold prec; lia). lia. }
    assert (shift_amount (2 * Zpos mf) (ef - 21) = 1) as Hk.
    { unfold shift_amount. rewrite HD2.
      unfold fexp, emin, SpecFloat.emin, prec, emax in *. lia. }
    unfold rounded. rewrite Hk.
    replace (2 * Zpos mf) with (Zpos mf * 2 ^ 1) by (change (2 ^ 1) with 2; lia).
    rewrite round_shift_exact by lia.
    replace (ef - 21 + 1) with (ef - 20) by lia.
    rewrite shift_amount_fits by lia.
    rewrite Z.pow_0_r, Z.div_1_r, Z.add_0_r. reflexivity. }
  unfold float_of. cbn [fst snd].
  assert ((ef - 20 <=? emax - prec) = true) as -> by (apply Z.leb_le; lia).
  reflexivity.
Qed.

(** [nearest_even n d] is within half a unit of [n / d]. *)
Lemma nearest_even_spec n d :
  0 < d -> Z.abs (2 * (n - nearest_even n d * d)) <= d.
Proof.
  intros Hd. unfold nearest_even.
  pose proof (Z.div_mod n d ltac:(lia)) as Hn.
  pose proof (Z.mod_pos_bound n d Hd) as Hr.
  destruct (Z.compare_spec (2 * (n mod d)) d) as [Heq | Hlt | Hgt].
  - destruct (Z.even (n / d)); nia.
  - nia.
  - nia.
Qed.

(** The hundredths [format_2f] prints are the exact value, times 100,
    rounded to the nearest integer: with [k] the binary places of the
    value, [100 * m * 2^e] and the hundredths differ by at most a half. *)
Lemma hundredths_nearest m e :
  let k := Z.max 0 (- e) in
  Z.abs (2 * (100 * Zpos m * 2 ^ (e + k) - hundredths m e * 2 ^ k)) <= 2 ^ k.
Proof.
  unfold hundredths. destruct e as [ | p | p]; cbn zeta.
  - change (Z.max 0 (- 0)) with 0. rewrite Z.add_0_r, Z.pow_0_r. lia.
  - assert (Z.max 0 (- Z.pos p) = 0) as -> by lia.
    rewrite Z.add_0_r, Z.pow_0_r.
    pose proof (Z.pow_pos_nonneg 2 (Z.pos p) ltac:(lia) ltac:(lia)). lia.
  - assert (Z.max 0 (- Z.neg p) = Z.pos p) as -> by lia.
    replace (Z.neg p + Z.pos p) with 0 by lia.
    rewrite Z.pow_pos_fold, Z.pow_0_r, Z.mul_1_r.
    replace (100 * Z.pos m) with (Z.pos m * 100) by lia.
    apply nearest_even_spec. apply Z.pow_pos_nonneg; lia.
Qed.

End Megabytes.

(** X14.  When the loaded files hold between 1 and 2^1023 bytes, the three
    figures written under the captions are the texts [f"{x:.2f}"] of the
    exact quotients: with [float(total) = mf * 2^ef], the run formats
    [mf * 2^(ef-20)], [mf * 2^(ef-21)] and [mf * 2^(ef-22)], that is the
    total, its half and its quarter divided by [1024 * 1024], no product or
    quotient having rounded; the only rounding is that of the format, to
    the nearest hundredth. *)
Theorem estimate_columns_are_exact `{PIL.Codec} (session : St.Session) (w : App.World) :
  1 <= loaded_bytes (St.uploaded_files session) < 2 ^ 1023 ->
  exists mf ef rest w',
    Py.float_of_int (loaded_bytes (St.uploaded_files session))
      = inr (S754_finite false mf ef)
    /\ Script.main session w = (inr tt, w')
    /\ App.screen w'
       = App.screen w ++ headings ++ diagnostics (St.uploaded_files session)
         ++ [ St.caption "High (300 DPI)";
              St.write ("~ **" +:+ Py.format_2f (S754_finite false mf (ef - 20))
                        +:+ " MB**");
              St.caption "Medium (150 DPI)";
              St.write ("~ **" +:+ Py.format_2f (S754_finite false mf (ef - 21))
                        +:+ " MB**");
              St.caption "Low (72 DPI)";
              St.write ("~ **" +:+ Py.format_2f (S754_finite false mf (ef - 22))
                        +:+ " MB**") ]
         ++ rest
    /\ (forall e, let k := Z.max 0 (- e) in
          Z.abs (2 * (100 * Zpos mf * 2 ^ (e + k) - Py.hundredths mf e * 2 ^ k))
          <= 2 ^ k).
Proof.
  intros Htotal.
  destruct (Downscale.float_of_int_returns (loaded_bytes (St.uploaded_files session)))
    as [t Ht]; [unfold Py.emax; lia | ].
  destruct (Exact.float_of_int_normal _ t (proj1 Htotal) Ht)
    as (mf & ef & -> & Hmf & Hef & _).
  destruct (main_loads session w) as (images & w1 & Hholds & Hreg & Hscr & _ & Hmain).
  destruct (radio_selects (St.radio_picked session))
    as (label & preset & word & Hradio & Hget & Hword & _).
  rewrite (after_presets_run session images _ _ label preset word w1 Hreg Ht Hradio Hget Hword)
    in Hmain.
  destruct (hint_and_button_run images (St.button_pressed session)
              (App.scale preset) (App.dpi preset) word
              (with_estimates w1 (S754_finite false mf ef)))
    as (rest & w' & Hrun & Hrest).
  exists mf, ef, rest, w'. split; [exact Ht | ].
  split; [rewrite Hmain; exact Hrun | ].
  split; [ | intros e; apply Megabytes.hundredths_nearest].
  rewrite Hrest, with_estimates_screen, Hscr, <- !app_assoc.
  do 3 f_equal. unfold estimate_widgets, megabytes.
  change Py.lit_1_0 with (pow2_neg 0).
  change Py.lit_0_5 with (pow2_neg 1).
  change Py.lit_0_25 with (pow2_neg 2).
  rewrite !Exact.float_mul_pow2
    by (try exact Hmf; unfold emin, SpecFloat.emin, Py.prec, Py.emax in *; lia).
  rewrite !Megabytes.float_div_mebi
    by (try exact Hmf; unfold emin, SpecFloat.emin, Py.prec, Py.emax in *; lia).
  rewrite Z.sub_0_r.
  replace (ef - 1 - 20) with (ef - 21) by lia.
  replace (ef - 2 - 20) with (ef - 22) by lia.
  reflexivity.
Qed.

(** The theorem on two files of 3 bytes each. *)
Lemma estimate_columns_are_exact_witness :
  let session := {| St.uploaded_files := [Toy.rgb Byte.x02 Byte.x02 "a.png";
                                          Toy.rgb Byte.x03 Byte.x01 "b.png"];
                    St.radio_picked := None; St.button_pressed := false |} in
  exists mf ef rest w',
    Py.float_of_int (@loaded_bytes Toy.codec (St.uploaded_files session))
      = inr (S754_finite false mf ef)
    /\ @Script.main Toy.codec session Script.initial = (inr tt, w')
    /\ App.screen w'
       = App.screen Script.initial ++ headings
         ++ @diagnostics Toy.codec (St.uploaded_files session)
         ++ [ St.caption "High (300 DPI)";
              St.write ("~ **" +:+ Py.format_2f (S754_finite false mf (ef - 20))
                        +:+ " MB**");
              St.caption "Medium (150 DPI)";
              St.write ("~ **" +:+ Py.format_2f (S754_finite false mf (ef - 21))
                        +:+ " MB**");
              St.caption "Low (72 DPI)";
              St.write ("~ **" +:+ Py.format_2f (S754_finite false mf (ef - 22))
                        +:+ " MB**") ]
         ++ rest
    /\ (forall e, let k := Z.max 0 (- e) in
          Z.abs (2 * (100 * Zpos mf * 2 ^ (e + k) - Py.hundredths mf e * 2 ^ k))
          <= 2 ^ k).
Proof.
  intros session.
  apply (@estimate_columns_are_exact Toy.codec session Script.initial).
  vm_compute. split; [discriminate | reflexivity].
Defined.

(** Three million bytes: the columns read 2.86, 1.43 and 0.72. *)
Example estimate_widgets_three_million :
  Py.float_of_int 3000000 = inr (S754_finite false 6442450944000000 (-31))
  /\ estimate_widgets (S754_finite false 6442450944000000 (-31))
     = [ St.caption "High (300 DPI)"; St.write "~ **2.86 MB**";
         St.caption "Medium (150 DPI)"; St.write "~ **1.43 MB**";
         St.caption "Low (72 DPI)"; St.write "~ **0.72 MB**" ].
Proof. split; vm_compute; reflexivity. Qed.
